(** * DemoScripter: the typing engine, the hotkey dispatch and the JSON storage

    A shallow embedding of [src/models.py], [src/typer_engine.py],
    [src/storage.py] and of the demo runner of [src/app.py], followed by the
    properties of the specification that are stated about them.

    Conventions of the embedding.
    - Seconds are Python floats in the source; here they are exact rationals
      ([Q]), so a delay is a finite number and arithmetic does not round.
    - A Python [str] is a [string]; one character is one [ascii].
    - A [threading.Event] is the boolean it holds.
    - Calls that leave the program (sleeping, the pynput controller, the
      callbacks) are recorded as a trace of [event]s; whether such a call
      raises, what [GetKeyState] answers and what [random.random()] returns
      come from a [World]. *)

From Stdlib Require Import Ascii String QArith Qminmax Lqa.
From stdpp Require Import gmap strings list fin_maps pretty.

#[local] Set Warnings "-register-all".
#[local] Open Scope string_scope.
#[local] Open Scope list_scope.
#[local] Open Scope nat_scope.

(* ===================================================================== *)
(** * Part I: the program *)
(* ===================================================================== *)

(** ** [max(a, b)] of Python on two numbers: the first argument is kept
    unless the second is strictly greater. *)
Definition py_max (a b : Q) : Q := if Qle_bool b a then a else b.

(** The newline character. *)
Definition newline : ascii := ascii_of_nat 10.

(** [char in s] for a one-character [char]. *)
Fixpoint char_in (c : ascii) (s : string) : bool :=
  match s with
  | EmptyString => false
  | String c' s' => if Ascii.eqb c c' then true else char_in c s'
  end.

(** ** src/models.py *)
Module Models.

(** The [id] field of both classes is renamed, [id] being the identity
    function of the library. *)
Record Step := mkStep {
  step_id : string;
  text : string;
  press_enter : bool;
  delay_before : Q;
}.

Record Script := mkScript {
  script_id : string;
  name : string;
  description : string;
  steps : list Step;
  created_at : string;
  updated_at : string;
}.

(** [Step(id=..., text=..., press_enter=..., delay_before=...)], every
    argument optional. [uuid.uuid4()] is an external source of identifiers:
    [uuid4 n] is the string of the [n]-th uuid the process draws, and the
    number of uuids drawn so far is threaded as state. A missing [id] calls
    the default factory, which draws one uuid; the other defaults are
    constants. *)
Definition Step_init (uuid4 : nat -> string) (id : option string)
    (text : option string) (press_enter : option bool)
    (delay_before : option Q) (drawn : nat) : Step * nat :=
  let '(i, drawn') :=
    match id with
    | Some i => (i, drawn)
    | None => (uuid4 drawn, S drawn)
    end in
  (mkStep i (default "" text) (default true press_enter)
          (default 0.3%Q delay_before), drawn').

(** [s.replace("\n", " ")] *)
Fixpoint replace_newlines (s : string) : string :=
  match s with
  | EmptyString => EmptyString
  | String c s' =>
      String (if Ascii.eqb c newline then " "%char else c) (replace_newlines s')
  end.

(** The slice [s[:k]]: the first [k] characters, all of [s] when it has
    fewer; a negative [k] leaves out the last [-k] characters. *)
Definition slice_to (s : string) (k : Z) : string :=
  if (k <? 0)%Z
  then String.substring 0 (Z.to_nat (Z.of_nat (String.length s) + k)) s
  else String.substring 0 (Z.to_nat k) s.

(** [Step.preview]; [max_len] is optional and 60 when left out. *)
Definition preview (st : Step) (max_len : option Z) : string :=
  let max_len := default 60%Z max_len in
  let tx := replace_newlines (text st) in
  if (max_len <? Z.of_nat (String.length tx))%Z
  then String.append (slice_to tx (max_len - 3)) "..."
  else tx.

(** [Script.touch]; [now] is what [datetime.now().isoformat()] returns at
    the call. *)
Definition touch (now : string) (s : Script) : Script :=
  mkScript (script_id s) (name s) (description s) (steps s) (created_at s) now.

(** A source of identifiers that never repeats itself, for the examples. *)
Definition uuid_of_count (n : nat) : string := pretty n.

End Models.

(** ** pynput keys *)
Module Keyboard.

Inductive Key :=
| enter | caps_lock
| f1 | f2 | f3 | f4 | f5 | f6 | f7 | f8 | f9 | f10
| KeyCode (c : ascii).

#[export] Instance Key_eq_dec : EqDecision Key.
Proof. solve_decision. Defined.

End Keyboard.

(** ** src/typer_engine.py *)
Module TyperEngine.
Import Keyboard.

(** The fields of a [TyperEngine]; the controller is stateless here, what it
    does goes to the trace. *)
Record t := mk {
  base_delay : Q;
  humanize : bool;
  is_typing : bool;
  _stop : bool;
}.

Definition set_base_delay (d : Q) (e : t) : t :=
  mk d (humanize e) (is_typing e) (_stop e).
Definition set_is_typing (b : bool) (e : t) : t :=
  mk (base_delay e) (humanize e) b (_stop e).
Definition set_stop_flag (b : bool) (e : t) : t :=
  mk (base_delay e) (humanize e) (is_typing e) b.

(** Speed presets: seconds per character. *)
Definition SPEED_PRESETS : gmap string Q :=
  {[ "Slow" := 0.065%Q; "Normal" := 0.040%Q; "Fast" := 0.022%Q;
     "Very Fast" := 0.010%Q ]}.

(** [__init__]; [SPEED_PRESETS["Fast"]] is present, the default is not
    reached. *)
Definition init : t :=
  mk (default 0.022%Q (SPEED_PRESETS !! "Fast")) true false false.

Definition set_speed (preset_name : string) (e : t) : t :=
  set_base_delay (default 0.022%Q (SPEED_PRESETS !! preset_name)) e.

Definition set_speed_value (delay : Q) (e : t) : t :=
  set_base_delay (py_max 0.003 delay) e.

(** [stop]: the two assignments, in the order of the source. *)
Definition stop_set (e : t) : t := set_stop_flag true e.
Definition stop_clear_typing (e : t) : t := set_is_typing false e.
Definition stop (e : t) : t := stop_clear_typing (stop_set e).

(** [random.uniform(a, b)] is [a + (b - a) * random()]. *)
Definition uniform (a b u : Q) : Q := (a + (b - a) * u)%Q.

(** The characters after which the pause is longer. *)
Definition PAUSE_CHARS : string := String.append " .,!?;:" (String newline "").

(** The offset added to the base delay when [humanize] is set; [u] is the
    sample [random()] returns. *)
Definition jitter (char : ascii) (u : Q) : Q :=
  if char_in char PAUSE_CHARS then uniform 0.01 0.05 u
  else uniform (-0.008) 0.015 u.

(** Lines 94-101: the delay slept after [char]. *)
Definition keystroke_delay (e : t) (char : ascii) (u : Q) : Q :=
  let delay := base_delay e in
  if humanize e then py_max 0.003 (delay + jitter char u)%Q else delay.

(** What one call of [type_text] closes over. A callback is kept as the
    fact that it was given. *)
Record Session := mkSession {
  s_text : string;
  s_press_enter : bool;
  s_delay_before : Q;
  s_on_char : bool;
  s_on_done : bool;
}.

(** [type_text], the part that runs on the caller's thread: the flag is
    cleared, [is_typing] is set, and a thread is started for the session.
    [press_enter] and [delay_before] are optional arguments. *)
Definition type_text (e : t) (text : string) (press_enter : option bool)
    (delay_before : option Q) (on_char on_done : bool) : t * Session :=
  (set_is_typing true (set_stop_flag false e),
   mkSession text (default true press_enter) (default 0.3%Q delay_before)
             on_char on_done).

(** The engines the program can hold: [__init__], then the public methods
    and the worker's [finally] block in any order. No code assigns
    [base_delay] or [humanize] in another way. *)
Inductive configured : t -> Prop :=
| configured_init : configured init
| configured_set_speed preset_name e :
    configured e -> configured (set_speed preset_name e)
| configured_set_speed_value delay e :
    configured e -> configured (set_speed_value delay e)
| configured_type_text e text press_enter delay_before on_char on_done :
    configured e ->
    configured (fst (type_text e text press_enter delay_before on_char on_done))
| configured_stop e : configured e -> configured (stop e)
| configured_finally e : configured e -> configured (set_is_typing false e).

(** *** The worker thread *)

(** What the worker makes happen outside the program, in order. An event is
    recorded when the call returns. *)
Inductive event :=
| Sleep (d : Q)
| Press (k : Key)
| Release (k : Key)
| TypeChar (c : ascii)
| OnChar (i : nat) (c : ascii)
| OnDone.

(** Control points of [_worker]. The loop points carry the state of
    [enumerate(text)]: the index, the current character and the characters
    not yet reached. *)
Inductive pc :=
| PSleepBefore
| PCapsLock
| PCapsPress
| PCapsRelease
| PLoop (i : nat) (rest : string)
| PType (i : nat) (char : ascii) (rest : string)
| POnChar (i : nat) (char : ascii) (rest : string)
| PDelay (i : nat) (char : ascii) (rest : string)
| PEnterTest
| PEnterSleep
| PEnterPress
| PEnterRelease
| PFinally
| POnDone
| PExit.

(** The surroundings of one session. [raises p]: the external call made at
    [p] raises. [caps_lock_state]: the answer of [GetKeyState], [None] when
    the call itself fails (then [_is_caps_lock_on] returns [False]).
    [random i]: the sample drawn for the character of index [i]. *)
Record World := {
  raises : pc -> bool;
  caps_lock_state : option bool;
  random : nat -> Q;
}.

(** The thread that calls [stop()]. *)
Inductive caller_pc := CIdle | CStopSet | CReturned.

(** The engine, the worker and the caller of [stop()] together. [exc] is
    set when the worker left its [try] block by an exception. *)
Record state := mkState {
  eng : t;
  at_pc : pc;
  exc : bool;
  out : list event;
  caller : caller_pc;
}.

Definition goto (p : pc) (s : state) : state :=
  mkState (eng s) p (exc s) (out s) (caller s).
Definition emit (evs : list event) (s : state) : state :=
  mkState (eng s) (at_pc s) (exc s) (out s ++ evs) (caller s).
Definition with_eng (e : t) (s : state) : state :=
  mkState e (at_pc s) (exc s) (out s) (caller s).
Definition with_caller (c : caller_pc) (s : state) : state :=
  mkState (eng s) (at_pc s) (exc s) (out s) c.

(** An exception inside [try]: control goes to the [finally] block. *)
Definition raise (s : state) : state :=
  mkState (eng s) PFinally true (out s) (caller s).

(** An external call at [p] that records [evs] when it returns. *)
Definition call (w : World) (p : pc) (evs : list event) (next : pc)
    (s : state) : state :=
  if raises w p then raise s else goto next (emit evs s).

(** [time.sleep(d)]; a negative [d] raises [ValueError]. *)
Definition sleep (w : World) (p : pc) (d : Q) (next : pc) (s : state) : state :=
  if Qle_bool 0 d then call w p [Sleep d] next s else raise s.

(** One atomic step of [_worker]. The call of [on_done] is the last
    statement: the thread ends whether it returns or raises, and the call
    is recorded in both cases. *)
Definition step_worker (w : World) (ss : Session) (s : state) : state :=
  match at_pc s with
  | PSleepBefore => sleep w PSleepBefore (s_delay_before ss) PCapsLock s
  | PCapsLock =>
      match caps_lock_state w with
      | Some true => goto PCapsPress s
      | _ => goto (PLoop 0 (s_text ss)) s
      end
  | PCapsPress => call w PCapsPress [Press caps_lock] PCapsRelease s
  | PCapsRelease =>
      call w PCapsRelease [Release caps_lock] (PLoop 0 (s_text ss)) s
  | PLoop i rest =>
      match rest with
      | EmptyString => goto PEnterTest s
      | String char rest' =>
          if _stop (eng s) then goto PEnterTest s
          else goto (PType i char rest') s
      end
  | PType i char rest =>
      call w (PType i char rest) [TypeChar char] (POnChar i char rest) s
  | POnChar i char rest =>
      if s_on_char ss
      then call w (POnChar i char rest) [OnChar i char] (PDelay i char rest) s
      else goto (PDelay i char rest) s
  | PDelay i char rest =>
      sleep w (PDelay i char rest)
            (keystroke_delay (eng s) char (random w i)) (PLoop (S i) rest) s
  | PEnterTest =>
      if s_press_enter ss && negb (_stop (eng s))
      then goto PEnterSleep s else goto PFinally s
  | PEnterSleep => sleep w PEnterSleep 0.08%Q PEnterPress s
  | PEnterPress => call w PEnterPress [Press enter] PEnterRelease s
  | PEnterRelease => call w PEnterRelease [Release enter] PFinally s
  | PFinally => goto POnDone (with_eng (set_is_typing false (eng s)) s)
  | POnDone =>
      if s_on_done ss then goto PExit (emit [OnDone] s) else goto PExit s
  | PExit => s
  end.

(** One atomic step of a thread that calls [stop()] once and nothing else.
    Runs in which [stop()] is called again, or [type_text], [set_speed] or
    [set_speed_value] are called while the session is in flight, are runs
    of [run_open] below; a schedule of [Worker] and [Caller] steps is one
    of them. *)
Definition step_caller (s : state) : state :=
  match caller s with
  | CIdle => with_caller CStopSet (with_eng (stop_set (eng s)) s)
  | CStopSet => with_caller CReturned (with_eng (stop_clear_typing (eng s)) s)
  | CReturned => s
  end.

Inductive thread := Worker | Caller.

Definition step (w : World) (ss : Session) (s : state) (th : thread) : state :=
  match th with
  | Worker => step_worker w ss s
  | Caller => step_caller s
  end.

(** A schedule names the thread that takes each successive step. *)
Definition run (w : World) (ss : Session) (sched : list thread) (s : state)
  : state :=
  fold_left (step w ss) sched s.

(** The state in which [type_text] leaves the system: the thread has been
    started and has not run yet. *)
Definition spawn (es : t * Session) : state :=
  mkState (fst es) PSleepBefore false [] CIdle.

(** *** Reading a trace *)

Definition typed_chars (tr : list event) : list ascii :=
  omap (fun ev => match ev with TypeChar c => Some c | _ => None end) tr.

Definition is_enter (ev : event) : bool :=
  match ev with
  | Press enter | Release enter => true
  | _ => false
  end.

Definition is_done (ev : event) : bool :=
  match ev with OnDone => true | _ => false end.

(** The time slept between each character and the one before it:
    [acc] is [Some d] when a character was seen and [d] has been slept
    since. *)
Fixpoint gaps_from (acc : option Q) (tr : list event) : list Q :=
  match tr with
  | [] => []
  | Sleep d :: tr' => gaps_from (option_map (fun a => (a + d)%Q) acc) tr'
  | TypeChar _ :: tr' =>
      match acc with
      | Some a => a :: gaps_from (Some 0%Q) tr'
      | None => gaps_from (Some 0%Q) tr'
      end
  | _ :: tr' => gaps_from acc tr'
  end.

Definition gaps (tr : list event) : list Q := gaps_from None tr.

(** An upper bound on the steps the worker still takes. *)
Definition fuel (ss : Session) (p : pc) : nat :=
  match p with
  | PSleepBefore => 4 * String.length (s_text ss) + 11
  | PCapsLock => 4 * String.length (s_text ss) + 10
  | PCapsPress => 4 * String.length (s_text ss) + 9
  | PCapsRelease => 4 * String.length (s_text ss) + 8
  | PLoop _ rest => 4 * String.length rest + 7
  | PType _ _ rest => 4 * String.length rest + 10
  | POnChar _ _ rest => 4 * String.length rest + 9
  | PDelay _ _ rest => 4 * String.length rest + 8
  | PEnterTest => 6
  | PEnterSleep => 5
  | PEnterPress => 4
  | PEnterRelease => 3
  | PFinally => 2
  | POnDone => 1
  | PExit => 0
  end.

Definition count_chars (tr : list event) : nat := List.length (typed_chars tr).
Definition has_enter (tr : list event) : bool := existsb is_enter tr.
Definition count_done (tr : list event) : nat :=
  List.length (List.filter is_done tr).
Definition is_worker (th : thread) : bool :=
  match th with Worker => true | Caller => false end.
Definition worker_steps (sched : list thread) : nat :=
  List.length (List.filter is_worker sched).

(** The characters [enumerate(text)] has not handed to [controller.type]
    yet, counted. *)
Definition untyped (ss : Session) (p : pc) : nat :=
  match p with
  | PSleepBefore | PCapsLock | PCapsPress | PCapsRelease =>
      String.length (s_text ss)
  | PLoop _ rest => String.length rest
  | PType _ _ rest => S (String.length rest)
  | POnChar _ _ rest | PDelay _ _ rest => String.length rest
  | _ => 0
  end.

Definition in_try (p : pc) : bool :=
  match p with
  | PFinally | POnDone | PExit => false
  | _ => true
  end.

Definition pressing_enter (p : pc) : bool :=
  match p with
  | PEnterSleep | PEnterPress | PEnterRelease => true
  | _ => false
  end.

Definition about_to_type (p : pc) : bool :=
  match p with
  | PType _ _ _ => true
  | _ => false
  end.

(** *** The trace of a session that nothing disturbs *)

Definition caps_events (w : World) : list event :=
  match caps_lock_state w with
  | Some true => [Press caps_lock; Release caps_lock]
  | _ => []
  end.

Definition char_events (w : World) (ss : Session) (e : t) (i : nat)
    (char : ascii) : list event :=
  TypeChar char
  :: (if s_on_char ss then [OnChar i char] else [])
  ++ [Sleep (keystroke_delay e char (random w i))].

Fixpoint loop_events (w : World) (ss : Session) (e : t) (i : nat)
    (rest : string) : list event :=
  match rest with
  | EmptyString => []
  | String char rest' =>
      char_events w ss e i char ++ loop_events w ss e (S i) rest'
  end.

Definition body_events (w : World) (ss : Session) (e : t) : list event :=
  Sleep (s_delay_before ss) :: caps_events w ++ loop_events w ss e 0 (s_text ss).

Definition enter_events (ss : Session) : list event :=
  if s_press_enter ss then [Sleep 0.08%Q; Press enter; Release enter] else [].

Definition done_events (ss : Session) : list event :=
  if s_on_done ss then [OnDone] else [].

(** *** Two worlds for the examples *)

(** Nothing raises, Caps Lock is off, every sample is one half. *)
Definition quiet : World :=
  {| raises := fun _ => false;
     caps_lock_state := Some false;
     random := fun _ => 0.5%Q |}.

(** Injecting the character of index [i] fails. *)
Definition failing_at (i : nat) : World :=
  {| raises := fun p => match p with
                        | PType j _ _ => Nat.eqb i j
                        | _ => false
                        end;
     caps_lock_state := Some true;
     random := fun _ => 0.5%Q |}.

(** *** What holds along every run *)

(** [on_done] is called at the very end and not before; [is_typing] is
    false from the [finally] block on. *)
Definition done_inv (ss : Session) (s : state) : Prop :=
  match at_pc s with
  | PExit =>
      is_typing (eng s) = false
      ∧ ∃ tr, out s = tr ++ done_events ss ∧ count_done tr = 0
  | POnDone => is_typing (eng s) = false ∧ count_done (out s) = 0
  | _ => count_done (out s) = 0
  end.

(** While nobody has called [stop()]: the typed characters and the ones
    still to come make up the text, and Enter is only pressed after all of
    them. *)
Definition before_stop (ss : Session) (s : state) : Prop :=
  _stop (eng s) = false
  ∧ caller s = CIdle
  ∧ (in_try (at_pc s) = true →
     count_chars (out s) + untyped ss (at_pc s) = String.length (s_text ss))
  ∧ (has_enter (out s) = true ∨ pressing_enter (at_pc s) = true →
     count_chars (out s) = String.length (s_text ss)).

(** After the flag was set with [n] characters typed: at most one more
    character, the one whose test had passed, and no Enter. *)
Definition after_stop (n : nat) (s : state) : Prop :=
  _stop (eng s) = true
  ∧ has_enter (out s) = false
  ∧ pressing_enter (at_pc s) = false
  ∧ n ≤ count_chars (out s) ≤ S n
  ∧ (about_to_type (at_pc s) = true → count_chars (out s) = n).

(** *** More ways to read a trace, and more that holds along every run *)

(** The calls of [on_char], as (index, character). *)
Definition on_char_calls (tr : list event) : list (nat * ascii) :=
  omap (fun ev => match ev with OnChar i c => Some (i, c) | _ => None end) tr.

(** The presses and releases of Enter, in order. *)
Definition enter_trace (tr : list event) : list event := List.filter is_enter tr.

Definition is_caps (ev : event) : bool :=
  match ev with
  | Press caps_lock | Release caps_lock => true
  | _ => false
  end.

(** The seconds slept in all. *)
Definition slept (tr : list event) : Q :=
  fold_right (fun ev acc => match ev with Sleep d => (d + acc)%Q | _ => acc end)
             0%Q tr.

(** The loop walks the text: the index it carries is the number of
    characters typed, the characters typed and the ones to come make up the
    text, and [on_char] is told the place of each character. *)
Definition position_inv (ss : Session) (s : state) : Prop :=
  let typed := typed_chars (out s) in
  let txt := list_ascii_of_string (s_text ss) in
  Forall (fun ic => txt !! fst ic = Some (snd ic)) (on_char_calls (out s))
  ∧ match at_pc s with
    | PSleepBefore | PCapsLock | PCapsPress | PCapsRelease => typed = []
    | PLoop i rest =>
        i = List.length typed ∧ typed ++ list_ascii_of_string rest = txt
    | PType i c rest =>
        i = List.length typed ∧ typed ++ c :: list_ascii_of_string rest = txt
    | POnChar i c rest | PDelay i c rest =>
        S i = List.length typed ∧ txt !! i = Some c
        ∧ typed ++ list_ascii_of_string rest = txt
    | _ => typed `prefix_of` txt
    end.

(** Enter is pressed from the three points after the test only, and the
    test lets the worker through only with [press_enter] set, the flag
    clear and the loop run to its end. *)
Definition enter_inv (ss : Session) (s : state) : Prop :=
  let all_typed := count_chars (out s) = String.length (s_text ss) in
  match at_pc s with
  | PEnterTest =>
      enter_trace (out s) = [] ∧ (_stop (eng s) = true ∨ all_typed)
  | PEnterSleep | PEnterPress =>
      enter_trace (out s) = [] ∧ all_typed ∧ s_press_enter ss = true
  | PEnterRelease =>
      enter_trace (out s) = [Press enter] ∧ all_typed ∧ s_press_enter ss = true
  | PFinally | POnDone | PExit =>
      enter_trace (out s) = []
      ∨ ((enter_trace (out s) = [Press enter]
          ∨ enter_trace (out s) = [Press enter; Release enter])
         ∧ all_typed ∧ s_press_enter ss = true)
  | p =>
      enter_trace (out s) = []
      ∧ count_chars (out s) + untyped ss p = String.length (s_text ss)
  end.

(** After the flag was set with [n] characters typed and the worker not
    between the test and the keystroke: no further character. *)
Definition after_stop_exact (n : nat) (s : state) : Prop :=
  _stop (eng s) = true
  ∧ count_chars (out s) = n
  ∧ about_to_type (at_pc s) = false.

(** *** Other calls while a session is in flight *)

(** The engine is one object with one flag: while the worker of a session
    runs, any thread may call [stop()], [set_speed], [set_speed_value] and
    also [type_text], whose first statement clears the flag that [stop()]
    set. A move is a step of the worker or one assignment of such a call.
    The worker that a later [type_text] starts is not followed: it reads
    the same flag, and all it writes is [is_typing = False] in its
    [finally] block, which is the move [StopClearTyping]; what it types is
    no event of this session. *)
Inductive move :=
| Work
| StopSet
| StopClearTyping
| TypeTextClear
| TypeTextTyping
| SetSpeed (preset_name : string)
| SetSpeedValue (delay : Q).

Definition step_open (w : World) (ss : Session) (s : state) (m : move)
  : state :=
  match m with
  | Work => step_worker w ss s
  | StopSet => with_eng (stop_set (eng s)) s
  | StopClearTyping => with_eng (stop_clear_typing (eng s)) s
  | TypeTextClear => with_eng (set_stop_flag false (eng s)) s
  | TypeTextTyping => with_eng (set_is_typing true (eng s)) s
  | SetSpeed preset_name => with_eng (set_speed preset_name (eng s)) s
  | SetSpeedValue delay => with_eng (set_speed_value delay (eng s)) s
  end.

Definition run_open (w : World) (ss : Session) (ms : list move) (s : state)
  : state :=
  fold_left (step_open w ss) ms s.

Definition is_work (m : move) : bool :=
  match m with Work => true | _ => false end.
Definition sets_flag (m : move) : bool :=
  match m with StopSet => true | _ => false end.
Definition clears_flag (m : move) : bool :=
  match m with TypeTextClear => true | _ => false end.
Definition sets_typing (m : move) : bool :=
  match m with TypeTextTyping => true | _ => false end.
Definition work_steps (ms : list move) : nat :=
  List.length (List.filter is_work ms).

(** The moves of a schedule of the worker and one caller of [stop()] that
    stands at [c]. *)
Fixpoint moves_of (c : caller_pc) (sched : list thread) : list move :=
  match sched with
  | [] => []
  | Worker :: sched' => Work :: moves_of c sched'
  | Caller :: sched' =>
      match c with
      | CIdle => StopSet :: moves_of CStopSet sched'
      | CStopSet => StopClearTyping :: moves_of CReturned sched'
      | CReturned => moves_of CReturned sched'
      end
  end.

(** Enter is pressed from the three points after the test only, once, and
    only with [press_enter] set; this holds whatever is called meanwhile. *)
Definition enter_shape (ss : Session) (s : state) : Prop :=
  match at_pc s with
  | PEnterSleep | PEnterPress =>
      enter_trace (out s) = [] ∧ s_press_enter ss = true
  | PEnterRelease =>
      enter_trace (out s) = [Press enter] ∧ s_press_enter ss = true
  | PFinally | POnDone | PExit =>
      enter_trace (out s) = []
      ∨ ((enter_trace (out s) = [Press enter]
          ∨ enter_trace (out s) = [Press enter; Release enter])
         ∧ s_press_enter ss = true)
  | _ => enter_trace (out s) = []
  end.

(** A world in which injecting the character of index [j] fails and no
    other call does. *)
Definition fails_only_at (j : nat) (w : World) : Prop :=
  ∀ p, raises w p = match p with
                    | PType i _ _ => Nat.eqb i j
                    | _ => false
                    end.

End TyperEngine.

(** ** src/app.py: the demo runner *)
Module App.
Import Keyboard.

(** What [self.after(ms, f)] queues for the Tk main loop. *)
Inductive callback := cb_type_next_step | cb_on_step_typed.

(** The fields of [DemoScripterApp] the runner reads and writes; [threads]
    lists the sessions for which [type_text] started a thread, oldest
    first. Widgets are left out: [_update_runner_state] only redraws. *)
Record t := mk {
  selected_script : option Models.Script;
  demo_running : bool;
  demo_step_idx : nat;
  _hotkey_key : Key;
  typer : TyperEngine.t;
  after_queue : list (nat * callback);
  threads : list TyperEngine.Session;
}.

Definition schedule (ms : nat) (cb : callback) (a : t) : t :=
  mk (selected_script a) (demo_running a) (demo_step_idx a) (_hotkey_key a)
     (typer a) (after_queue a ++ [(ms, cb)]) (threads a).

Definition _on_global_key (key : Key) (a : t) : t :=
  if bool_decide (key = _hotkey_key a) && demo_running a
     && negb (TyperEngine.is_typing (typer a))
  then schedule 10 cb_type_next_step a
  else a.

Definition _type_next_step (a : t) : t :=
  match selected_script a with
  | None => a
  | Some script =>
      if negb (demo_running a) then a
      else
        let steps := Models.steps script in
        if bool_decide (List.length steps ≤ demo_step_idx a)%nat then a
        else
          match steps !! demo_step_idx a with
          | None => a
          | Some step =>
              let '(e, ss) :=
                TyperEngine.type_text (typer a) (Models.text step)
                  (Some (Models.press_enter step))
                  (Some (Models.delay_before step)) false true in
              mk (selected_script a) (demo_running a) (S (demo_step_idx a))
                 (_hotkey_key a) e (after_queue a) (threads a ++ [ss])
          end
  end.

Definition _on_step_typed (a : t) : t := a.

Definition _start_demo (a : t) : t :=
  match selected_script a with
  | None => a
  | Some script =>
      match Models.steps script with
      | [] => a
      | _ => mk (selected_script a) true 0 (_hotkey_key a) (typer a)
                (after_queue a) (threads a)
      end
  end.

Definition _stop_demo (a : t) : t :=
  mk (selected_script a) false 0 (_hotkey_key a)
     (TyperEngine.stop (typer a)) (after_queue a) (threads a).

(** The main loop takes the oldest queued callback and runs it. *)
Definition mainloop_step (a : t) : t :=
  match after_queue a with
  | [] => a
  | (_, cb) :: q =>
      let a' := mk (selected_script a) (demo_running a) (demo_step_idx a)
                   (_hotkey_key a) (typer a) q (threads a) in
      match cb with
      | cb_type_next_step => _type_next_step a'
      | cb_on_step_typed => _on_step_typed a'
      end
  end.

(** The labels of the hotkey menu and their keys. *)
Definition key_map : gmap string Key :=
  {[ "F1" := f1; "F2" := f2; "F3" := f3; "F4" := f4; "F5" := f5;
     "F6" := f6; "F7" := f7; "F8" := f8; "F9" := f9; "F10" := f10 ]}.

(** [_on_hotkey_change]; the label is only shown, and the listener that is
    restarted calls the same [_on_global_key]. *)
Definition _on_hotkey_change (value : string) (a : t) : t :=
  mk (selected_script a) (demo_running a) (demo_step_idx a)
     (default f2 (key_map !! value)) (typer a) (after_queue a) (threads a).

Definition _on_speed_change (value : string) (a : t) : t :=
  mk (selected_script a) (demo_running a) (demo_step_idx a) (_hotkey_key a)
     (TyperEngine.set_speed value (typer a)) (after_queue a) (threads a).

Definition _toggle_demo (a : t) : t :=
  if demo_running a then _stop_demo a else _start_demo a.

(** What the end of a worker does to the application: the [finally] block
    clears [is_typing], and the [on_done] given by [_type_next_step] queues
    [_on_step_typed] with [self.after(0, ...)]. *)
Definition session_done (a : t) : t :=
  schedule 0 cb_on_step_typed
    (mk (selected_script a) (demo_running a) (demo_step_idx a) (_hotkey_key a)
        (TyperEngine.set_is_typing false (typer a)) (after_queue a) (threads a)).

(** The session [_type_next_step] starts for a step. *)
Definition session_of (step : Models.Step) : TyperEngine.Session :=
  TyperEngine.mkSession (Models.text step) (Models.press_enter step)
    (Models.delay_before step) false true.

(** A scenario: the trigger key is pressed, the main loop runs the callback,
    and, if a session was started, the session runs to its end and the main
    loop runs the callback of its [on_done]. *)
Definition press_and_wait (a : t) : t :=
  let a1 := mainloop_step (_on_global_key (_hotkey_key a) a) in
  if TyperEngine.is_typing (typer a1)
  then mainloop_step (session_done a1)
  else a1.

End App.

(** ** src/storage.py *)
Module Storage.
Import Models.

(** What [json.load] returns and [json.dump] accepts. A [dict] has string
    keys. *)
Inductive json :=
| JNull
| JBool (b : bool)
| JNum (q : Q)
| JStr (s : string)
| JList (l : list json)
| JObj (m : gmap string json).

Inductive exn :=
| JSONDecodeError | UnicodeDecodeError | KeyError | TypeError | AttributeError.

(** The outcome of a computation. The dataclasses do not check the type of
    what they are given: a field value whose JSON type is not the annotated
    one would be stored as it is. The records of [Models] are typed and
    cannot hold it; the model stops there with [IllTyped], which is no
    exception of the program. *)
Inductive result (A : Type) :=
| Ok (a : A)
| Raise (e : exn)
| IllTyped.
Arguments Ok {A} a.
Arguments Raise {A} e.
Arguments IllTyped {A}.

Definition bind {A B} (r : result A) (f : A -> result B) : result B :=
  match r with
  | Ok a => f a
  | Raise e => Raise e
  | IllTyped => IllTyped
  end.

(** A list comprehension, or a [for] loop, whose body may raise. *)
Fixpoint mapM {A B} (f : A -> result B) (l : list A) : result (list B) :=
  match l with
  | [] => Ok []
  | x :: l' => bind (f x) (fun y => bind (mapM f l') (fun ys => Ok (y :: ys)))
  end.

(** The same, with the count of drawn uuids threaded through. *)
Fixpoint mapM_st {A B} (f : A -> nat -> result B * nat) (l : list A)
    (drawn : nat) : result (list B) * nat :=
  match l with
  | [] => (Ok [], drawn)
  | x :: l' =>
      match f x drawn with
      | (Ok y, drawn') =>
          match mapM_st f l' drawn' with
          | (Ok ys, drawn'') => (Ok (y :: ys), drawn'')
          | (Raise e, drawn'') => (Raise e, drawn'')
          | (IllTyped, drawn'') => (IllTyped, drawn'')
          end
      | (Raise e, drawn') => (Raise e, drawn')
      | (IllTyped, drawn') => (IllTyped, drawn')
      end
  end.

Definition as_str (v : json) : result string :=
  match v with JStr s => Ok s | _ => IllTyped end.
Definition as_bool (v : json) : result bool :=
  match v with JBool b => Ok b | _ => IllTyped end.
Definition as_num (v : json) : result Q :=
  match v with JNum q => Ok q | _ => IllTyped end.

(** An optional keyword argument. *)
Definition kwarg {A} (conv : json -> result A) (o : option json)
  : result (option A) :=
  match o with
  | None => Ok None
  | Some v => bind (conv v) (fun a => Ok (Some a))
  end.

(** [for x in v]: the elements of a list, the keys of a dict, the
    characters of a string; anything else is not iterable. *)
Definition iterate (v : json) : result (list json) :=
  match v with
  | JList l => Ok l
  | JObj m => Ok (JStr <$> (map_to_list m).*1)
  | JStr s => Ok ((fun c => JStr (String c "")) <$> list_ascii_of_string s)
  | _ => Raise TypeError
  end.

(** [s.pop("role", None)]: a dict loses the key, a list rejects the second
    argument, the other values have no [pop]. *)
Definition pop_role (s : json) : result json :=
  match s with
  | JObj m => Ok (JObj (delete "role" m))
  | JList _ => Raise TypeError
  | _ => Raise AttributeError
  end.

(** The keyword arguments [Step] accepts. *)
Definition STEP_FIELDS : gset string :=
  {[ "id"; "text"; "press_enter"; "delay_before" ]}.

(** [Step] called with the entries of [s] as keyword arguments: a key
    that is no field raises [TypeError] before any
    default is computed. *)
Definition Step_kwargs (uuid4 : nat -> string) (s : json) (drawn : nat)
  : result Step * nat :=
  match s with
  | JObj kw =>
      if bool_decide (dom kw ⊆ STEP_FIELDS) then
        match kwarg as_str (kw !! "id"), kwarg as_str (kw !! "text"),
              kwarg as_bool (kw !! "press_enter"),
              kwarg as_num (kw !! "delay_before") with
        | Ok i, Ok tx, Ok pe, Ok db =>
            let '(st, drawn') := Step_init uuid4 i tx pe db drawn in
            (Ok st, drawn')
        | _, _, _, _ => (IllTyped, drawn)
        end
      else (Raise TypeError, drawn)
  | _ => (Raise TypeError, drawn)
  end.

(** [d[key]] *)
Definition getitem (m : gmap string json) (key : string) : result json :=
  match m !! key with
  | Some v => Ok v
  | None => Raise KeyError
  end.

(** [d.get(key, default)] for a string field. *)
Definition get_str (m : gmap string json) (key : string) (dflt : string)
  : result string :=
  match m !! key with
  | Some v => as_str v
  | None => Ok dflt
  end.

Definition _dict_to_script (uuid4 : nat -> string) (d : json) (drawn : nat)
  : result Script * nat :=
  match d with
  | JObj m =>
      let raw_steps := default (JList []) (m !! "steps") in
      match bind (iterate raw_steps) (mapM pop_role) with
      | Ok stripped =>
          match mapM_st (Step_kwargs uuid4) stripped drawn with
          | (Ok steps, drawn') =>
              (bind (getitem m "id") (fun i =>
               bind (getitem m "name") (fun nm =>
               bind (get_str m "description" "") (fun de =>
               bind (get_str m "created_at" "") (fun cr =>
               bind (get_str m "updated_at" "") (fun up =>
               bind (as_str i) (fun i' =>
               bind (as_str nm) (fun nm' =>
               Ok (mkScript i' nm' de steps cr up)))))))),
               drawn')
          | (Raise e, drawn') => (Raise e, drawn')
          | (IllTyped, drawn') => (IllTyped, drawn')
          end
      | Raise e => (Raise e, drawn)
      | IllTyped => (IllTyped, drawn)
      end
  | _ => (Raise AttributeError, drawn)
  end.

(** The dict literals of [_script_to_dict]. *)
Definition step_fields (st : Step) : gmap string json :=
  <["id" := JStr (step_id st)]>
  (<["text" := JStr (text st)]>
  (<["press_enter" := JBool (press_enter st)]>
  (<["delay_before" := JNum (delay_before st)]> ∅))).

Definition script_fields (steps_json : list json) (s : Script)
  : gmap string json :=
  <["id" := JStr (script_id s)]>
  (<["name" := JStr (name s)]>
  (<["description" := JStr (description s)]>
  (<["steps" := JList steps_json]>
  (<["created_at" := JStr (created_at s)]>
  (<["updated_at" := JStr (updated_at s)]> ∅))))).

Definition _script_to_dict (s : Script) : json :=
  JObj (script_fields ((fun st => JObj (step_fields st)) <$> steps s) s).

(** A file is kept as what [open(..., encoding="utf-8")] followed by
    [json.load] makes of its bytes: bytes that are no UTF-8 text, text that
    is no JSON document, or the document. [json.dump] writes a file that
    [json.load] reads back as the dumped document. *)
Inductive file :=
| Undecodable
| NotJson
| Json (doc : json).

Definition json_load (f : file) : result json :=
  match f with
  | Undecodable => Raise UnicodeDecodeError
  | NotJson => Raise JSONDecodeError
  | Json doc => Ok doc
  end.

(** The surroundings of the storage: the files by path and the count of
    uuids drawn. *)
Record Env := mkEnv {
  files : gmap string file;
  drawn : nat;
}.

Record t := mk { filepath : string }.

(** [except (json.JSONDecodeError, KeyError): return []] *)
Definition handle (r : result (list Script)) : result (list Script) :=
  match r with
  | Raise JSONDecodeError | Raise KeyError => Ok []
  | _ => r
  end.

Definition load (uuid4 : nat -> string) (st : t) (env : Env)
  : result (list Script) * Env :=
  match files env !! filepath st with
  | None => (Ok [], env)
  | Some f =>
      match bind (json_load f) iterate with
      | Ok data =>
          let '(r, drawn') := mapM_st (_dict_to_script uuid4) data (drawn env) in
          (handle r, mkEnv (files env) drawn')
      | r => (handle (bind r (fun _ => Ok [])), env)
      end
  end.

Definition save (st : t) (scripts : list Script) (env : Env) : Env :=
  mkEnv (<[filepath st := Json (JList (_script_to_dict <$> scripts))]> (files env))
        (drawn env).

(** *** Documents of other shapes *)

(** A script record as an older version of the program wrote it: the step
    [st] carries a [role] entry when [role st] gives its value. *)
Definition legacy_step_fields (role : Step -> option json) (st : Step)
  : gmap string json :=
  match role st with
  | Some r => <["role" := r]> (step_fields st)
  | None => step_fields st
  end.

Definition legacy_script_to_dict (role : Step -> option json) (s : Script)
  : json :=
  JObj (script_fields ((fun st => JObj (legacy_step_fields role st)) <$> steps s) s).

(** An entry that is absent or holds a value of the type [conv] reads. *)
Definition typed_or_absent {A} (conv : json -> result A) (o : option json)
  : bool :=
  match kwarg conv o with Ok _ => true | _ => false end.

(** A step record: an object whose keys, [role] apart, are fields of
    [Step], with values of the annotated types. *)
Definition step_record_ok (s : json) : bool :=
  match s with
  | JObj kw =>
      bool_decide (dom (delete "role" kw) ⊆ STEP_FIELDS)
      && typed_or_absent as_str (kw !! "id")
      && typed_or_absent as_str (kw !! "text")
      && typed_or_absent as_bool (kw !! "press_enter")
      && typed_or_absent as_num (kw !! "delay_before")
  | _ => false
  end.

(** A script record: an object whose [steps], when present, is a list of
    step records, and whose string fields, when present, hold strings. *)
Definition script_record_ok (d : json) : bool :=
  match d with
  | JObj m =>
      match m !! "steps" with
      | None => true
      | Some (JList ss) => forallb step_record_ok ss
      | Some _ => false
      end
      && typed_or_absent as_str (m !! "id")
      && typed_or_absent as_str (m !! "name")
      && typed_or_absent as_str (m !! "description")
      && typed_or_absent as_str (m !! "created_at")
      && typed_or_absent as_str (m !! "updated_at")
  | _ => false
  end.

(** A record that lacks [id] or [name], the keys read with [d[...]]. *)
Definition missing_required_key (d : json) : bool :=
  match d with
  | JObj m =>
      match m !! "id", m !! "name" with
      | Some _, Some _ => false
      | _, _ => true
      end
  | _ => false
  end.

(** Malformed contents, as the specification lists them: bytes that do not
    parse as JSON, or a document with a record that lacks a required
    key. *)
Definition malformed (f : file) : bool :=
  match f with
  | Undecodable | NotJson => true
  | Json (JList l) => existsb missing_required_key l
  | Json _ => false
  end.

End Storage.

(** ** src/app.py: the editor *)
Module Editor.
Import Models.

(** The fields of [DemoScripterApp] the editor reads and writes. The
    scripts are objects that the application mutates in place, and
    [self.selected_script] refers to one of the objects of [self.scripts]:
    it is kept as the position of that object in the list. Indices are
    Python integers. Widgets are left out; what a callback reads from a
    widget or a dialog is an argument of the callback, and the time
    [touch] reads is the argument [now]. *)
Record t := mk {
  scripts : list Script;
  selected_script : option nat;
  selected_step_idx : option Z;
  demo_running : bool;
  demo_step_idx : Z;
}.

(** How a callback ends: it returns, or an [IndexError] or an
    [AttributeError] leaves it, or, [OutOfModel], it goes on with a value
    the typed records cannot hold (see [Storage.IllTyped]): the program
    does go on there, and the model says nothing of what it does. *)
Inductive outcome :=
| Done (a : t) (env : Storage.Env)
| IndexError
| AttributeError
| OutOfModel.

(** *** Lists indexed the Python way *)

(** The position [l[i]] names: a negative [i] counts from the end, and an
    [i] outside [-len(l) .. len(l) - 1] raises [IndexError]. *)
Definition py_index {A} (l : list A) (i : Z) : option nat :=
  let n := Z.of_nat (List.length l) in
  if (0 <=? i)%Z && (i <? n)%Z then Some (Z.to_nat i)
  else if (i <? 0)%Z && (- n <=? i)%Z then Some (Z.to_nat (n + i))
  else None.

Definition py_getitem {A} (l : list A) (i : Z) : option A :=
  match py_index l i with
  | Some k => l !! k
  | None => None
  end.

Definition py_setitem {A} (l : list A) (i : Z) (x : A) : option (list A) :=
  match py_index l i with
  | Some k => Some (<[k := x]> l)
  | None => None
  end.

Definition py_delitem {A} (l : list A) (i : Z) : option (list A) :=
  match py_index l i with
  | Some k => Some (delete k l)
  | None => None
  end.

(** [l.insert(i, x)]: the index is clamped to [0 .. len(l)]. *)
Definition py_insert {A} (l : list A) (i : Z) (x : A) : list A :=
  let n := Z.of_nat (List.length l) in
  let k := if (i <? 0)%Z then Z.to_nat (Z.max 0 (n + i)) else Z.to_nat i in
  take k l ++ x :: drop k l.

(** *** Assignments to one field *)

Definition set_steps (sts : list Step) (s : Script) : Script :=
  mkScript (script_id s) (name s) (description s) sts (created_at s) (updated_at s).
Definition set_name (v : string) (s : Script) : Script :=
  mkScript (script_id s) v (description s) (steps s) (created_at s) (updated_at s).
Definition set_description (v : string) (s : Script) : Script :=
  mkScript (script_id s) (name s) v (steps s) (created_at s) (updated_at s).
Definition set_script_id (v : string) (s : Script) : Script :=
  mkScript v (name s) (description s) (steps s) (created_at s) (updated_at s).
Definition set_text (v : string) (st : Step) : Step :=
  mkStep (step_id st) v (press_enter st) (delay_before st).
Definition set_press_enter (v : bool) (st : Step) : Step :=
  mkStep (step_id st) (text st) v (delay_before st).
Definition set_delay_before (v : Q) (st : Step) : Step :=
  mkStep (step_id st) (text st) (press_enter st) v.

Definition with_scripts (l : list Script) (a : t) : t :=
  mk l (selected_script a) (selected_step_idx a) (demo_running a) (demo_step_idx a).
Definition with_step_idx (i : option Z) (a : t) : t :=
  mk (scripts a) (selected_script a) i (demo_running a) (demo_step_idx a).
Definition with_demo_step_idx (i : Z) (a : t) : t :=
  mk (scripts a) (selected_script a) (selected_step_idx a) (demo_running a) i.

(** The object [self.selected_script] refers to. *)
Definition selected (a : t) : option Script :=
  match selected_script a with
  | Some i => scripts a !! i
  | None => None
  end.

(** An assignment through [self.selected_script]: the object in the list
    changes. *)
Definition update_selected (f : Script -> Script) (a : t) : t :=
  match selected_script a with
  | Some i => with_scripts (alter f i (scripts a)) a
  | None => a
  end.

Section Callbacks.
Variables (uuid4 : nat -> string) (st : Storage.t).

Definition _save (a : t) (env : Storage.Env) : Storage.Env :=
  Storage.save st (scripts a) env.

Definition draw (env : Storage.Env) : Storage.Env :=
  Storage.mkEnv (Storage.files env) (S (Storage.drawn env)).

(** [_select_script], called with the object at position [i]. *)
Definition _select_script (i : nat) (a : t) : t :=
  mk (scripts a) (Some i) None (demo_running a) (demo_step_idx a).

(** [_new_script]; [Script(name=...)] draws a uuid and reads the clock
    twice. *)
Definition _new_script (now_created now_updated : string) (a : t)
    (env : Storage.Env) : outcome :=
  let script :=
    mkScript (uuid4 (Storage.drawn env))
      (String.append "Demo Script " (pretty (S (List.length (scripts a)))))
      "" [] now_created now_updated in
  let a' := _select_script (List.length (scripts a))
              (with_scripts (scripts a ++ [script]) a) in
  Done a' (_save a' (draw env)).

(** [_delete_script]; [confirmed] is the answer of the dialog. *)
Definition _delete_script (confirmed : bool) (a : t) (env : Storage.Env)
  : outcome :=
  match selected a with
  | None => Done a env
  | Some sel =>
      if negb confirmed then Done a env
      else
        let a' := mk (filter (fun s => script_id s ≠ script_id sel) (scripts a))
                     None None (demo_running a) (demo_step_idx a) in
        Done a' (_save a' env)
  end.

Definition _select_step (idx : Z) (a : t) : t :=
  match selected a with
  | None => a
  | Some script =>
      if (idx <? 0)%Z || (Z.of_nat (List.length (steps script)) <=? idx)%Z
      then a
      else with_step_idx (Some idx) a
  end.

(** What [_update_runner_state] reads of the lists: while the demo runs
    and [demo_step_idx] is below the number of steps, [script.steps[idx]],
    where [script] is [None] when no script is selected. The rest of it
    configures widgets. *)
Definition _update_runner_state (a : t) (env : Storage.Env) : outcome :=
  if negb (demo_running a) then Done a env
  else
    let idx := demo_step_idx a in
    match selected a with
    | None => if (0 <=? idx)%Z then Done a env else AttributeError
    | Some script =>
        if (Z.of_nat (List.length (steps script)) <=? idx)%Z then Done a env
        else
          match py_getitem (steps script) idx with
          | Some _ => Done a env
          | None => IndexError
          end
    end.

Definition _on_step_click (idx : Z) (a : t) (env : Storage.Env) : outcome :=
  let a' := _select_step idx a in
  if demo_running a' then _update_runner_state (with_demo_step_idx idx a') env
  else Done a' env.

Definition _add_step (now : string) (a : t) (env : Storage.Env) : outcome :=
  match selected a with
  | None => Done a env
  | Some script =>
      let '(step, drawn') :=
        Step_init uuid4 None None None None (Storage.drawn env) in
      let a1 := update_selected
                  (fun s => touch now (set_steps (steps s ++ [step]) s)) a in
      let a2 := _select_step (Z.of_nat (List.length (steps script ++ [step])) - 1) a1 in
      Done a2 (_save a2 (Storage.mkEnv (Storage.files env) drawn'))
  end.

Definition _duplicate_step (now : string) (a : t) (env : Storage.Env)
  : outcome :=
  match selected a, selected_step_idx a with
  | Some script, Some idx =>
      match py_getitem (steps script) idx with
      | None => IndexError
      | Some src =>
          let '(new, drawn') :=
            Step_init uuid4 None (Some (text src)) (Some (press_enter src))
              (Some (delay_before src)) (Storage.drawn env) in
          let insert_at := (idx + 1)%Z in
          let a1 := update_selected
                      (fun s => touch now
                                  (set_steps (py_insert (steps s) insert_at new) s))
                      a in
          let a2 := _select_step insert_at a1 in
          Done a2 (_save a2 (Storage.mkEnv (Storage.files env) drawn'))
      end
  | _, _ => Done a env
  end.

Definition _delete_step (now : string) (a : t) (env : Storage.Env) : outcome :=
  match selected a, selected_step_idx a with
  | Some script, Some idx =>
      match py_delitem (steps script) idx with
      | None => IndexError
      | Some sts =>
          let a1 := update_selected (fun s => touch now (set_steps sts s)) a in
          let a2 := with_step_idx None a1 in
          Done a2 (_save a2 env)
      end
  | _, _ => Done a env
  end.

(** [steps[i], steps[j] = steps[j], steps[i]]: both are read, then
    [steps[i]] and [steps[j]] are assigned in this order. *)
Definition swap_items {A} (l : list A) (i j : Z) : option (list A) :=
  match py_getitem l j, py_getitem l i with
  | Some xj, Some xi =>
      match py_setitem l i xj with
      | Some l1 => py_setitem l1 j xi
      | None => None
      end
  | _, _ => None
  end.

Definition _move_step_up (now : string) (a : t) (env : Storage.Env) : outcome :=
  match selected a, selected_step_idx a with
  | Some script, Some idx =>
      if (idx =? 0)%Z then Done a env
      else
        match swap_items (steps script) (idx - 1) idx with
        | None => IndexError
        | Some sts =>
            let a1 := update_selected (fun s => touch now (set_steps sts s))
                        (with_step_idx (Some (idx - 1)%Z) a) in
            Done a1 (_save a1 env)
        end
  | _, _ => Done a env
  end.

Definition _move_step_down (now : string) (a : t) (env : Storage.Env)
  : outcome :=
  match selected a, selected_step_idx a with
  | Some script, Some idx =>
      if (Z.of_nat (List.length (steps script)) - 1 <=? idx)%Z then Done a env
      else
        match swap_items (steps script) idx (idx + 1) with
        | None => IndexError
        | Some sts =>
            let a1 := update_selected (fun s => touch now (set_steps sts s))
                        (with_step_idx (Some (idx + 1)%Z) a) in
            Done a1 (_save a1 env)
        end
  | _, _ => Done a env
  end.

Definition _current_step (a : t) : option Step :=
  match selected a, selected_step_idx a with
  | Some script, Some idx =>
      if (0 <=? idx)%Z && (idx <? Z.of_nat (List.length (steps script)))%Z
      then py_getitem (steps script) idx
      else None
  | _, _ => None
  end.

(** An assignment to a field of the step [_current_step] returned. *)
Definition update_current_step (f : Step -> Step) (a : t) : t :=
  match selected_step_idx a with
  | Some idx =>
      update_selected (fun s => set_steps (alter f (Z.to_nat idx) (steps s)) s) a
  | None => a
  end.

Definition _on_step_text_change (value now : string) (a : t)
    (env : Storage.Env) : outcome :=
  match _current_step a with
  | Some _ =>
      let a' := update_selected (touch now)
                  (update_current_step (set_text value) a) in
      Done a' (_save a' env)
  | None => Done a env
  end.

Definition _on_enter_toggle (value : bool) (a : t) (env : Storage.Env)
  : outcome :=
  match _current_step a with
  | Some _ =>
      let a' := update_current_step (set_press_enter value) a in
      Done a' (_save a' env)
  | None => Done a env
  end.

(** [_on_delay_change]; [parsed] is what [float] makes of the entry,
    [None] when it raises [ValueError]. *)
Definition _on_delay_change (parsed : option Q) (a : t) (env : Storage.Env)
  : outcome :=
  match _current_step a with
  | Some _ =>
      let a' := match parsed with
                | Some d => update_current_step (set_delay_before d) a
                | None => a
                end in
      Done a' (_save a' env)
  | None => Done a env
  end.

Definition _on_name_change (value now : string) (a : t) (env : Storage.Env)
  : outcome :=
  match selected a with
  | Some _ =>
      let a' := update_selected (fun s => touch now (set_name value s)) a in
      Done a' (_save a' env)
  | None => Done a env
  end.

Definition _on_desc_change (value now : string) (a : t) (env : Storage.Env)
  : outcome :=
  match selected a with
  | Some _ =>
      let a' := update_selected (fun s => touch now (set_description value s)) a in
      Done a' (_save a' env)
  | None => Done a env
  end.

(** [_export_script]; [path] is the answer of the file dialog, empty when
    the dialog was cancelled. *)
Definition _export_script (path : string) (a : t) (env : Storage.Env)
  : outcome :=
  match selected a with
  | None => Done a env
  | Some script =>
      if bool_decide (path = "") then Done a env
      else Done a (Storage.mkEnv
                     (<[path := Storage.Json (Storage._script_to_dict script)]>
                        (Storage.files env))
                     (Storage.drawn env))
  end.

(** [_import_script]; every exception is caught and shown in a dialog. A
    file that does not exist makes [open] raise. Where a field of the file
    holds a value of another JSON type than the dataclass declares,
    [_dict_to_script] returns a script with that value in it; the code
    appends it to [self.scripts] and selects it, and when the text of a
    step is no string, [Step.preview] raises [AttributeError] while the
    step list is redrawn, the handler swallows it, and the callback returns
    without having called [_save]. A list of typed scripts cannot hold
    such a script: the outcome is [OutOfModel], and every property of the
    editor says so where it leaves this import out. *)
Definition _import_script (path : string) (a : t) (env : Storage.Env)
  : outcome :=
  if bool_decide (path = "") then Done a env
  else
    match Storage.files env !! path with
    | None => Done a env
    | Some f =>
        match Storage.json_load f with
        | Storage.Ok data =>
            match Storage._dict_to_script uuid4 data (Storage.drawn env) with
            | (Storage.Ok script, drawn') =>
                let script' := set_script_id (uuid4 drawn') script in
                let a' := _select_script (List.length (scripts a))
                            (with_scripts (scripts a ++ [script']) a) in
                Done a' (_save a' (Storage.mkEnv (Storage.files env) (S drawn')))
            | (Storage.Raise _, drawn') =>
                Done a (Storage.mkEnv (Storage.files env) drawn')
            | (Storage.IllTyped, _) => OutOfModel
            end
        | Storage.Raise _ => Done a env
        | Storage.IllTyped => OutOfModel
        end
    end.

(** What the user does. A script button exists for each script and
    carries its position; a step card carries the position it was created
    for, counted from 0. *)
Inductive action :=
| NewScript (now_created now_updated : string)
| ClickScript (i : nat)
| DeleteScript (confirmed : bool)
| ClickStep (idx : nat)
| AddStep (now : string)
| DuplicateStep (now : string)
| DeleteStep (now : string)
| MoveStepUp (now : string)
| MoveStepDown (now : string)
| EditText (value now : string)
| ToggleEnter (value : bool)
| EditDelay (parsed : option Q)
| EditName (value now : string)
| EditDescription (value now : string)
| Export (path : string)
| Import (path : string).

Definition perform (act : action) (a : t) (env : Storage.Env) : outcome :=
  match act with
  | NewScript now_created now_updated => _new_script now_created now_updated a env
  | ClickScript i =>
      if bool_decide (i < List.length (scripts a))
      then Done (_select_script i a) env else Done a env
  | DeleteScript confirmed => _delete_script confirmed a env
  | ClickStep idx => _on_step_click (Z.of_nat idx) a env
  | AddStep now => _add_step now a env
  | DuplicateStep now => _duplicate_step now a env
  | DeleteStep now => _delete_step now a env
  | MoveStepUp now => _move_step_up now a env
  | MoveStepDown now => _move_step_down now a env
  | EditText value now => _on_step_text_change value now a env
  | ToggleEnter value => _on_enter_toggle value a env
  | EditDelay parsed => _on_delay_change parsed a env
  | EditName value now => _on_name_change value now a env
  | EditDescription value now => _on_desc_change value now a env
  | Export path => _export_script path a env
  | Import path => _import_script path a env
  end.

End Callbacks.

(** The state [__init__] leaves, with the scripts [Storage.load] gave. *)
Definition init (loaded : list Script) : t := mk loaded None None false 0.

(** What the callbacks keep: the selected script is one of the scripts, and
    the selected step one of its steps. *)
Definition wf (a : t) : Prop :=
  (∀ i, selected_script a = Some i → i < List.length (scripts a))
  ∧ (∀ idx, selected_step_idx a = Some idx →
       ∃ script, selected a = Some script
                 ∧ (0 ≤ idx < Z.of_nat (List.length (steps script)))%Z).

(** The steps of the selected script. *)
Definition selected_steps (a : t) : list Step :=
  match selected a with
  | Some script => steps script
  | None => []
  end.

(** A callback that returns leaves a well-formed state, and none is left
    by an [IndexError] or an [AttributeError]. *)
Definition safe (o : outcome) : Prop :=
  match o with
  | Done a _ => wf a
  | IndexError | AttributeError => False
  | OutOfModel => True
  end.

(** The file of the store holds the scripts as [Storage.save] writes
    them. *)
Definition saved (st : Storage.t) (a : t) (env : Storage.Env) : Prop :=
  Storage.files env !! Storage.filepath st
  = Some (Storage.Json (Storage.JList (Storage._script_to_dict <$> scripts a))).

(** The time an action hands to [touch], for the actions whose callback
    calls [touch]. *)
Definition stamp (act : action) : option string :=
  match act with
  | AddStep now | DuplicateStep now | DeleteStep now | MoveStepUp now
  | MoveStepDown now | EditText _ now | EditName _ now
  | EditDescription _ now => Some now
  | _ => None
  end.

End Editor.

(* ===================================================================== *)
(** * Part II: properties *)
(* ===================================================================== *)

(** ** Numbers *)

Lemma py_max_is_Qmax (a b : Q) : py_max a b = Qmax a b.
Proof.
  unfold py_max, Qmax, GenericMinMax.gmax.
  destruct (Qle_bool b a) eqn:Hle.
  - apply Qle_bool_iff in Hle.
    destruct (Qcompare_spec a b) as [Heq|Hlt|Hgt]; try reflexivity.
    exfalso. apply (Qlt_irrefl a). eapply Qlt_le_trans; eauto.
  - destruct (Qcompare_spec a b) as [Heq|Hlt|Hgt]; try reflexivity.
    + assert (Qle_bool b a = true) as E; [|congruence].
      apply Qle_bool_iff. rewrite Heq. apply Qle_refl.
    + assert (Qle_bool b a = true) as E; [|congruence].
      apply Qle_bool_iff. apply Qlt_le_weak. exact Hgt.
Qed.

Lemma py_max_lower (a b : Q) : (a <= py_max a b)%Q.
Proof. rewrite py_max_is_Qmax. apply Q.le_max_l. Qed.

Lemma py_max_upper (a b : Q) : (b <= py_max a b)%Q.
Proof. rewrite py_max_is_Qmax. apply Q.le_max_r. Qed.

Lemma py_max_cases (a b : Q) : py_max a b = a ∨ py_max a b = b.
Proof. unfold py_max. destruct (Qle_bool b a); auto. Qed.

(** ** Speed and delay *)
Section Speed.
Import TyperEngine.

Lemma unknown_preset (preset_name : string) :
  preset_name ∉ ["Slow"; "Normal"; "Fast"; "Very Fast"] →
  SPEED_PRESETS !! preset_name = None.
Proof.
  intros Hn. unfold SPEED_PRESETS.
  repeat (rewrite lookup_insert_ne;
          [| intros <-; apply Hn; repeat constructor]).
  apply lookup_singleton_ne. intros <-. apply Hn. repeat constructor.
Qed.

(** The base delay stays at or above the floor under the public setters,
    starting from [init]. *)
Lemma init_base_delay_floor : (0.003 <= base_delay init)%Q.
Proof. vm_compute. discriminate. Qed.

Lemma set_speed_base_delay_floor (preset_name : string) (e : t) :
  (0.003 <= base_delay (set_speed preset_name e))%Q.
Proof.
  unfold set_speed, set_base_delay, SPEED_PRESETS; simpl.
  destruct (decide (preset_name = "Slow")) as [->|?];
    [vm_compute; discriminate | rewrite lookup_insert_ne by done].
  destruct (decide (preset_name = "Normal")) as [->|?];
    [vm_compute; discriminate | rewrite lookup_insert_ne by done].
  destruct (decide (preset_name = "Fast")) as [->|?];
    [vm_compute; discriminate | rewrite lookup_insert_ne by done].
  destruct (decide (preset_name = "Very Fast")) as [->|?];
    [vm_compute; discriminate | rewrite lookup_singleton_ne by done].
  vm_compute. discriminate.
Qed.

Lemma set_speed_value_base_delay_floor (delay : Q) (e : t) :
  (0.003 <= base_delay (set_speed_value delay e))%Q.
Proof. apply py_max_lower. Qed.

Lemma configured_floor (e : t) :
  configured e → humanize e = true ∧ (0.003 <= base_delay e)%Q.
Proof.
  induction 1 as [| n e _ [Hh _] | d e _ [Hh _] | e ? ? ? ? ? _ IH
                  | e _ IH | e _ IH ].
  - split; [reflexivity | apply init_base_delay_floor].
  - split; [exact Hh | apply set_speed_base_delay_floor].
  - split; [exact Hh | apply set_speed_value_base_delay_floor].
  - exact IH.
  - exact IH.
  - exact IH.
Qed.

(** C7: the presets are Slow 0.065, Normal 0.040, Fast 0.022 and
    Very Fast 0.010; [set_speed] sets the base delay to the preset of a
    recognized name and to 0.022 for any other name; [set_speed_value] sets
    it to the larger of 0.003 and its argument. *)
Theorem speed_presets_and_setters :
  SPEED_PRESETS
    = {[ "Slow" := 0.065%Q; "Normal" := 0.040%Q; "Fast" := 0.022%Q;
         "Very Fast" := 0.010%Q ]}
  ∧ (∀ e, base_delay (set_speed "Slow" e) = 0.065%Q
          ∧ base_delay (set_speed "Normal" e) = 0.040%Q
          ∧ base_delay (set_speed "Fast" e) = 0.022%Q
          ∧ base_delay (set_speed "Very Fast" e) = 0.010%Q)
  ∧ (∀ preset_name e,
        preset_name ∉ ["Slow"; "Normal"; "Fast"; "Very Fast"] →
        base_delay (set_speed preset_name e) = 0.022%Q)
  ∧ (∀ seconds e,
        base_delay (set_speed_value seconds e) = Qmax 0.003 seconds)
  ∧ (∀ preset_name seconds e,
        let e1 := set_speed preset_name e in
        let e2 := set_speed_value seconds e in
        humanize e1 = humanize e ∧ is_typing e1 = is_typing e
        ∧ _stop e1 = _stop e ∧ humanize e2 = humanize e
        ∧ is_typing e2 = is_typing e ∧ _stop e2 = _stop e).
Proof.
  split; [reflexivity|].
  split; [intros e; repeat split; reflexivity|].
  split.
  - intros preset_name e Hn. unfold set_speed; simpl.
    rewrite (unknown_preset _ Hn). reflexivity.
  - split.
    + intros seconds e. unfold set_speed_value; simpl. apply py_max_is_Qmax.
    + intros; repeat split; reflexivity.
Qed.

Lemma speed_presets_and_setters_witness :
  ("Turbo" ∉ ["Slow"; "Normal"; "Fast"; "Very Fast"])
  ∧ base_delay (set_speed "Turbo" init) = 0.022%Q.
Proof.
  assert ("Turbo" ∉ ["Slow"; "Normal"; "Fast"; "Very Fast"]) as Hn.
  { intros H. repeat (apply elem_of_cons in H as [H|H]; [discriminate H|]).
    inversion H. }
  split; [exact Hn|].
  exact (proj1 (proj2 (proj2 speed_presets_and_setters)) "Turbo" init Hn).
Defined.

Lemma uniform_bounds (a b u : Q) :
  (a <= b)%Q → (0 <= u)%Q → (u <= 1)%Q →
  (a <= uniform a b u)%Q ∧ (uniform a b u <= b)%Q.
Proof.
  intros Hab H0 H1. unfold uniform.
  assert (0 <= (b - a) * u)%Q as Hlo.
  { apply Qmult_le_0_compat; [|exact H0].
    unfold Qminus. rewrite <- (Qplus_opp_r a).
    apply Qplus_le_l. exact Hab. }
  assert ((b - a) * u <= (b - a) * 1)%Q as Hhi.
  { rewrite (Qmult_comm (b - a) u), (Qmult_comm (b - a) 1).
    apply Qmult_le_compat_r; [exact H1|].
    unfold Qminus. rewrite <- (Qplus_opp_r a).
    apply Qplus_le_l. exact Hab. }
  split.
  - rewrite <- (Qplus_0_r a) at 1. apply Qplus_le_r. exact Hlo.
  - eapply Qle_trans; [apply Qplus_le_r; exact Hhi|].
    rewrite Qmult_1_r. unfold Qminus.
    rewrite (Qplus_comm b), Qplus_assoc, Qplus_opp_r, Qplus_0_l.
    apply Qle_refl.
Qed.

(** The pause characters, one by one. *)
Lemma char_in_PAUSE_CHARS (char : ascii) :
  char_in char PAUSE_CHARS = true ↔
  char ∈ [" "; "."; ","; "!"; "?"; ";"; ":"; newline]%char.
Proof.
  unfold PAUSE_CHARS; simpl. split.
  - intros H.
    repeat match type of H with
    | (if Ascii.eqb ?a ?b then _ else _) = _ =>
        destruct (Ascii.eqb a b) eqn:E;
          [ apply Ascii.eqb_eq in E; subst;
            repeat first [ apply list_elem_of_here | apply list_elem_of_further ]
          | clear E ]
    end.
    discriminate H.
  - intros H.
    repeat (apply elem_of_cons in H as [->|H];
            [ vm_compute; reflexivity | ]).
    inversion H.
Qed.

Lemma keystroke_delay_floor (e : t) (char : ascii) (u : Q) :
  humanize e = true ∨ (0.003 <= base_delay e)%Q →
  (0.003 <= keystroke_delay e char u)%Q.
Proof.
  unfold keystroke_delay. destruct (humanize e).
  - intros _. apply py_max_lower.
  - intros [H|H]; [discriminate H | exact H].
Qed.

(** C8: with humanization the delay after a character is the larger of
    0.003 and the base delay plus an offset, the offset lying in
    [0.01, 0.05] after a space, one of . , ! ? ; : or a newline and in
    [-0.008, 0.015] after any other character; without humanization the
    delay is the base delay. The worker sleeps exactly that delay after the
    character. *)
Theorem keystroke_delay_humanized (e : t) (char : ascii) (u : Q) :
  (0 <= u)%Q → (u <= 1)%Q →
  (humanize e = true →
     keystroke_delay e char u = Qmax 0.003 (base_delay e + jitter char u)
     ∧ (char ∈ [" "; "."; ","; "!"; "?"; ";"; ":"; newline]%char →
          (0.01 <= jitter char u)%Q ∧ (jitter char u <= 0.05)%Q)
     ∧ (char ∉ [" "; "."; ","; "!"; "?"; ";"; ":"; newline]%char →
          (-0.008 <= jitter char u)%Q ∧ (jitter char u <= 0.015)%Q))
  ∧ (humanize e = false → keystroke_delay e char u = base_delay e)
  ∧ (∀ w ss s i rest,
        eng s = e → at_pc s = PDelay i char rest → random w i = u →
        raises w (PDelay i char rest) = false →
        (0 <= keystroke_delay e char u)%Q →
        step_worker w ss s
        = goto (PLoop (S i) rest) (emit [Sleep (keystroke_delay e char u)] s)).
Proof.
  intros H0 H1. split; [|split].
  - intros Hh. unfold keystroke_delay. rewrite Hh. split; [apply py_max_is_Qmax|].
    unfold jitter. split.
    + intros Hin. apply char_in_PAUSE_CHARS in Hin. rewrite Hin.
      apply uniform_bounds; [vm_compute; discriminate | exact H0 | exact H1].
    + intros Hnin. destruct (char_in char PAUSE_CHARS) eqn:E.
      * exfalso. apply Hnin. apply char_in_PAUSE_CHARS. exact E.
      * apply uniform_bounds; [vm_compute; discriminate | exact H0 | exact H1].
  - intros Hh. unfold keystroke_delay. rewrite Hh. reflexivity.
  - intros w ss s i rest He Hpc Hu Hr Hpos.
    unfold step_worker. rewrite Hpc. unfold sleep, call.
    rewrite He, Hu, Hr.
    apply Qle_bool_iff in Hpos. rewrite Hpos. reflexivity.
Qed.

Lemma keystroke_delay_humanized_witness :
  keystroke_delay init " " 0.5 = Qmax 0.003 (base_delay init + jitter " " 0.5)
  ∧ (0.01 <= jitter " " 0.5)%Q ∧ (jitter " " 0.5 <= 0.05)%Q.
Proof.
  assert (0 <= 0.5)%Q as H0 by (vm_compute; discriminate).
  assert (0.5 <= 1)%Q as H1 by (vm_compute; discriminate).
  destruct (keystroke_delay_humanized init " " 0.5 H0 H1) as [Hh _].
  destruct (Hh eq_refl) as [Heq [Hin _]].
  split; [exact Heq|].
  apply Hin. apply list_elem_of_here.
Defined.

End Speed.

(** ** Defaults *)
Section Defaults.
Import Models.

(** C9: [Step()] has the empty text, [press_enter] true, [delay_before]
    0.3 and an id drawn from the uuid source at construction, so that the
    ids of two steps constructed at different draws differ whenever the
    source does not repeat itself; [type_text] called without
    [press_enter] and [delay_before] runs with true and 0.3. *)
Theorem step_and_type_text_defaults (uuid4 : nat → string) :
  (∀ drawn,
      let '(st, drawn') := Step_init uuid4 None None None None drawn in
      text st = "" ∧ press_enter st = true ∧ delay_before st = 0.3%Q
      ∧ step_id st = uuid4 drawn ∧ drawn' = S drawn)
  ∧ ((∀ i j, i ≠ j → uuid4 i ≠ uuid4 j) →
     ∀ m n, m ≠ n →
       step_id (Step_init uuid4 None None None None m).1
       ≠ step_id (Step_init uuid4 None None None None n).1)
  ∧ (∀ e txt on_char on_done,
       let ss := (TyperEngine.type_text e txt None None on_char on_done).2 in
       TyperEngine.s_text ss = txt
       ∧ TyperEngine.s_press_enter ss = true
       ∧ TyperEngine.s_delay_before ss = 0.3%Q).
Proof.
  split; [|split].
  - intros drawn. simpl. repeat split; reflexivity.
  - intros Hinj m n Hmn. simpl. apply Hinj. exact Hmn.
  - intros e txt on_char on_done. simpl. repeat split; reflexivity.
Qed.

Lemma step_and_type_text_defaults_witness :
  step_id (Step_init uuid_of_count None None None None 0).1
  ≠ step_id (Step_init uuid_of_count None None None None 1).1.
Proof.
  refine (proj1 (proj2 (step_and_type_text_defaults uuid_of_count)) _ 0 1 _).
  - intros i j Hij Heq. apply Hij. unfold uuid_of_count in Heq.
    apply (inj pretty) in Heq. exact Heq.
  - discriminate.
Defined.

End Defaults.

(** ** The hotkey dispatch *)
Section Dispatch.
Import App.

(** Two presses seen before the main loop runs queue two callbacks: the
    guard on [is_typing] is read at the press, the session starts at the
    callback. The property below is about a press that meets an empty
    queue. *)
Example two_presses_before_the_loop :
  let script :=
    Models.mkScript "s" "demo" ""
      [Models.mkStep "1" "Hello" true 0; Models.mkStep "2" "World" true 0]
      "" "" in
  let a := _start_demo (App.mk (Some script) false 0 Keyboard.f2
                               TyperEngine.init [] []) in
  let a' := mainloop_step (mainloop_step
              (_on_global_key Keyboard.f2 (_on_global_key Keyboard.f2 a))) in
  demo_step_idx a' = 2 ∧ List.length (threads a') = 2.
Proof. split; reflexivity. Qed.




End Dispatch.

(** ** Storage *)
Section Persistence.
Import Models Storage.
Variable uuid4 : nat → string.

#[local] Ltac lookups :=
  repeat first
    [ rewrite lookup_delete_eq
    | rewrite lookup_delete_ne by discriminate
    | rewrite lookup_insert_eq
    | rewrite lookup_insert_ne by discriminate
    | rewrite lookup_empty ].

Lemma step_fields_no_role (st : Step) : step_fields st !! "role" = None.
Proof. unfold step_fields. lookups. reflexivity. Qed.

Lemma step_fields_dom (st : Step) : dom (step_fields st) ⊆ STEP_FIELDS.
Proof.
  unfold step_fields, STEP_FIELDS. rewrite !dom_insert_L, dom_empty_L.
  set_solver.
Qed.

(** Dropping [role] from a stored step record gives the record the current
    version writes. *)
Lemma pop_role_legacy (role : Step → option json) (st : Step) :
  pop_role (JObj (legacy_step_fields role st)) = Ok (JObj (step_fields st)).
Proof.
  unfold pop_role, legacy_step_fields. f_equal. f_equal.
  destruct (role st).
  - rewrite delete_insert_eq. apply delete_id, step_fields_no_role.
  - apply delete_id, step_fields_no_role.
Qed.

Lemma strip_legacy (role : Step → option json) (sts : list Step) :
  mapM pop_role ((λ st, JObj (legacy_step_fields role st)) <$> sts)
  = Ok ((λ st, JObj (step_fields st)) <$> sts).
Proof.
  induction sts as [|st sts IH]; [reflexivity|].
  rewrite !fmap_cons. cbn [mapM]. rewrite pop_role_legacy. cbn [bind].
  rewrite IH. reflexivity.
Qed.

Lemma Step_kwargs_step_fields (st : Step) (n : nat) :
  Step_kwargs uuid4 (JObj (step_fields st)) n = (Ok st, n).
Proof.
  unfold Step_kwargs.
  rewrite bool_decide_eq_true_2 by apply step_fields_dom.
  unfold step_fields. lookups. destruct st; reflexivity.
Qed.

Lemma steps_back (sts : list Step) (n : nat) :
  mapM_st (Step_kwargs uuid4) ((λ st, JObj (step_fields st)) <$> sts) n
  = (Ok sts, n).
Proof.
  induction sts as [|st sts IH]; [reflexivity|].
  rewrite fmap_cons. cbn [mapM_st].
  rewrite Step_kwargs_step_fields, IH. reflexivity.
Qed.

Lemma dict_to_script_legacy (role : Step → option json) (s : Script) (n : nat) :
  _dict_to_script uuid4 (legacy_script_to_dict role s) n = (Ok s, n).
Proof.
  unfold _dict_to_script, legacy_script_to_dict, script_fields.
  lookups. cbn [from_option id iterate bind].
  rewrite strip_legacy, steps_back.
  unfold getitem, get_str. lookups. destruct s; reflexivity.
Qed.

Lemma scripts_back (role : Step → option json) (scripts : list Script) (n : nat) :
  mapM_st (_dict_to_script uuid4) (legacy_script_to_dict role <$> scripts) n
  = (Ok scripts, n).
Proof.
  induction scripts as [|s scripts IH]; [reflexivity|].
  rewrite fmap_cons. cbn [mapM_st].
  rewrite dict_to_script_legacy, IH. reflexivity.
Qed.

Lemma legacy_without_role (s : Script) :
  legacy_script_to_dict (λ _, None) s = _script_to_dict s.
Proof. reflexivity. Qed.

Lemma load_legacy (role : Step → option json) (st : Storage.t) (env : Env)
    (scripts : list Script) :
  files env !! filepath st
    = Some (Json (JList (legacy_script_to_dict role <$> scripts))) →
  load uuid4 st env = (Ok scripts, env).
Proof.
  intros Hf. unfold load. rewrite Hf. cbn [json_load bind iterate].
  rewrite scripts_back. destruct env; reflexivity.
Qed.

(** C5: [load] after [save] gives back the saved scripts, every field of
    every script and step, in the same order; and a file whose step records
    carry a legacy [role] entry loads to the same scripts, whose steps have
    no such field (the record [Step] has none), although [Step] itself
    rejects the entry. *)
Theorem save_load_round_trip (st : Storage.t) (env : Env)
    (scripts : list Script) :
  load uuid4 st (save st scripts env) = (Ok scripts, save st scripts env)
  ∧ (∀ role,
       files env !! filepath st
         = Some (Json (JList (legacy_script_to_dict role <$> scripts))) →
       load uuid4 st env = (Ok scripts, env))
  ∧ (∀ role step r n,
       role step = Some r →
       Step_kwargs uuid4 (JObj (legacy_step_fields role step)) n
         = (Raise TypeError, n)
       ∧ bind (pop_role (JObj (legacy_step_fields role step)))
              (λ s, (Step_kwargs uuid4 s n).1) = Ok step).
Proof.
  split; [|split].
  - apply (load_legacy (λ _, None)). unfold save; cbn [files].
    rewrite lookup_insert_eq. reflexivity.
  - intros role. apply load_legacy.
  - intros role step r n Hr. split.
    + unfold Step_kwargs, legacy_step_fields. rewrite Hr.
      rewrite bool_decide_eq_false_2; [reflexivity|].
      rewrite dom_insert_L. unfold STEP_FIELDS. intros Hsub.
      assert ("role" ∈ ({[ "id"; "text"; "press_enter"; "delay_before" ]} : gset string)) as Hin
        by (apply Hsub, elem_of_union_l, elem_of_singleton; reflexivity).
      set_unfold in Hin. destruct Hin as [[[Hin|Hin]|Hin]|Hin]; discriminate Hin.
    + rewrite pop_role_legacy. cbn [bind].
      rewrite Step_kwargs_step_fields. reflexivity.
Qed.

(** *** Optional and required keys *)

Lemma dict_to_script_fields (sts : list Step) (m : gmap string json) (n : nat) :
  default (JList []) (m !! "steps") = JList ((λ st, JObj (step_fields st)) <$> sts) →
  _dict_to_script uuid4 (JObj m) n
  = (bind (getitem m "id") (λ i,
     bind (getitem m "name") (λ nm,
     bind (get_str m "description" "") (λ de,
     bind (get_str m "created_at" "") (λ cr,
     bind (get_str m "updated_at" "") (λ up,
     bind (as_str i) (λ i',
     bind (as_str nm) (λ nm',
     Ok (mkScript i' nm' de sts cr up)))))))), n).
Proof.
  intros Hs. unfold _dict_to_script. rewrite Hs. cbn [iterate bind].
  rewrite (strip_legacy (λ _, None)), steps_back. reflexivity.
Qed.

(** C10: when no file exists at the path, [load] returns the empty list,
    raises nothing and leaves the files as they are, so the file still does
    not exist; a script record needs [id] and [name] only: each of
    [description], [created_at], [updated_at] and [steps] may be absent
    and then reads as the empty string (the empty list for [steps]), while
    a record without [id] or without [name] raises [KeyError]. *)
Theorem load_missing_file_and_optional_keys (st : Storage.t) (env : Env) :
  (files env !! filepath st = None →
     load uuid4 st env = (Ok [], env)
     ∧ files (load uuid4 st env).2 !! filepath st = None)
  ∧ (∀ i nm n,
       _dict_to_script uuid4 (JObj {[ "id" := JStr i; "name" := JStr nm ]}) n
       = (Ok (mkScript i nm "" [] "" ""), n))
  ∧ (∀ s n,
       let m := script_fields ((λ st, JObj (step_fields st)) <$> steps s) s in
       _dict_to_script uuid4 (JObj (delete "description" m)) n
         = (Ok (mkScript (script_id s) (name s) "" (steps s)
                         (created_at s) (updated_at s)), n)
       ∧ _dict_to_script uuid4 (JObj (delete "created_at" m)) n
         = (Ok (mkScript (script_id s) (name s) (description s) (steps s)
                         "" (updated_at s)), n)
       ∧ _dict_to_script uuid4 (JObj (delete "updated_at" m)) n
         = (Ok (mkScript (script_id s) (name s) (description s) (steps s)
                         (created_at s) ""), n)
       ∧ _dict_to_script uuid4 (JObj (delete "steps" m)) n
         = (Ok (mkScript (script_id s) (name s) (description s) []
                         (created_at s) (updated_at s)), n)
       ∧ _dict_to_script uuid4 (JObj (delete "id" m)) n = (Raise KeyError, n)
       ∧ _dict_to_script uuid4 (JObj (delete "name" m)) n = (Raise KeyError, n)).
Proof.
  split; [|split].
  - intros Hf. unfold load. rewrite Hf. split; [reflexivity | exact Hf].
  - intros i nm n. rewrite (dict_to_script_fields []).
    + unfold getitem, get_str.
      rewrite lookup_insert_eq.
      rewrite (lookup_insert_ne _ "id" "name") by discriminate.
      rewrite lookup_singleton_eq.
      repeat (rewrite lookup_insert_ne by discriminate;
              rewrite lookup_singleton_ne by discriminate).
      reflexivity.
    + rewrite lookup_insert_ne by discriminate.
      rewrite lookup_singleton_ne by discriminate. reflexivity.
  - intros s n m. subst m. unfold script_fields.
    repeat apply conj.
    + rewrite (dict_to_script_fields (steps s)); [|lookups; reflexivity].
      unfold getitem, get_str. lookups. reflexivity.
    + rewrite (dict_to_script_fields (steps s)); [|lookups; reflexivity].
      unfold getitem, get_str. lookups. reflexivity.
    + rewrite (dict_to_script_fields (steps s)); [|lookups; reflexivity].
      unfold getitem, get_str. lookups. reflexivity.
    + rewrite (dict_to_script_fields []); [|lookups; reflexivity].
      unfold getitem, get_str. lookups. reflexivity.
    + rewrite (dict_to_script_fields (steps s)); [|lookups; reflexivity].
      unfold getitem, get_str. lookups. reflexivity.
    + rewrite (dict_to_script_fields (steps s)); [|lookups; reflexivity].
      unfold getitem, get_str. lookups. reflexivity.
Qed.

(** *** Files that do not hold what [save] writes *)

Lemma typed_or_absent_Ok {A} (conv : json → result A) (o : option json) :
  typed_or_absent conv o = true → ∃ a, kwarg conv o = Ok a.
Proof.
  unfold typed_or_absent. destruct (kwarg conv o); try discriminate. eauto.
Qed.

Lemma step_record_loads (s : json) :
  step_record_ok s = true →
  ∃ s', pop_role s = Ok s'
        ∧ ∀ n, ∃ st n', Step_kwargs uuid4 s' n = (Ok st, n').
Proof.
  destruct s as [| | | | |kw]; try discriminate. cbn [step_record_ok].
  rewrite !andb_true_iff.
  intros [[[[Hdom Hid] Htx] Hpe] Hdb].
  apply bool_decide_eq_true in Hdom.
  apply typed_or_absent_Ok in Hid as [i Hid].
  apply typed_or_absent_Ok in Htx as [tx Htx].
  apply typed_or_absent_Ok in Hpe as [pe Hpe].
  apply typed_or_absent_Ok in Hdb as [db Hdb].
  eexists. split; [reflexivity|]. intros n.
  unfold Step_kwargs. rewrite bool_decide_eq_true_2 by exact Hdom.
  rewrite !lookup_delete_ne by discriminate.
  rewrite Hid, Htx, Hpe, Hdb.
  destruct (Step_init uuid4 i tx pe db n) as [st n']. eauto.
Qed.

Lemma step_records_load (ss : list json) :
  forallb step_record_ok ss = true →
  ∃ stripped, mapM pop_role ss = Ok stripped
              ∧ ∀ n, ∃ sts n',
                  mapM_st (Step_kwargs uuid4) stripped n = (Ok sts, n').
Proof.
  induction ss as [|s ss IH]; cbn [forallb].
  - intros _. exists []. split; [reflexivity|]. intros n. exists [], n. reflexivity.
  - rewrite andb_true_iff. intros [Hs Hss].
    destruct (step_record_loads s Hs) as [s' [Hpop Hkw]].
    destruct (IH Hss) as [stripped [Hstrip Hall]].
    exists (s' :: stripped). split.
    + cbn [mapM]. rewrite Hpop. cbn [bind]. rewrite Hstrip. reflexivity.
    + intros n. destruct (Hkw n) as [st [n1 Hst]].
      destruct (Hall n1) as [sts [n2 Hsts]].
      exists (st :: sts), n2. cbn [mapM_st]. rewrite Hst, Hsts. reflexivity.
Qed.

(** A well-shaped script record either loads or, when it lacks [id] or
    [name], raises [KeyError]. *)
Lemma script_record_outcome (d : json) (n : nat) :
  script_record_ok d = true →
  ∃ n', if missing_required_key d
        then _dict_to_script uuid4 d n = (Raise KeyError, n')
        else ∃ sc, _dict_to_script uuid4 d n = (Ok sc, n').
Proof.
  destruct d as [| | | | |m]; try discriminate.
  cbn [script_record_ok missing_required_key].
  rewrite !andb_true_iff.
  intros [[[[[Hsteps Hid] Hnm] Hde] Hcr] Hup].
  assert (∃ stripped,
            bind (iterate (default (JList []) (m !! "steps"))) (mapM pop_role)
              = Ok stripped
            ∧ ∀ n, ∃ sts n',
                mapM_st (Step_kwargs uuid4) stripped n = (Ok sts, n'))
    as [stripped [Hstrip Hall]].
  { destruct (m !! "steps") as [[| | | |ss|]|]; try discriminate.
    - cbn [from_option id iterate bind]. apply step_records_load, Hsteps.
    - exists []. split; [reflexivity|]. intros k. exists [], k. reflexivity. }
  destruct (Hall n) as [sts [n' Hsts]]. exists n'.
  unfold _dict_to_script. rewrite Hstrip, Hsts.
  unfold getitem, get_str.
  apply typed_or_absent_Ok in Hid as [i Hid].
  apply typed_or_absent_Ok in Hnm as [nm Hnm].
  apply typed_or_absent_Ok in Hde as [de Hde].
  apply typed_or_absent_Ok in Hcr as [cr Hcr].
  apply typed_or_absent_Ok in Hup as [up Hup].
  destruct (m !! "id") as [vi|]; [|reflexivity].
  destruct (m !! "name") as [vn|]; [|reflexivity].
  cbn [bind].
  destruct (m !! "description") as [vd|], (m !! "created_at") as [vc|],
           (m !! "updated_at") as [vu|];
    cbn [kwarg] in *;
    repeat match goal with
    | H : bind (as_str ?v) _ = Ok _ |- _ =>
        destruct v; try discriminate H; clear H
    end;
    cbn [bind as_str]; eauto.
Qed.

Lemma script_records_raise (l : list json) (n : nat) :
  forallb script_record_ok l = true →
  existsb missing_required_key l = true →
  ∃ n', mapM_st (_dict_to_script uuid4) l n = (Raise KeyError, n').
Proof.
  revert n. induction l as [|d l IH]; cbn [forallb existsb]; [discriminate|].
  intros n. rewrite andb_true_iff. intros [Hd Hl] Hex.
  destruct (script_record_outcome d n Hd) as [n1 Hout].
  cbn [mapM_st].
  destruct (missing_required_key d).
  - rewrite Hout. eauto.
  - destruct Hout as [sc Hsc]. rewrite Hsc.
    destruct (IH n1 Hl Hex) as [n2 Hrest]. rewrite Hrest. eauto.
Qed.

(** C6, as the program has it: [load] returns the empty list, and raises
    nothing, when the text of the file is no JSON document, and when the
    document is a list of well-shaped script records one of which lacks
    [id] or [name]. *)
Theorem load_tolerates_parse_and_key_errors (st : Storage.t) (env : Env) :
  (files env !! filepath st = Some NotJson →
     load uuid4 st env = (Ok [], env))
  ∧ (∀ l,
       files env !! filepath st = Some (Json (JList l)) →
       forallb script_record_ok l = true →
       existsb missing_required_key l = true →
       (load uuid4 st env).1 = Ok []).
Proof.
  split.
  - intros Hf. unfold load. rewrite Hf. reflexivity.
  - intros l Hf Hok Hmiss. unfold load. rewrite Hf.
    cbn [json_load bind iterate].
    destruct (script_records_raise l (drawn env) Hok Hmiss) as [n' Hr].
    rewrite Hr. reflexivity.
Qed.

End Persistence.

Lemma save_load_round_trip_witness :
  let step := Models.mkStep "1" "Hello" true 0.3 in
  let script := Models.mkScript "s" "demo" "" [step] "c" "u" in
  let role := λ _ : Models.Step, Some (Storage.JStr "user") in
  let st := Storage.mk "scripts.json" in
  let env :=
    Storage.mkEnv
      {[ "scripts.json" :=
           Storage.Json (Storage.JList [Storage.legacy_script_to_dict role script]) ]}
      0 in
  Storage.load Models.uuid_of_count st env = (Storage.Ok [script], env).
Proof.
  intros step script role st env.
  exact (proj1 (proj2 (save_load_round_trip Models.uuid_of_count st env [script]))
               role eq_refl).
Defined.

Lemma load_missing_file_and_optional_keys_witness :
  let st := Storage.mk "scripts.json" in
  let env := Storage.mkEnv ∅ 0 in
  Storage.load Models.uuid_of_count st env = (Storage.Ok [], env)
  ∧ Storage.files (Storage.load Models.uuid_of_count st env).2
      !! Storage.filepath st = None.
Proof.
  intros st env.
  exact (proj1 (load_missing_file_and_optional_keys Models.uuid_of_count st env)
               eq_refl).
Defined.

Lemma load_tolerates_parse_and_key_errors_witness :
  let st := Storage.mk "scripts.json" in
  let l := [Storage.JObj {[ "name" := Storage.JStr "demo" ]}] in
  let env :=
    Storage.mkEnv {[ "scripts.json" := Storage.Json (Storage.JList l) ]} 0 in
  (Storage.load Models.uuid_of_count st env).1 = Storage.Ok [].
Proof.
  intros st l env.
  exact (proj2 (load_tolerates_parse_and_key_errors Models.uuid_of_count st env)
               l eq_refl eq_refl eq_refl).
Defined.

(** Other contents that [load] does not survive: bytes that are no UTF-8
    text, a document that is a number, a list holding a number, and a
    script record, complete with [id] and [name], one step of which has an
    unknown key. *)
Example other_corrupt_files_raise :
  let st := Storage.mk "scripts.json" in
  let load_of f :=
    (Storage.load Models.uuid_of_count st
       (Storage.mkEnv {[ "scripts.json" := f ]} 0)).1 in
  load_of Storage.Undecodable = Storage.Raise Storage.UnicodeDecodeError
  ∧ load_of (Storage.Json (Storage.JNum 5)) = Storage.Raise Storage.TypeError
  ∧ load_of (Storage.Json (Storage.JList [Storage.JNum 5]))
    = Storage.Raise Storage.AttributeError
  ∧ load_of (Storage.Json (Storage.JList
      [Storage.JObj
         {[ "id" := Storage.JStr "s"; "name" := Storage.JStr "demo";
            "steps" := Storage.JList
              [Storage.JObj {[ "text" := Storage.JStr "Hello";
                               "bogus" := Storage.JNum 1 ]}] ]}]))
    = Storage.Raise Storage.TypeError.
Proof. vm_compute. repeat split; reflexivity. Qed.

(** The claim C6 as the specification states it, that [load] returns the
    empty list for every malformed file, fails: the file below holds a
    record that lacks [id], and its step carries a key [Step] does not
    know, so [Step] raises [TypeError] before [id] is read, and [load] does
    not catch it. *)
Lemma malformed_file_can_raise :
  ¬ (∀ uuid4 st env f,
       Storage.files env !! Storage.filepath st = Some f →
       Storage.malformed f = true →
       (Storage.load uuid4 st env).1 = Storage.Ok []).
Proof.
  intros H.
  pose (f := Storage.Json (Storage.JList
          [Storage.JObj
             {[ "name" := Storage.JStr "demo";
                "steps" := Storage.JList
                  [Storage.JObj {[ "bogus" := Storage.JNum 1 ]}] ]}])).
  specialize (H Models.uuid_of_count (Storage.mk "scripts.json")
                (Storage.mkEnv {[ "scripts.json" := f ]} 0) f eq_refl eq_refl).
  vm_compute in H. discriminate H.
Qed.

(** ** The worker thread *)
Section Worker.
Import TyperEngine.
Variables (w : World) (ss : Session).

Lemma run_app (sched1 sched2 : list thread) (s : state) :
  run w ss (sched1 ++ sched2) s = run w ss sched2 (run w ss sched1 s).
Proof. apply fold_left_app. Qed.

Lemma run_cons (th : thread) (sched : list thread) (s : state) :
  run w ss (th :: sched) s = run w ss sched (step w ss s th).
Proof. reflexivity. Qed.

Lemma typed_chars_app (tr1 tr2 : list event) :
  typed_chars (tr1 ++ tr2) = typed_chars tr1 ++ typed_chars tr2.
Proof. apply omap_app. Qed.

Lemma count_chars_app (tr1 tr2 : list event) :
  count_chars (tr1 ++ tr2) = count_chars tr1 + count_chars tr2.
Proof. unfold count_chars. rewrite typed_chars_app. apply length_app. Qed.

Lemma has_enter_app (tr1 tr2 : list event) :
  has_enter (tr1 ++ tr2) = has_enter tr1 || has_enter tr2.
Proof. apply existsb_app. Qed.

Lemma count_done_app (tr1 tr2 : list event) :
  count_done (tr1 ++ tr2) = count_done tr1 + count_done tr2.
Proof. unfold count_done. rewrite List.filter_app. apply length_app. Qed.

(** *** The worker always comes to its end *)

Lemma step_worker_exit (s : state) : at_pc s = PExit → step_worker w ss s = s.
Proof. intros H. unfold step_worker. rewrite H. reflexivity. Qed.

Lemma step_worker_fuel (s : state) :
  at_pc s ≠ PExit →
  fuel ss (at_pc (step_worker w ss s)) < fuel ss (at_pc s).
Proof.
  destruct s as [e p x o c]. intros Hp.
  unfold step_worker, sleep, call, raise, goto, emit, with_eng.
  destruct p; cbn -[Nat.mul] in *; try congruence;
    repeat case_match; cbn -[Nat.mul]; lia.
Qed.

Lemma step_caller_at_pc (s : state) : at_pc (step_caller s) = at_pc s.
Proof. unfold step_caller. destruct (caller s); reflexivity. Qed.

Lemma run_exits (sched : list thread) (s : state) :
  fuel ss (at_pc s) ≤ worker_steps sched →
  at_pc (run w ss sched s) = PExit.
Proof.
  revert s. induction sched as [|th sched IH]; intros s Hf.
  - cbn in Hf. destruct (at_pc s) eqn:E; cbn in Hf; try lia. exact E.
  - rewrite run_cons. apply IH. destruct th; cbn [step].
    + cbn in Hf.
      assert (at_pc s = PExit ∨ at_pc s ≠ PExit) as [He|Hne]
        by (destruct (at_pc s); (by left) || (by right)).
      * rewrite step_worker_exit by exact He. rewrite He. cbn. lia.
      * pose proof (step_worker_fuel s Hne). unfold worker_steps. lia.
    + rewrite step_caller_at_pc. exact Hf.
Qed.

(** *** The [finally] block *)

Lemma done_inv_step_worker (s : state) :
  done_inv ss s → done_inv ss (step_worker w ss s).
Proof.
  destruct s as [e p x o c].
  unfold done_inv, step_worker, sleep, call, raise, goto, emit, with_eng,
    done_events.
  unfold count_done.
  destruct p; cbn; intros H;
    repeat case_match; cbn; rewrite ?List.filter_app, ?length_app; cbn;
    try lia; try done.
  - split; [tauto|]. exists o. split; [done | tauto].
  - split; [tauto|]. exists o. split; [by rewrite app_nil_r | tauto].
Qed.

Lemma done_inv_step_caller (s : state) :
  done_inv ss s → done_inv ss (step_caller s).
Proof.
  destruct s as [e p x o c].
  unfold done_inv, step_caller, with_caller, with_eng.
  destruct c, p; cbn; tauto.
Qed.

Lemma done_inv_run (sched : list thread) (s : state) :
  done_inv ss s → done_inv ss (run w ss sched s).
Proof.
  revert s. induction sched as [|th sched IH]; intros s H; [exact H|].
  rewrite run_cons. apply IH. destruct th; cbn [step].
  - apply done_inv_step_worker, H.
  - apply done_inv_step_caller, H.
Qed.

(** *** Before and after [stop()] *)

Lemma before_stop_step_worker (s : state) :
  before_stop ss s → before_stop ss (step_worker w ss s).
Proof.
  destruct s as [e p x o c].
  unfold before_stop, step_worker, sleep, call, raise, goto, emit, with_eng,
    count_chars, typed_chars, has_enter.
  destruct p; cbn; intros (Hs & Hc & Hpos & Hent);
    rewrite ?Hs; repeat case_match; cbn;
    rewrite ?omap_app, ?length_app, ?existsb_app; cbn;
    rewrite ?orb_false_r;
    (split; [first [exact Hs | reflexivity]|]); (split; [exact Hc|]);
    (split; [intros Hin; try discriminate Hin; try specialize (Hpos eq_refl);
             cbn in *; try lia
            | intros Hor; try (apply Hent; tauto)]).
  all: try (specialize (Hpos eq_refl); cbn in *;
            destruct Hor as [Hor|Hor]; try discriminate Hor; try lia;
            try (rewrite Hent by tauto; lia)).
  all: try (rewrite Nat.add_0_r; apply Hent; tauto).
  all: pose proof (Hent (or_introl Hor)); lia.
Qed.

Lemma after_stop_step_worker (n : nat) (s : state) :
  after_stop n s → after_stop n (step_worker w ss s).
Proof.
  destruct s as [e p x o c].
  unfold after_stop, step_worker, sleep, call, raise, goto, emit, with_eng,
    count_chars, typed_chars, has_enter.
  destruct p; cbn; intros (Hs & Hent & Hpr & Hn & Hty);
    try discriminate Hpr;
    rewrite ?Hs; cbn [negb]; rewrite ?andb_false_r; repeat case_match; cbn;
    rewrite ?omap_app, ?length_app, ?existsb_app; cbn;
    rewrite ?orb_false_r, ?Nat.add_0_r;
    (split; [first [exact Hs | reflexivity]|]); (split; [exact Hent|]);
    (split; [reflexivity|]);
    (split; [try lia | intros Hin; try discriminate Hin]).
  all: try (cbn in Hty; specialize (Hty eq_refl); lia).
Qed.

End Worker.

(** C3: whatever raises in the worker and whenever [stop()] is called,
    the worker reaches its end, and there [is_typing] is false and
    [on_done], when given, has been called exactly once, as the last thing
    the worker did; before the end it has not been called. *)
Theorem worker_always_finalizes (w : TyperEngine.World) (e : TyperEngine.t)
    (text : string) (press_enter : option bool) (delay_before : option Q)
    (on_char on_done : bool) (sched : list TyperEngine.thread) :
  let es := TyperEngine.type_text e text press_enter delay_before on_char on_done in
  let s := TyperEngine.run w es.2 sched (TyperEngine.spawn es) in
  (4 * String.length text + 11 ≤ TyperEngine.worker_steps sched →
     TyperEngine.at_pc s = TyperEngine.PExit)
  ∧ (TyperEngine.at_pc s = TyperEngine.PExit →
       TyperEngine.is_typing (TyperEngine.eng s) = false
       ∧ TyperEngine.count_done (TyperEngine.out s) = (if on_done then 1 else 0)
       ∧ (on_done = true → last (TyperEngine.out s) = Some TyperEngine.OnDone))
  ∧ (TyperEngine.at_pc s ≠ TyperEngine.PExit →
       TyperEngine.count_done (TyperEngine.out s) = 0).
Proof.
  intros es s.
  assert (TyperEngine.done_inv es.2 s) as Hinv.
  { apply done_inv_run. cbn. reflexivity. }
  split; [|split].
  - intros Hsteps. apply run_exits. exact Hsteps.
  - intros Hexit. unfold TyperEngine.done_inv in Hinv. rewrite Hexit in Hinv.
    destruct Hinv as [Ht [tr [Hout Hcount]]].
    split; [exact Ht|]. rewrite Hout, count_done_app, Hcount.
    unfold TyperEngine.done_events; cbn.
    destruct on_done; cbn.
    + split; [reflexivity|]. intros _. apply last_snoc.
    + split; [reflexivity | discriminate].
  - intros Hne. unfold TyperEngine.done_inv in Hinv.
    destruct (TyperEngine.at_pc s); try exact Hinv; try tauto.
Qed.

Lemma worker_always_finalizes_witness :
  let es := TyperEngine.type_text TyperEngine.init "ab" None None true true in
  let s := TyperEngine.run (TyperEngine.failing_at 1) es.2
             (repeat TyperEngine.Worker 19) (TyperEngine.spawn es) in
  TyperEngine.is_typing (TyperEngine.eng s) = false
  ∧ TyperEngine.count_done (TyperEngine.out s) = 1
  ∧ TyperEngine.typed_chars (TyperEngine.out s) = ["a"%char].
Proof.
  intros es s.
  destruct (worker_always_finalizes (TyperEngine.failing_at 1) TyperEngine.init
              "ab" None None true true (repeat TyperEngine.Worker 19))
    as [Hexit [Hfin _]].
  assert (4 * String.length "ab" + 11
          ≤ TyperEngine.worker_steps (repeat TyperEngine.Worker 19)) as Hk
    by (vm_compute; lia).
  destruct (Hfin (Hexit Hk)) as [Ht [Hd _]].
  split; [exact Ht|]. split; [exact Hd|]. vm_compute. reflexivity.
Defined.

Lemma worker_steps_app (sched1 sched2 : list TyperEngine.thread) :
  TyperEngine.worker_steps (sched1 ++ sched2)
  = TyperEngine.worker_steps sched1 + TyperEngine.worker_steps sched2.
Proof.
  unfold TyperEngine.worker_steps. rewrite List.filter_app. apply length_app.
Qed.

Lemma worker_steps_repeat (k : nat) :
  TyperEngine.worker_steps (repeat TyperEngine.Worker k) = k.
Proof.
  unfold TyperEngine.worker_steps.
  induction k as [|k IH]; [reflexivity|]. cbn. rewrite IH. reflexivity.
Qed.

(** ** Other calls while the session is in flight *)
Section OpenRuns.
Import TyperEngine.
Variables (w : World) (ss : Session).

Lemma run_open_app (ms1 ms2 : list move) (s : state) :
  run_open w ss (ms1 ++ ms2) s = run_open w ss ms2 (run_open w ss ms1 s).
Proof. apply fold_left_app. Qed.

Lemma run_open_cons (m : move) (ms : list move) (s : state) :
  run_open w ss (m :: ms) s = run_open w ss ms (step_open w ss s m).
Proof. reflexivity. Qed.

Lemma work_steps_app (ms1 ms2 : list move) :
  work_steps (ms1 ++ ms2) = work_steps ms1 + work_steps ms2.
Proof. unfold work_steps. rewrite List.filter_app. apply length_app. Qed.

Lemma work_steps_repeat (k : nat) : work_steps (repeat Work k) = k.
Proof.
  unfold work_steps. induction k as [|k IH]; [reflexivity|].
  cbn. rewrite IH. reflexivity.
Qed.

(** A call of a method changes fields of the engine and nothing else. *)
Lemma step_open_at_pc (m : move) (s : state) :
  is_work m = false → at_pc (step_open w ss s m) = at_pc s.
Proof. intros Hm. destruct m; try discriminate Hm; reflexivity. Qed.

Lemma step_open_out (m : move) (s : state) :
  is_work m = false → out (step_open w ss s m) = out s.
Proof. intros Hm. destruct m; try discriminate Hm; reflexivity. Qed.

Lemma step_open_flag (m : move) (s : state) :
  is_work m = false →
  _stop (eng (step_open w ss s m))
  = if sets_flag m then true
    else if clears_flag m then false else _stop (eng s).
Proof. intros Hm. destruct m; try discriminate Hm; reflexivity. Qed.

Lemma run_open_exits (ms : list move) (s : state) :
  fuel ss (at_pc s) ≤ work_steps ms →
  at_pc (run_open w ss ms s) = PExit.
Proof.
  revert s. induction ms as [|m ms IH]; intros s Hf.
  - cbn in Hf. destruct (at_pc s) eqn:E; cbn in Hf; try lia. exact E.
  - rewrite run_open_cons. apply IH.
    destruct (is_work m) eqn:Hm.
    + destruct m; try discriminate Hm. cbn [step_open]. cbn in Hf.
      assert (at_pc s = PExit ∨ at_pc s ≠ PExit) as [He|Hne]
        by (destruct (at_pc s); (by left) || (by right)).
      * rewrite step_worker_exit by exact He. rewrite He. cbn. lia.
      * pose proof (step_worker_fuel w ss s Hne). unfold work_steps. lia.
    + rewrite step_open_at_pc by exact Hm.
      unfold work_steps in *. cbn [List.filter] in Hf. rewrite Hm in Hf.
      exact Hf.
Qed.

(** While nobody sets the flag, it stays clear. *)
Lemma before_stop_run_open (ms : list move) (s : state) :
  existsb sets_flag ms = false →
  before_stop ss s → before_stop ss (run_open w ss ms s).
Proof.
  revert s. induction ms as [|m ms IH]; intros s Hms H; [exact H|].
  cbn [existsb] in Hms. apply orb_false_iff in Hms as [Hm Hms].
  rewrite run_open_cons. apply IH; [exact Hms|].
  destruct m; try discriminate Hm; cbn [step_open];
    try (apply before_stop_step_worker; exact H);
    destruct s as [e p x o c]; revert H; unfold before_stop, with_eng; cbn;
    tauto.
Qed.

(** While no [type_text] clears the flag, it stays set. *)
Lemma after_stop_run_open (n : nat) (ms : list move) (s : state) :
  existsb clears_flag ms = false →
  after_stop n s → after_stop n (run_open w ss ms s).
Proof.
  revert s. induction ms as [|m ms IH]; intros s Hms H; [exact H|].
  cbn [existsb] in Hms. apply orb_false_iff in Hms as [Hm Hms].
  rewrite run_open_cons. apply IH; [exact Hms|].
  destruct m; try discriminate Hm; cbn [step_open];
    try (apply after_stop_step_worker; exact H);
    destruct s as [e p x o c]; revert H; unfold after_stop, with_eng; cbn;
    tauto.
Qed.

Lemma stop_set_open_establishes (s : state) :
  before_stop ss s →
  count_chars (out s) < String.length (s_text ss) →
  after_stop (count_chars (out s)) (step_open w ss s StopSet).
Proof.
  destruct s as [e p x o c].
  unfold before_stop, after_stop, step_open, with_eng, count_chars, has_enter.
  cbn. intros (Hs & Hc & Hpos & Hent) Hlt.
  split; [reflexivity|].
  split; [|split; [|split; [lia | reflexivity]]].
  - destruct (existsb is_enter o); [|reflexivity].
    specialize (Hent (or_introl eq_refl)). lia.
  - destruct (pressing_enter p); [|reflexivity].
    specialize (Hent (or_intror eq_refl)). lia.
Qed.

Lemma step_worker_is_typing (s : state) :
  is_typing (eng s) = false → is_typing (eng (step_worker w ss s)) = false.
Proof.
  destruct s as [e p x o c].
  unfold step_worker, sleep, call, raise, goto, emit, with_eng.
  destruct p; cbn [at_pc eng]; intros H; repeat case_match;
    first [exact H | reflexivity].
Qed.

(** Only [type_text] sets [is_typing]. *)
Lemma is_typing_false_run_open (ms : list move) (s : state) :
  existsb sets_typing ms = false →
  is_typing (eng s) = false → is_typing (eng (run_open w ss ms s)) = false.
Proof.
  revert s. induction ms as [|m ms IH]; intros s Hms H; [exact H|].
  cbn [existsb] in Hms. apply orb_false_iff in Hms as [Hm Hms].
  rewrite run_open_cons. apply IH; [exact Hms|].
  destruct m; try discriminate Hm; cbn [step_open];
    first [by apply step_worker_is_typing | exact H | reflexivity].
Qed.

Lemma step_worker_with_caller (c : caller_pc) (s : state) :
  step_worker w ss (with_caller c s) = with_caller c (step_worker w ss s).
Proof.
  destruct s as [e p x o c0].
  unfold step_worker, sleep, call, raise, goto, emit, with_eng, with_caller.
  destruct p; cbn [at_pc eng out exc caller]; repeat case_match; reflexivity.
Qed.

(** A schedule of the worker and one caller of [stop()] is a run of the
    open machine: the same engine, control point and trace. *)
Lemma run_is_run_open (sched : list thread) (s : state) :
  with_caller CIdle (run w ss sched s)
  = with_caller CIdle (run_open w ss (moves_of (caller s) sched) s).
Proof.
  revert s. induction sched as [|th sched IH]; intros s; [reflexivity|].
  rewrite run_cons. destruct th; cbn [step moves_of].
  - rewrite run_open_cons. cbn [step_open]. rewrite IH.
    replace (caller (step_worker w ss s)) with (caller s); [reflexivity|].
    destruct s as [e p x o c].
    unfold step_worker, sleep, call, raise, goto, emit, with_eng.
    destruct p; cbn [at_pc eng out exc caller]; repeat case_match; reflexivity.
  - rewrite IH. unfold step_caller.
    destruct (caller s) eqn:Hc; cbn [caller with_caller];
      rewrite ?run_open_cons; cbn [step_open].
    + assert (∀ ms s1 s2, with_caller CIdle s1 = with_caller CIdle s2 →
                with_caller CIdle (run_open w ss ms s1)
                = with_caller CIdle (run_open w ss ms s2)) as Hsame.
      { clear. intros ms. induction ms as [|m ms IHms]; intros s1 s2 H;
          [exact H|].
        rewrite !run_open_cons. apply IHms.
        destruct s1 as [e1 p1 x1 o1 c1], s2 as [e2 p2 x2 o2 c2].
        unfold with_caller in H. cbn in H. injection H as -> -> -> ->.
        destruct m; cbn [step_open]; try reflexivity.
        change (mkState e2 p2 x2 o2 c1) with
          (with_caller c1 (mkState e2 p2 x2 o2 c2)).
        rewrite step_worker_with_caller. reflexivity. }
      apply Hsame. reflexivity.
    + assert (∀ ms s1 s2, with_caller CIdle s1 = with_caller CIdle s2 →
                with_caller CIdle (run_open w ss ms s1)
                = with_caller CIdle (run_open w ss ms s2)) as Hsame.
      { clear. intros ms. induction ms as [|m ms IHms]; intros s1 s2 H;
          [exact H|].
        rewrite !run_open_cons. apply IHms.
        destruct s1 as [e1 p1 x1 o1 c1], s2 as [e2 p2 x2 o2 c2].
        unfold with_caller in H. cbn in H. injection H as -> -> -> ->.
        destruct m; cbn [step_open]; try reflexivity.
        change (mkState e2 p2 x2 o2 c1) with
          (with_caller c1 (mkState e2 p2 x2 o2 c2)).
        rewrite step_worker_with_caller. reflexivity. }
      apply Hsame. reflexivity.
    + rewrite Hc. reflexivity.
Qed.

End OpenRuns.

(** C2: when [stop()] sets the flag, for the first time, after [n]
    characters were typed and before the next one, [n] being less than the
    length of the text, and [type_text] is not called again while the
    session is in flight, the session types [n] or [n + 1] characters in
    all and never presses Enter, whatever else is called meanwhile and
    however the threads take turns; it comes to its end; [is_typing] is
    false as soon as the second assignment of [stop()] is done, whether or
    not the worker has taken a step in between, and stays false. *)
Theorem stop_mid_session (w : TyperEngine.World) (e : TyperEngine.t)
    (text : string) (press_enter : option bool) (delay_before : option Q)
    (on_char on_done : bool) (pre post : list TyperEngine.move) :
  let es := TyperEngine.type_text e text press_enter delay_before on_char on_done in
  let s1 := TyperEngine.run_open w es.2 pre (TyperEngine.spawn es) in
  let n := TyperEngine.count_chars (TyperEngine.out s1) in
  existsb TyperEngine.sets_flag pre = false →
  n < String.length text →
  existsb TyperEngine.clears_flag post = false →
  let s := TyperEngine.run_open w es.2 (pre ++ TyperEngine.StopSet :: post)
             (TyperEngine.spawn es) in
  (TyperEngine.count_chars (TyperEngine.out s) = n
   ∨ TyperEngine.count_chars (TyperEngine.out s) = S n)
  ∧ TyperEngine.has_enter (TyperEngine.out s) = false
  ∧ (4 * String.length text + 11 ≤ TyperEngine.work_steps (pre ++ post) →
       TyperEngine.at_pc s = TyperEngine.PExit)
  ∧ TyperEngine.is_typing
      (TyperEngine.eng
         (TyperEngine.run_open w es.2
            [TyperEngine.StopSet; TyperEngine.StopClearTyping] s1))
    = false
  ∧ (∀ post1 post2,
       post = post1 ++ TyperEngine.StopClearTyping :: post2 →
       existsb TyperEngine.sets_typing post2 = false →
       TyperEngine.is_typing (TyperEngine.eng s) = false).
Proof.
  intros es s1 n Hpre Hn Hpost s.
  assert (TyperEngine.before_stop es.2 s1) as Hbefore.
  { apply before_stop_run_open; [exact Hpre|]. cbn.
    repeat split; try reflexivity. intros [H|H]; discriminate H. }
  assert (s = TyperEngine.run_open w es.2 post
                (TyperEngine.step_open w es.2 s1 TyperEngine.StopSet)) as Hs.
  { unfold s. rewrite run_open_app, run_open_cons. reflexivity. }
  assert (TyperEngine.after_stop n s) as Hafter.
  { rewrite Hs. apply after_stop_run_open; [exact Hpost|].
    apply (stop_set_open_establishes w es.2); assumption. }
  destruct Hafter as (_ & Hent & _ & Hcount & _).
  split; [lia|]. split; [exact Hent|]. split; [|split].
  - intros Hk. apply run_open_exits. cbn -[Nat.mul].
    rewrite work_steps_app in *. cbn -[Nat.mul]. exact Hk.
  - reflexivity.
  - intros post1 post2 Hsplit Hty. rewrite Hs, Hsplit.
    rewrite run_open_app, run_open_cons.
    apply is_typing_false_run_open; [exact Hty | reflexivity].
Qed.

Lemma stop_mid_session_witness :
  let es := TyperEngine.type_text TyperEngine.init "ab" None None false true in
  let s := TyperEngine.run_open TyperEngine.quiet es.2
             (repeat TyperEngine.Work 3 ++ TyperEngine.StopSet
                :: TyperEngine.StopClearTyping
                :: TyperEngine.SetSpeed "Slow" :: repeat TyperEngine.Work 16)
             (TyperEngine.spawn es) in
  (TyperEngine.count_chars (TyperEngine.out s) = 0
   ∨ TyperEngine.count_chars (TyperEngine.out s) = 1)
  ∧ TyperEngine.has_enter (TyperEngine.out s) = false
  ∧ TyperEngine.at_pc s = TyperEngine.PExit
  ∧ TyperEngine.is_typing (TyperEngine.eng s) = false.
Proof.
  intros es s.
  destruct (stop_mid_session TyperEngine.quiet TyperEngine.init "ab" None None
              false true (repeat TyperEngine.Work 3)
              (TyperEngine.StopClearTyping :: TyperEngine.SetSpeed "Slow"
                 :: repeat TyperEngine.Work 16))
    as (Hcount & Hent & Hexit & _ & Hret);
    [reflexivity | vm_compute; lia | reflexivity |].
  split; [exact Hcount|]. split; [exact Hent|].
  split; [apply Hexit; vm_compute; lia|].
  apply (Hret [] (TyperEngine.SetSpeed "Slow" :: repeat TyperEngine.Work 16));
    reflexivity.
Defined.

(** The claim C2 as the specification states it, of every session in
    flight, fails: [type_text] clears the one flag of the engine, so a call
    of [type_text] after [stop()] lets the session that [stop()] was meant
    to end type on. Below, the flag is set with no character typed; the
    session types both characters of its text and presses Enter. *)
Lemma type_text_revives_a_stopped_session :
  ¬ (∀ (w : TyperEngine.World) (e : TyperEngine.t) (text : string)
       (press_enter : option bool) (delay_before : option Q)
       (on_char on_done : bool) (pre post : list TyperEngine.move),
       let es := TyperEngine.type_text e text press_enter delay_before
                   on_char on_done in
       let s1 := TyperEngine.run_open w es.2 pre (TyperEngine.spawn es) in
       let n := TyperEngine.count_chars (TyperEngine.out s1) in
       existsb TyperEngine.sets_flag pre = false →
       n < String.length text →
       let s := TyperEngine.run_open w es.2
                  (pre ++ TyperEngine.StopSet :: post) (TyperEngine.spawn es) in
       (TyperEngine.count_chars (TyperEngine.out s) = n
        ∨ TyperEngine.count_chars (TyperEngine.out s) = S n)
       ∧ TyperEngine.has_enter (TyperEngine.out s) = false).
Proof.
  intros H.
  specialize (H TyperEngine.quiet TyperEngine.init "ab" None None false true
                (repeat TyperEngine.Work 2)
                ([TyperEngine.StopClearTyping; TyperEngine.TypeTextClear;
                  TyperEngine.TypeTextTyping] ++ repeat TyperEngine.Work 20)
                eq_refl).
  cbv zeta in H. vm_compute in H.
  destruct H as [_ He]; [lia|]. discriminate He.
Qed.

(** The two outcomes, and the case the property leaves out: a flag set
    after the last character and after the test that precedes Enter does
    not hold Enter back. *)
Example stop_after_the_test_types_one_more :
  let es := TyperEngine.type_text TyperEngine.init "ab" None None false true in
  let sched k := repeat TyperEngine.Worker k ++ TyperEngine.Caller
                   :: TyperEngine.Caller :: repeat TyperEngine.Worker 19 in
  let typed k := TyperEngine.typed_chars (TyperEngine.out
                   (TyperEngine.run TyperEngine.quiet es.2 (sched k)
                      (TyperEngine.spawn es))) in
  let enter k := TyperEngine.has_enter (TyperEngine.out
                   (TyperEngine.run TyperEngine.quiet es.2 (sched k)
                      (TyperEngine.spawn es))) in
  typed 2 = [] ∧ typed 3 = ["a"%char] ∧ typed 4 = ["a"%char]
  ∧ enter 4 = false ∧ typed 11 = ["a"; "b"]%char ∧ enter 11 = false
  ∧ typed 12 = ["a"; "b"]%char ∧ enter 12 = true.
Proof. vm_compute. repeat split; reflexivity. Qed.

(** ** A session that nothing disturbs *)
Section Undisturbed.
Import TyperEngine Keyboard.
Variables (w : World) (ss : Session).
Hypothesis quiet_world : ∀ p, raises w p = false.

Lemma run_repeat_add (a b : nat) (s : state) :
  run w ss (repeat Worker (a + b)) s
  = run w ss (repeat Worker b) (run w ss (repeat Worker a) s).
Proof. rewrite repeat_app. apply run_app. Qed.

Lemma run_at_exit (k : nat) (s : state) :
  at_pc s = PExit → run w ss (repeat Worker k) s = s.
Proof.
  intros H. induction k as [|k IH]; [reflexivity|].
  cbn [repeat]. rewrite run_cons. cbn [step].
  rewrite step_worker_exit by exact H. exact IH.
Qed.

Lemma step_sleep (p next : pc) (d : Q) (e : t) (x : bool) (o : list event)
    (c : caller_pc) :
  (0 <= d)%Q →
  sleep w p d next (mkState e p x o c) = mkState e next x (o ++ [Sleep d]) c.
Proof.
  intros Hd. unfold sleep, call. apply Qle_bool_iff in Hd.
  rewrite Hd, quiet_world. reflexivity.
Qed.

Lemma step_call (p next : pc) (evs : list event) (e : t) (x : bool)
    (o : list event) (c : caller_pc) :
  call w p evs next (mkState e p x o c) = mkState e next x (o ++ evs) c.
Proof. unfold call. rewrite quiet_world. reflexivity. Qed.

(** One turn of the loop: test, type, callback, sleep. *)
Lemma run_one_char (i : nat) (char : ascii) (rest : string) (e : t) (x : bool)
    (o : list event) (c : caller_pc) :
  _stop e = false →
  humanize e = true ∨ (0.003 <= base_delay e)%Q →
  run w ss (repeat Worker 4) (mkState e (PLoop i (String char rest)) x o c)
  = mkState e (PLoop (S i) rest) x (o ++ char_events w ss e i char) c.
Proof.
  intros Hs Hfloor.
  assert (0 <= keystroke_delay e char (random w i))%Q as Hd.
  { eapply Qle_trans; [|apply keystroke_delay_floor, Hfloor].
    vm_compute. discriminate. }
  cbn [repeat]. rewrite !run_cons. cbn [run fold_left step].
  unfold step_worker at 4. cbn [at_pc eng]. rewrite Hs.
  unfold goto; cbn [eng at_pc exc out caller].
  unfold step_worker at 3. cbn [at_pc]. rewrite step_call.
  unfold step_worker at 2. cbn [at_pc].
  unfold char_events.
  destruct (s_on_char ss).
  - rewrite step_call. unfold step_worker. cbn [at_pc eng].
    rewrite step_sleep by exact Hd. rewrite <- !app_assoc. reflexivity.
  - unfold goto; cbn [eng at_pc exc out caller].
    unfold step_worker. cbn [at_pc eng].
    rewrite step_sleep by exact Hd. rewrite <- !app_assoc. reflexivity.
Qed.

Lemma run_loop (rest : string) :
  ∀ (i : nat) (e : t) (x : bool) (o : list event) (c : caller_pc),
    _stop e = false →
    humanize e = true ∨ (0.003 <= base_delay e)%Q →
    run w ss (repeat Worker (4 * String.length rest + 1))
        (mkState e (PLoop i rest) x o c)
    = mkState e PEnterTest x (o ++ loop_events w ss e i rest) c.
Proof.
  induction rest as [|char rest IH]; intros i e x o c Hs Hfloor.
  - cbn. rewrite app_nil_r. reflexivity.
  - replace (4 * String.length (String char rest) + 1)
      with (4 + (4 * String.length rest + 1)) by (cbn [String.length]; lia).
    rewrite run_repeat_add, run_one_char by assumption.
    rewrite IH by assumption. cbn [loop_events].
    rewrite app_assoc. reflexivity.
Qed.

(** From the start of the thread to the loop. *)
Lemma run_prologue (e : t) :
  (0 <= s_delay_before ss)%Q →
  ∃ k, k ≤ 4
       ∧ run w ss (repeat Worker k) (spawn (e, ss))
         = mkState e (PLoop 0 (s_text ss)) false
                   (Sleep (s_delay_before ss) :: caps_events w) CIdle.
Proof.
  intros Hd. unfold spawn, caps_events. cbn [fst].
  destruct (caps_lock_state w) as [[|]|] eqn:Hcaps.
  - exists 4. split; [lia|]. cbn [repeat]. rewrite !run_cons.
    cbn [run fold_left step].
    unfold step_worker at 4. cbn [at_pc]. rewrite step_sleep by exact Hd.
    unfold step_worker at 3. cbn [at_pc]. rewrite Hcaps.
    unfold goto; cbn [eng at_pc exc out caller].
    unfold step_worker at 2. cbn [at_pc]. rewrite step_call.
    unfold step_worker. cbn [at_pc]. rewrite step_call.
    reflexivity.
  - exists 2. split; [lia|]. cbn [repeat]. rewrite !run_cons.
    cbn [run fold_left step].
    unfold step_worker at 2. cbn [at_pc]. rewrite step_sleep by exact Hd.
    unfold step_worker. cbn [at_pc]. rewrite Hcaps. reflexivity.
  - exists 2. split; [lia|]. cbn [repeat]. rewrite !run_cons.
    cbn [run fold_left step].
    unfold step_worker at 2. cbn [at_pc]. rewrite step_sleep by exact Hd.
    unfold step_worker. cbn [at_pc]. rewrite Hcaps. reflexivity.
Qed.

(** From the end of the loop to the end of the thread. *)
Lemma run_epilogue (e : t) (x : bool) (o : list event) (c : caller_pc) :
  _stop e = false →
  ∃ k, k ≤ 6
       ∧ run w ss (repeat Worker k) (mkState e PEnterTest x o c)
         = mkState (set_is_typing false e) PExit x
                   (o ++ enter_events ss ++ done_events ss) c.
Proof.
  intros Hs. unfold enter_events, done_events.
  assert (0 <= 0.08)%Q as H8 by (vm_compute; discriminate).
  destruct (s_press_enter ss) eqn:Hpe.
  - exists 6. split; [lia|]. cbn [repeat]. rewrite !run_cons.
    cbn [run fold_left step].
    unfold step_worker at 6. cbn [at_pc eng]. rewrite Hpe, Hs.
    cbn [negb andb]. unfold goto; cbn [eng at_pc exc out caller].
    unfold step_worker at 5. cbn [at_pc]. rewrite step_sleep by exact H8.
    unfold step_worker at 4. cbn [at_pc]. rewrite step_call.
    unfold step_worker at 3. cbn [at_pc]. rewrite step_call.
    unfold step_worker at 2. cbn [at_pc].
    unfold goto, with_eng; cbn [eng at_pc exc out caller].
    unfold step_worker. cbn [at_pc].
    destruct (s_on_done ss); unfold goto, emit; cbn [eng at_pc exc out caller];
      rewrite <- ?app_assoc; cbn [app]; rewrite ?app_nil_r; reflexivity.
  - exists 3. split; [lia|]. cbn [repeat]. rewrite !run_cons.
    cbn [run fold_left step].
    unfold step_worker at 3. cbn [at_pc eng]. rewrite Hpe.
    cbn [negb andb]. unfold goto; cbn [eng at_pc exc out caller].
    unfold step_worker at 2. cbn [at_pc].
    unfold goto, with_eng; cbn [eng at_pc exc out caller].
    unfold step_worker. cbn [at_pc].
    destruct (s_on_done ss); unfold goto, emit; cbn [eng at_pc exc out caller];
      cbn [app]; rewrite ?app_nil_r; reflexivity.
Qed.

Lemma run_undisturbed (e : t) (k : nat) :
  _stop e = false →
  (0 <= s_delay_before ss)%Q →
  humanize e = true ∨ (0.003 <= base_delay e)%Q →
  4 * String.length (s_text ss) + 11 ≤ k →
  run w ss (repeat Worker k) (spawn (e, ss))
  = mkState (set_is_typing false e) PExit false
            (body_events w ss e ++ enter_events ss ++ done_events ss) CIdle.
Proof.
  intros Hs Hd Hfloor Hk.
  destruct (run_prologue e Hd) as [k1 [Hk1 Hpro]].
  destruct (run_epilogue e false
              ((Sleep (s_delay_before ss) :: caps_events w)
               ++ loop_events w ss e 0 (s_text ss)) CIdle Hs)
    as [k3 [Hk3 Hepi]].
  replace k with (k1 + ((4 * String.length (s_text ss) + 1)
                        + (k3 + (k - k1 - (4 * String.length (s_text ss) + 1) - k3))))
    by lia.
  rewrite run_repeat_add, Hpro.
  rewrite run_repeat_add, run_loop by assumption.
  rewrite run_repeat_add, Hepi.
  rewrite run_at_exit by reflexivity.
  unfold body_events. reflexivity.
Qed.

(** *** Reading the trace of such a session *)

Lemma typed_chars_loop (e : t) (rest : string) (i : nat) :
  typed_chars (loop_events w ss e i rest) = list_ascii_of_string rest.
Proof.
  revert i. induction rest as [|char rest IH]; intros i; [reflexivity|].
  cbn [loop_events list_ascii_of_string]. rewrite typed_chars_app, IH.
  unfold char_events. destruct (s_on_char ss); reflexivity.
Qed.

Lemma typed_chars_caps : typed_chars (caps_events w) = [].
Proof. unfold caps_events. destruct (caps_lock_state w) as [[|]|]; reflexivity. Qed.

Lemma typed_chars_tail :
  typed_chars (enter_events ss ++ done_events ss) = [].
Proof.
  unfold enter_events, done_events.
  destruct (s_press_enter ss), (s_on_done ss); reflexivity.
Qed.

Lemma typed_chars_body (e : t) :
  typed_chars (body_events w ss e) = list_ascii_of_string (s_text ss).
Proof.
  unfold body_events. change (Sleep (s_delay_before ss) :: ?l) with ([Sleep (s_delay_before ss)] ++ l).
  rewrite !typed_chars_app, typed_chars_caps, typed_chars_loop. reflexivity.
Qed.

Lemma body_has_no_enter_or_done (e : t) :
  Forall (λ ev, is_enter ev = false ∧ is_done ev = false) (body_events w ss e).
Proof.
  unfold body_events. apply Forall_cons. split; [by split|].
  apply Forall_app. split.
  - unfold caps_events. destruct (caps_lock_state w) as [[|]|];
      repeat constructor.
  - generalize 0. induction (s_text ss) as [|char rest IH]; intros i.
    + constructor.
    + cbn [loop_events]. apply Forall_app. split; [|apply IH].
      unfold char_events. destruct (s_on_char ss); repeat constructor.
Qed.

Lemma gaps_from_no_char (acc : option Q) (tr : list event) :
  typed_chars tr = [] → gaps_from acc tr = [].
Proof.
  revert acc. induction tr as [|ev tr IH]; intros acc H; [reflexivity|].
  destruct ev; cbn in *; try discriminate H; apply IH; exact H.
Qed.

Lemma gaps_from_loop (e : t) (tail : list event) (rest : string) :
  typed_chars tail = [] →
  humanize e = true ∨ (0.003 <= base_delay e)%Q →
  ∀ i a, (0.003 <= a)%Q →
    Forall (λ d, (0.003 <= d)%Q)
           (gaps_from (Some a) (loop_events w ss e i rest ++ tail))
    ∧ List.length (gaps_from (Some a) (loop_events w ss e i rest ++ tail))
      = String.length rest.
Proof.
  intros Htail Hfloor.
  induction rest as [|char rest IH]; intros i a Ha.
  - cbn [loop_events app]. rewrite gaps_from_no_char by exact Htail.
    split; [constructor | reflexivity].
  - cbn [loop_events]. unfold char_events.
    assert (0.003 <= 0 + keystroke_delay e char (random w i))%Q as Hd.
    { rewrite Qplus_0_l. apply keystroke_delay_floor, Hfloor. }
    destruct (IH (S i) _ Hd) as [Hall Hlen].
    destruct (s_on_char ss);
      cbn [app gaps_from option_map String.length List.length];
      (split; [constructor; [exact Ha | exact Hall] | by rewrite Hlen]).
Qed.

Lemma gaps_of_session (e : t) :
  humanize e = true ∨ (0.003 <= base_delay e)%Q →
  let tr := body_events w ss e ++ enter_events ss ++ done_events ss in
  Forall (λ d, (0.003 <= d)%Q) (gaps tr)
  ∧ List.length (gaps tr) = String.length (s_text ss) - 1.
Proof.
  intros Hfloor tr. subst tr. unfold gaps, body_events.
  cbn [app gaps_from option_map]. rewrite <- app_assoc.
  assert (∀ l, gaps_from None (caps_events w ++ l) = gaps_from None l) as ->.
  { intros l. unfold caps_events.
    destruct (caps_lock_state w) as [[|]|]; reflexivity. }
  destruct (s_text ss) as [|char rest].
  - cbn [loop_events app]. rewrite gaps_from_no_char by apply typed_chars_tail.
    split; [constructor | reflexivity].
  - cbn [loop_events]. unfold char_events.
    assert (0.003 <= 0 + keystroke_delay e char (random w 0))%Q as Hd.
    { rewrite Qplus_0_l. apply keystroke_delay_floor, Hfloor. }
    destruct (gaps_from_loop e _ rest typed_chars_tail Hfloor 1 _ Hd)
      as [Hall Hlen].
    destruct (s_on_char ss);
      cbn [app gaps_from option_map String.length List.length];
      rewrite <- ?app_assoc;
      (split; [exact Hall | rewrite Hlen; lia]).
Qed.

End Undisturbed.

(** C1: a session that is not cancelled and in which no call raises,
    started with a delay that is not negative on an engine whose delays are
    floored or whose base delay is at least 0.003, comes to its end having
    typed the characters of the text, all of them and in their order; the
    time slept between two consecutive characters is at least 0.003; the
    trace ends with one press and release of Enter exactly when
    [press_enter] is set, and then with the one call of [on_done], neither
    occurring earlier; and [is_typing] is false. This holds for every text,
    the empty one included. *)
Theorem undisturbed_session (w : TyperEngine.World) (e : TyperEngine.t)
    (text : string) (press_enter : bool) (delay_before : Q)
    (on_char on_done : bool) (k : nat) :
  (∀ p, TyperEngine.raises w p = false) →
  (0 <= delay_before)%Q →
  TyperEngine.humanize e = true ∨ (0.003 <= TyperEngine.base_delay e)%Q →
  4 * String.length text + 11 ≤ k →
  let es := TyperEngine.type_text e text (Some press_enter) (Some delay_before)
              on_char on_done in
  let s := TyperEngine.run w es.2 (repeat TyperEngine.Worker k)
             (TyperEngine.spawn es) in
  TyperEngine.at_pc s = TyperEngine.PExit
  ∧ TyperEngine.exc s = false
  ∧ TyperEngine.is_typing (TyperEngine.eng s) = false
  ∧ TyperEngine.typed_chars (TyperEngine.out s) = list_ascii_of_string text
  ∧ TyperEngine.count_chars (TyperEngine.out s) = String.length text
  ∧ List.length (TyperEngine.gaps (TyperEngine.out s)) = String.length text - 1
  ∧ Forall (λ d, (0.003 <= d)%Q) (TyperEngine.gaps (TyperEngine.out s))
  ∧ ∃ body,
      TyperEngine.out s
      = body
        ++ (if press_enter
            then [TyperEngine.Sleep 0.08; TyperEngine.Press Keyboard.enter;
                  TyperEngine.Release Keyboard.enter]
            else [])
        ++ (if on_done then [TyperEngine.OnDone] else [])
      ∧ TyperEngine.typed_chars body = list_ascii_of_string text
      ∧ Forall (λ ev, TyperEngine.is_enter ev = false
                      ∧ TyperEngine.is_done ev = false) body.
Proof.
  intros Hquiet Hd Hfloor Hk es s.
  assert (s = TyperEngine.mkState (TyperEngine.set_is_typing false es.1)
                TyperEngine.PExit false
                (TyperEngine.body_events w es.2 es.1
                 ++ TyperEngine.enter_events es.2
                 ++ TyperEngine.done_events es.2) TyperEngine.CIdle) as Hs.
  { unfold s. apply run_undisturbed; try assumption. reflexivity. }
  assert (TyperEngine.humanize es.1 = true
          ∨ (0.003 <= TyperEngine.base_delay es.1)%Q) as Hfloor' by exact Hfloor.
  destruct (gaps_of_session w es.2 es.1 Hfloor') as [Hgaps Hlen].
  assert (TyperEngine.typed_chars (TyperEngine.out s) = list_ascii_of_string text)
    as Hchars.
  { rewrite Hs. cbn [TyperEngine.out].
    rewrite typed_chars_app, typed_chars_tail, app_nil_r.
    apply typed_chars_body. }
  rewrite Hs. cbn [TyperEngine.at_pc TyperEngine.exc TyperEngine.eng TyperEngine.out].
  rewrite Hs in Hchars. cbn [TyperEngine.out] in Hchars.
  split; [reflexivity|]. split; [reflexivity|]. split; [reflexivity|].
  split; [exact Hchars|].
  split.
  { unfold TyperEngine.count_chars. rewrite Hchars.
    clear. induction text as [|c t IH]; cbn; [reflexivity | by rewrite IH]. }
  split; [exact Hlen|]. split; [exact Hgaps|].
  exists (TyperEngine.body_events w es.2 es.1).
  split; [reflexivity|]. split.
  - apply typed_chars_body.
  - apply body_has_no_enter_or_done.
Qed.

Lemma undisturbed_session_witness :
  let es := TyperEngine.type_text TyperEngine.init "Hi" (Some true) (Some 0%Q)
              false true in
  let s := TyperEngine.run TyperEngine.quiet es.2
             (repeat TyperEngine.Worker 19) (TyperEngine.spawn es) in
  TyperEngine.typed_chars (TyperEngine.out s) = ["H"; "i"]%char
  ∧ Forall (λ d, (0.003 <= d)%Q) (TyperEngine.gaps (TyperEngine.out s))
  ∧ TyperEngine.is_typing (TyperEngine.eng s) = false.
Proof.
  intros es s.
  assert (∀ p, TyperEngine.raises TyperEngine.quiet p = false) as Hq
    by reflexivity.
  assert (0 <= 0)%Q as Hd by (vm_compute; discriminate).
  assert (TyperEngine.humanize TyperEngine.init = true
          ∨ (0.003 <= TyperEngine.base_delay TyperEngine.init)%Q) as Hf
    by (left; reflexivity).
  assert (4 * String.length "Hi" + 11 ≤ 19) as Hk by (vm_compute; lia).
  destruct (undisturbed_session TyperEngine.quiet TyperEngine.init "Hi" true 0
              false true 19 Hq Hd Hf Hk)
    as (_ & _ & Ht & Hc & _ & _ & Hg & _).
  split; [exact Hc|]. split; [exact Hg | exact Ht].
Defined.

(* ===================================================================== *)
(** * Part III: further properties of the code *)
(* ===================================================================== *)

(** ** Previews *)
Section Preview.
Import Models.

Lemma length_replace_newlines (s : string) :
  String.length (replace_newlines s) = String.length s.
Proof. induction s as [|c s IH]; cbn; [reflexivity | by rewrite IH]. Qed.

Lemma replace_newlines_no_newline (s : string) :
  newline ∉ list_ascii_of_string (replace_newlines s).
Proof.
  induction s as [|c s IH]; cbn [replace_newlines list_ascii_of_string].
  - apply not_elem_of_nil.
  - apply not_elem_of_cons. split; [|exact IH].
    destruct (Ascii.eqb_spec c newline) as [->|Hne]; [discriminate | congruence].
Qed.

Lemma length_string_append (s1 s2 : string) :
  String.length (String.append s1 s2) = String.length s1 + String.length s2.
Proof. induction s1 as [|c s1 IH]; simpl; [reflexivity | by f_equal]. Qed.

Lemma list_ascii_of_string_append (s1 s2 : string) :
  list_ascii_of_string (String.append s1 s2)
  = list_ascii_of_string s1 ++ list_ascii_of_string s2.
Proof. induction s1 as [|c s1 IH]; simpl; [reflexivity | by f_equal]. Qed.

Lemma list_ascii_of_substring (n : nat) (s : string) :
  list_ascii_of_string (String.substring 0 n s) = take n (list_ascii_of_string s).
Proof.
  revert s. induction n as [|n IH]; intros [|c s]; cbn; try reflexivity.
  by rewrite IH.
Qed.

Lemma length_list_ascii (s : string) :
  List.length (list_ascii_of_string s) = String.length s.
Proof. induction s as [|c s IH]; cbn; [reflexivity | by rewrite IH]. Qed.

Lemma length_substring (n : nat) (s : string) :
  String.length (String.substring 0 n s) = n `min` String.length s.
Proof.
  rewrite <- !length_list_ascii, list_ascii_of_substring. apply length_take.
Qed.

(** X1: a preview never holds a newline; with [max_len] at least 3 it is
    at most [max_len] characters long: a text that fits is shown whole,
    newlines turned into spaces, and a longer one is cut to exactly
    [max_len] characters, the last three being dots. *)
Theorem preview_fits (st : Step) (max_len : Z) :
  (3 ≤ max_len)%Z →
  let p := preview st (Some max_len) in
  (newline ∉ list_ascii_of_string p)
  ∧ (Z.of_nat (String.length p) ≤ max_len)%Z
  ∧ ((Z.of_nat (String.length (text st)) ≤ max_len)%Z →
       p = replace_newlines (text st))
  ∧ ((max_len < Z.of_nat (String.length (text st)))%Z →
       Z.of_nat (String.length p) = max_len
       ∧ list_ascii_of_string p
         = take (Z.to_nat (max_len - 3))
                (list_ascii_of_string (replace_newlines (text st)))
           ++ ["."; "."; "."]%char).
Proof.
  intros Hm p. subst p. unfold preview. cbn [default from_option id].
  rewrite length_replace_newlines.
  pose proof (replace_newlines_no_newline (text st)) as Hnl.
  unfold slice_to.
  destruct (Z.ltb_spec max_len (Z.of_nat (String.length (text st)))) as [Hlt|Hge].
  - cbv beta iota. rewrite (proj2 (Z.ltb_ge _ _)) by lia.
    rewrite length_string_append, length_substring, length_replace_newlines.
    rewrite list_ascii_of_string_append, list_ascii_of_substring.
    cbn [String.length list_ascii_of_string].
    split.
    { intros [Hin|Hin]%elem_of_app.
      - apply elem_of_take in Hin as (i & Hi & _).
        apply Hnl. eapply list_elem_of_lookup_2. exact Hi.
      - repeat (apply elem_of_cons in Hin as [Hin|Hin]; [discriminate Hin|]).
        inversion Hin. }
    split; [lia|]. split; [lia|].
    intros _. split; [lia | reflexivity].
  - cbv beta iota. split; [exact Hnl|].
    rewrite length_replace_newlines.
    split; [lia|]. split; [reflexivity|]. lia.
Qed.

Lemma preview_fits_witness :
  let st := mkStep "1" (String.append "Hello" (String newline "world")) true 0.3 in
  String.length (preview st (Some 8%Z)) = 8
  ∧ preview st (Some 8%Z) = "Hello..."
  ∧ preview st None = "Hello world".
Proof.
  intros st.
  assert (3 ≤ 8)%Z as Hm by lia.
  destruct (preview_fits st 8 Hm) as (_ & _ & _ & Hcut).
  assert (8 < Z.of_nat (String.length (text st)))%Z as Hlt by (vm_compute; reflexivity).
  destruct (Hcut Hlt) as [Hlen _].
  split; [lia|]. split; reflexivity.
Defined.

End Preview.

(** ** More on the typing engine *)
Section EngineFacts.
Import TyperEngine Keyboard.

(** X2: an engine set up by [__init__] and then driven through
    [set_speed], [set_speed_value], [type_text], [stop] and the worker's
    [finally] block only keeps humanization on and a base delay of at
    least 0.003, so every delay it sleeps between keystrokes is at least
    0.003 and [time.sleep] is never given a negative one. *)
Theorem configured_engine_delays (e : t) :
  configured e →
  humanize e = true
  ∧ (0.003 <= base_delay e)%Q
  ∧ ∀ char u, (0.003 <= keystroke_delay e char u)%Q
              ∧ Qle_bool 0 (keystroke_delay e char u) = true.
Proof.
  intros Hc. destruct (configured_floor e Hc) as [Hh Hb].
  split; [exact Hh|]. split; [exact Hb|].
  intros char u.
  assert (0.003 <= keystroke_delay e char u)%Q as Hd
    by (apply keystroke_delay_floor; left; exact Hh).
  split; [exact Hd|]. apply Qle_bool_iff.
  eapply Qle_trans; [|exact Hd]. vm_compute. discriminate.
Qed.

Lemma configured_engine_delays_witness :
  let e := stop (set_speed_value (-1) (set_speed "Slow" init)) in
  base_delay e = 0.003%Q ∧ (0.003 <= keystroke_delay e "a" 0)%Q.
Proof.
  intros e.
  assert (configured e) as Hc by (repeat constructor).
  destruct (configured_engine_delays e Hc) as (_ & _ & Hd).
  split; [reflexivity | apply Hd].
Defined.

Variables (w : World) (ss : Session).

Lemma on_char_calls_app (tr1 tr2 : list event) :
  on_char_calls (tr1 ++ tr2) = on_char_calls tr1 ++ on_char_calls tr2.
Proof. apply omap_app. Qed.

Lemma position_inv_step_worker (s : state) :
  position_inv ss s → position_inv ss (step_worker w ss s).
Proof.
  destruct s as [e p x o c].
  unfold position_inv, step_worker, sleep, call, raise, goto, emit, with_eng.
  cbn [at_pc out eng exc caller].
  intros [Hcalls Hpos].
  destruct p; cbn [at_pc out] in *;
    repeat (case_match; cbn [at_pc out]);
    rewrite ?typed_chars_app, ?on_char_calls_app;
    simpl (typed_chars [_]); simpl (on_char_calls [_]);
    rewrite ?app_nil_r;
    try (split; [exact Hcalls|]);
    try exact Hpos;
    try (rewrite Hpos; first [apply prefix_nil | done]);
    try (destruct Hpos as (_ & Htxt); eexists; symmetry; exact Htxt);
    try (destruct Hpos as (_ & _ & Htxt); eexists; symmetry; exact Htxt);
    try (destruct Hpos as (Hi & _ & Htxt); split; [exact Hi | exact Htxt]).
  - (* the keystroke *)
    destruct Hpos as [Hi Htxt].
    split; [rewrite length_app, Nat.add_comm; cbn; by f_equal|].
    split; [|by rewrite <- app_assoc].
    rewrite <- Htxt, Hi. apply list_lookup_middle. reflexivity.
  - (* the callback *)
    split; [|exact Hpos].
    apply Forall_app. split; [exact Hcalls|].
    constructor; [|constructor]. apply Hpos.
Qed.

Lemma position_inv_run (sched : list thread) (s : state) :
  position_inv ss s → position_inv ss (run w ss sched s).
Proof.
  revert s. induction sched as [|th sched IH]; intros s H; [exact H|].
  rewrite run_cons. apply IH. destruct th; cbn [step].
  - apply position_inv_step_worker, H.
  - destruct s as [e p x o c]. unfold step_caller, with_caller, with_eng.
    destruct c; exact H.
Qed.

Lemma enter_trace_app (tr1 tr2 : list event) :
  enter_trace (tr1 ++ tr2) = enter_trace tr1 ++ enter_trace tr2.
Proof. apply List.filter_app. Qed.

Lemma enter_inv_step_worker (s : state) :
  enter_inv ss s → enter_inv ss (step_worker w ss s).
Proof.
  destruct s as [e p x o c].
  unfold enter_inv, step_worker, sleep, call, raise, goto, emit, with_eng.
  cbn [at_pc out eng exc caller].
  destruct (caps_lock_state w) as [[|]|];
  destruct p as [| | | |i [|ch rest]| | | | | | | | | |];
    cbn [at_pc out eng untyped] in *; intros H;
    repeat (match goal with
            | |- context [if ?b then _ else _] => destruct b eqn:?
            end; cbn [at_pc out eng untyped]);
    repeat match goal with
           | Hb : _ && _ = true |- _ => apply andb_true_iff in Hb as [? ?]
           | Hb : negb _ = true |- _ => apply negb_true_iff in Hb
           end;
    rewrite ?enter_trace_app, ?count_chars_app;
    repeat match goal with
           | |- context [count_chars [?ev]] =>
               let v := eval cbv in (count_chars [ev]) in
               change (count_chars [ev]) with v
           | |- context [enter_trace [?ev]] =>
               let v := eval cbv in (enter_trace [ev]) in
               change (enter_trace [ev]) with v
           end;
    rewrite ?app_nil_r, ?Nat.add_0_r;
    cbn [String.length] in *;
    try (left; tauto); try tauto;
    try (destruct H as [-> H]; split; [reflexivity | lia]).
  all: try (destruct H as (-> & H1 & H2); cbn [app];
            first [ split; [reflexivity | tauto]
                  | right; tauto ]).
  all: try (destruct H as [-> [H|H]]; [congruence | tauto]).
Qed.

Lemma after_stop_exact_run (n : nat) (sched : list thread) (s : state) :
  after_stop_exact n s → after_stop_exact n (run w ss sched s).
Proof.
  revert s. induction sched as [|th sched IH]; intros s H; [exact H|].
  rewrite run_cons. apply IH. destruct s as [e p x o c]. revert H.
  unfold after_stop_exact. destruct th; cbn [step].
  - unfold step_worker, sleep, call, raise, goto, emit, with_eng.
    cbn [at_pc out eng exc caller].
    destruct (caps_lock_state w) as [[|]|];
    destruct p as [| | | |i [|ch rest]| | | | | | | | | |];
      cbn [at_pc out eng about_to_type]; intros (Hs & Hn & Hty);
      try discriminate Hty; rewrite ?Hs;
      repeat (match goal with
              | |- context [if ?b then _ else _] => destruct b eqn:?
              end; cbn [at_pc out eng about_to_type]);
      rewrite ?count_chars_app;
      repeat match goal with
             | |- context [count_chars [?ev]] =>
                 let v := eval cbv in (count_chars [ev]) in
                 change (count_chars [ev]) with v
             end;
      rewrite ?Nat.add_0_r; done.
  - unfold step_caller, with_caller, with_eng, stop_set, stop_clear_typing.
    destruct c; cbn; tauto.
Qed.

(** *** The same along the runs of the open machine *)

Lemma position_inv_run_open (ms : list move) (s : state) :
  position_inv ss s → position_inv ss (run_open w ss ms s).
Proof.
  revert s. induction ms as [|m ms IH]; intros s H; [exact H|].
  rewrite run_open_cons. apply IH. destruct m; cbn [step_open];
    try (apply position_inv_step_worker; exact H);
    destruct s as [e p x o c]; exact H.
Qed.

Lemma enter_shape_step_worker (s : state) :
  enter_shape ss s → enter_shape ss (step_worker w ss s).
Proof.
  destruct s as [e p x o c].
  unfold enter_shape, step_worker, sleep, call, raise, goto, emit, with_eng.
  cbn [at_pc out eng exc caller].
  destruct (caps_lock_state w) as [[|]|];
  destruct p as [| | | |i [|ch rest]| | | | | | | | | |];
    cbn [at_pc out eng] in *; intros H;
    repeat (match goal with
            | |- context [if ?b then _ else _] => destruct b eqn:?
            end; cbn [at_pc out eng]);
    repeat match goal with
           | Hb : _ && _ = true |- _ => apply andb_true_iff in Hb as [? ?]
           end;
    rewrite ?enter_trace_app;
    repeat match goal with
           | |- context [enter_trace [?ev]] =>
               let v := eval cbv in (enter_trace [ev]) in
               change (enter_trace [ev]) with v
           end;
    rewrite ?app_nil_r;
    try tauto.
  all: try (destruct H as [-> H]; cbn [app];
            first [ split; [reflexivity | exact H] | right; tauto ]).
Qed.

Lemma enter_shape_run_open (ms : list move) (s : state) :
  enter_shape ss s → enter_shape ss (run_open w ss ms s).
Proof.
  revert s. induction ms as [|m ms IH]; intros s H; [exact H|].
  rewrite run_open_cons. apply IH. destruct m; cbn [step_open];
    try (apply enter_shape_step_worker; exact H);
    destruct s as [e p x o c]; exact H.
Qed.

Lemma enter_inv_run_open (ms : list move) (s : state) :
  existsb clears_flag ms = false →
  enter_inv ss s → enter_inv ss (run_open w ss ms s).
Proof.
  revert s. induction ms as [|m ms IH]; intros s Hms H; [exact H|].
  cbn [existsb] in Hms. apply orb_false_iff in Hms as [Hm Hms].
  rewrite run_open_cons. apply IH; [exact Hms|].
  destruct m; try discriminate Hm; cbn [step_open];
    try (apply enter_inv_step_worker; exact H);
    destruct s as [e p x o c]; revert H;
    unfold enter_inv, with_eng, stop_set, stop_clear_typing, set_speed,
      set_speed_value, set_base_delay;
    destruct p; cbn; tauto.
Qed.

Lemma after_stop_exact_run_open (n : nat) (ms : list move) (s : state) :
  existsb clears_flag ms = false →
  after_stop_exact n s → after_stop_exact n (run_open w ss ms s).
Proof.
  revert s. induction ms as [|m ms IH]; intros s Hms H; [exact H|].
  cbn [existsb] in Hms. apply orb_false_iff in Hms as [Hm Hms].
  rewrite run_open_cons. apply IH; [exact Hms|].
  destruct m; try discriminate Hm; cbn [step_open];
    try exact (after_stop_exact_run n [Worker] s H);
    destruct s as [e p x o c]; revert H;
    unfold after_stop_exact, with_eng; cbn; tauto.
Qed.

(** The keystroke whose test had passed when the flag was set, in the open
    machine. *)
Lemma pending_keystroke_run_open (n : nat) (p : pc) (ms : list move)
    (s : state) :
  existsb clears_flag ms = false →
  about_to_type p = true →
  at_pc s = p → _stop (eng s) = true → count_chars (out s) = n →
  (raises w p = true → count_chars (out (run_open w ss ms s)) = n)
  ∧ (raises w p = false → 1 ≤ work_steps ms →
     count_chars (out (run_open w ss ms s)) = S n).
Proof.
  intros Hms Hp. revert s Hms.
  induction ms as [|m ms IH]; intros s Hms Hpc Hs Hn.
  - split; [intros _; exact Hn | cbn; lia].
  - cbn [existsb] in Hms. apply orb_false_iff in Hms as [Hm Hms].
    rewrite run_open_cons. destruct (is_work m) eqn:Hw.
    + destruct m; try discriminate Hw. cbn [step_open].
      destruct s as [e q x o c]. cbn [at_pc eng out] in Hpc, Hs, Hn. subst q.
      destruct p; try discriminate Hp.
      unfold step_worker, call, raise, goto, emit. cbn [at_pc out eng exc caller].
      split; intros Hr; rewrite Hr.
      * assert (after_stop_exact n
                  (mkState e PFinally true o c)) as Hex
          by (split; [exact Hs | split; [exact Hn | reflexivity]]).
        apply (after_stop_exact_run_open n ms _ Hms) in Hex. apply Hex.
      * intros _.
        assert (after_stop_exact (S n)
                  (mkState e (POnChar i char rest) x (o ++ [TypeChar char]) c))
          as Hex.
        { split; [exact Hs|]. split; [|reflexivity].
          cbn [out]. rewrite count_chars_app, Hn.
          change (count_chars [TypeChar char]) with 1. lia. }
        apply (after_stop_exact_run_open (S n) ms _ Hms) in Hex. apply Hex.
    + assert (at_pc (step_open w ss s m) = p
              ∧ _stop (eng (step_open w ss s m)) = true
              ∧ count_chars (out (step_open w ss s m)) = n) as (H1 & H2 & H3).
      { rewrite step_open_at_pc, step_open_out, step_open_flag by exact Hw.
        rewrite Hm. destruct (sets_flag m); auto. }
      destruct (IH _ Hms H1 H2 H3) as [IHa IHb].
      split; [exact IHa|]. intros Hr Hk. apply IHb; [exact Hr|].
      unfold work_steps in *. cbn [List.filter] in Hk. rewrite Hw in Hk.
      exact Hk.
Qed.

End EngineFacts.

(** X3: at every moment of every run, whatever fails and whenever
    [stop()] is called, the characters typed so far are the first
    characters of the text, in order, and every call of [on_char] was given
    a character of the text together with its index. *)
Theorem typed_is_a_prefix_of_the_text (w : TyperEngine.World)
    (e : TyperEngine.t) (text : string) (press_enter : option bool)
    (delay_before : option Q) (on_char on_done : bool)
    (sched : list TyperEngine.thread) :
  let es := TyperEngine.type_text e text press_enter delay_before on_char on_done in
  let s := TyperEngine.run w es.2 sched (TyperEngine.spawn es) in
  TyperEngine.typed_chars (TyperEngine.out s) `prefix_of` list_ascii_of_string text
  ∧ Forall (λ ic, list_ascii_of_string text !! ic.1 = Some ic.2)
           (TyperEngine.on_char_calls (TyperEngine.out s)).
Proof.
  intros es s.
  assert (TyperEngine.position_inv es.2 s) as [Hcalls Hpos].
  { apply position_inv_run. split; [constructor | reflexivity]. }
  split; [|exact Hcalls].
  cbn [TyperEngine.s_text TyperEngine.type_text snd es] in Hpos.
  destruct (TyperEngine.at_pc s); try exact Hpos;
    try (rewrite Hpos; apply prefix_nil);
    try (destruct Hpos as (_ & Htxt); eexists; symmetry; exact Htxt);
    try (destruct Hpos as (_ & _ & Htxt); eexists; symmetry; exact Htxt).
Qed.

Lemma has_enter_enter_trace (tr : list TyperEngine.event) :
  TyperEngine.has_enter tr = true → TyperEngine.enter_trace tr ≠ [].
Proof.
  unfold TyperEngine.has_enter, TyperEngine.enter_trace.
  induction tr as [|ev tr IH]; cbn; [discriminate|].
  destruct (TyperEngine.is_enter ev); [discriminate | exact IH].
Qed.

Lemma prefix_of_same_length {A} (l1 l2 : list A) :
  l1 `prefix_of` l2 → List.length l1 = List.length l2 → l1 = l2.
Proof.
  intros [k ->] Hlen. rewrite length_app in Hlen.
  destruct k; [by rewrite app_nil_r | cbn in Hlen; lia].
Qed.

(** X4: whatever fails and whatever is called while the session is in
    flight, [stop()] and [type_text] included, Enter is pressed at most
    once and released at most once, after the press, and only when
    [press_enter] is set; and when [type_text] is not called again while
    the session is in flight, Enter is pressed only after every character
    of the text has been typed. *)
Theorem enter_only_after_the_whole_text (w : TyperEngine.World)
    (e : TyperEngine.t) (text : string) (press_enter : option bool)
    (delay_before : option Q) (on_char on_done : bool)
    (ms : list TyperEngine.move) :
  let es := TyperEngine.type_text e text press_enter delay_before on_char on_done in
  let s := TyperEngine.run_open w es.2 ms (TyperEngine.spawn es) in
  (TyperEngine.enter_trace (TyperEngine.out s) = []
   ∨ TyperEngine.enter_trace (TyperEngine.out s)
     = [TyperEngine.Press Keyboard.enter]
   ∨ TyperEngine.enter_trace (TyperEngine.out s)
     = [TyperEngine.Press Keyboard.enter; TyperEngine.Release Keyboard.enter])
  ∧ (TyperEngine.has_enter (TyperEngine.out s) = true →
     default true press_enter = true)
  ∧ (existsb TyperEngine.clears_flag ms = false →
     TyperEngine.has_enter (TyperEngine.out s) = true →
     TyperEngine.typed_chars (TyperEngine.out s) = list_ascii_of_string text).
Proof.
  intros es s.
  assert (TyperEngine.enter_shape es.2 s) as Hshape.
  { apply enter_shape_run_open. reflexivity. }
  unfold TyperEngine.enter_shape in Hshape.
  cbn [TyperEngine.s_press_enter TyperEngine.type_text snd es] in Hshape.
  split; [|split].
  - destruct (TyperEngine.at_pc s); tauto.
  - intros He. apply has_enter_enter_trace in He.
    destruct (TyperEngine.at_pc s); try congruence; try tauto.
  - intros Hms He. apply has_enter_enter_trace in He.
    assert (TyperEngine.enter_inv es.2 s) as Hinv.
    { apply enter_inv_run_open; [exact Hms|]. split; reflexivity. }
    assert (TyperEngine.position_inv es.2 s) as [_ Hpos].
    { apply position_inv_run_open. split; [constructor | reflexivity]. }
    assert (TyperEngine.typed_chars (TyperEngine.out s)
              `prefix_of` list_ascii_of_string text) as Hpre.
    { cbn [TyperEngine.s_text TyperEngine.type_text snd es] in Hpos.
      destruct (TyperEngine.at_pc s); try exact Hpos;
        try (rewrite Hpos; apply prefix_nil);
        try (destruct Hpos as (_ & Htxt); eexists; symmetry; exact Htxt);
        try (destruct Hpos as (_ & _ & Htxt); eexists; symmetry; exact Htxt). }
    assert (TyperEngine.count_chars (TyperEngine.out s) = String.length text →
            TyperEngine.typed_chars (TyperEngine.out s)
            = list_ascii_of_string text) as Hall.
    { intros Hc. apply prefix_of_same_length; [exact Hpre|].
      rewrite length_list_ascii. exact Hc. }
    unfold TyperEngine.enter_inv in Hinv.
    cbn [TyperEngine.s_text TyperEngine.s_press_enter TyperEngine.type_text
         snd es] in Hinv.
    destruct (TyperEngine.at_pc s); try (destruct Hinv as [Hnil _]; congruence).
    + destruct Hinv as [_ [Hc Hp]]. auto.
    + destruct Hinv as [Hnil | [_ [Hc Hp]]]; [congruence | auto].
    + destruct Hinv as [Hnil | [_ [Hc Hp]]]; [congruence | auto].
    + destruct Hinv as [Hnil | [_ [Hc Hp]]]; [congruence | auto].
Qed.

Lemma enter_only_after_the_whole_text_witness :
  let es := TyperEngine.type_text TyperEngine.init "Hi" None None false false in
  let s := TyperEngine.run_open TyperEngine.quiet es.2
             (repeat TyperEngine.Work 12 ++ TyperEngine.StopSet
                :: repeat TyperEngine.Work 7)
             (TyperEngine.spawn es) in
  TyperEngine.typed_chars (TyperEngine.out s) = ["H"; "i"]%char.
Proof.
  intros es s.
  refine (proj2 (proj2 (enter_only_after_the_whole_text TyperEngine.quiet
                          TyperEngine.init "Hi" None None false false
                          (repeat TyperEngine.Work 12 ++ TyperEngine.StopSet
                             :: repeat TyperEngine.Work 7))) _ _).
  - reflexivity.
  - vm_compute. reflexivity.
Defined.

(** With [type_text] called again the second part fails: the loop is left
    at the flag [stop()] set, the new [type_text] clears the flag before
    the test that guards Enter, and Enter follows a text typed in part. *)
Example enter_after_a_partial_text :
  let es := TyperEngine.type_text TyperEngine.init "ab" None None false false in
  let s := TyperEngine.run_open TyperEngine.quiet es.2
             (repeat TyperEngine.Work 6
                ++ [TyperEngine.StopSet; TyperEngine.Work;
                    TyperEngine.StopClearTyping; TyperEngine.TypeTextClear;
                    TyperEngine.TypeTextTyping]
                ++ repeat TyperEngine.Work 6)
             (TyperEngine.spawn es) in
  TyperEngine.typed_chars (TyperEngine.out s) = ["a"%char]
  ∧ TyperEngine.has_enter (TyperEngine.out s) = true
  ∧ TyperEngine.at_pc s = TyperEngine.PExit.
Proof. vm_compute. repeat split; reflexivity. Qed.

(** X5: the race between [stop()] and the worker, resolved. When [stop()]
    sets the flag with [n] characters typed, and [type_text] is not called
    again while the session is in flight, the session types exactly [n]
    characters in all unless the worker stands between the test of the
    flag and the keystroke; in that case it types exactly one more, as soon
    as it takes a step, provided that keystroke does not fail. *)
Theorem stop_types_one_more_only_past_the_test (w : TyperEngine.World)
    (e : TyperEngine.t) (text : string) (press_enter : option bool)
    (delay_before : option Q) (on_char on_done : bool)
    (pre post : list TyperEngine.move) :
  let es := TyperEngine.type_text e text press_enter delay_before on_char on_done in
  let s1 := TyperEngine.run_open w es.2 pre (TyperEngine.spawn es) in
  let n := TyperEngine.count_chars (TyperEngine.out s1) in
  existsb TyperEngine.clears_flag post = false →
  let s := TyperEngine.run_open w es.2 (pre ++ TyperEngine.StopSet :: post)
             (TyperEngine.spawn es) in
  (TyperEngine.about_to_type (TyperEngine.at_pc s1) = false →
     TyperEngine.count_chars (TyperEngine.out s) = n)
  ∧ (TyperEngine.about_to_type (TyperEngine.at_pc s1) = true →
     TyperEngine.raises w (TyperEngine.at_pc s1) = true →
     TyperEngine.count_chars (TyperEngine.out s) = n)
  ∧ (TyperEngine.about_to_type (TyperEngine.at_pc s1) = true →
     TyperEngine.raises w (TyperEngine.at_pc s1) = false →
     1 ≤ TyperEngine.work_steps post →
     TyperEngine.count_chars (TyperEngine.out s) = S n).
Proof.
  intros es s1 n Hpost s.
  assert (s = TyperEngine.run_open w es.2 post
                (TyperEngine.step_open w es.2 s1 TyperEngine.StopSet)) as ->.
  { unfold s. rewrite run_open_app, run_open_cons. reflexivity. }
  assert (TyperEngine.at_pc (TyperEngine.step_open w es.2 s1 TyperEngine.StopSet)
          = TyperEngine.at_pc s1
          ∧ TyperEngine._stop
              (TyperEngine.eng (TyperEngine.step_open w es.2 s1 TyperEngine.StopSet))
            = true
          ∧ TyperEngine.count_chars
              (TyperEngine.out (TyperEngine.step_open w es.2 s1 TyperEngine.StopSet))
            = n)
    as (H1 & H2 & H3) by (repeat split).
  split; [|split].
  - intros Hty. apply (after_stop_exact_run_open w es.2 n post _ Hpost).
    split; [exact H2|]. split; [exact H3|]. rewrite H1. exact Hty.
  - intros Hty Hr.
    apply (pending_keystroke_run_open w es.2 n _ post _ Hpost Hty H1 H2 H3).
    exact Hr.
  - intros Hty Hr Hk.
    apply (pending_keystroke_run_open w es.2 n _ post _ Hpost Hty H1 H2 H3);
      assumption.
Qed.

Lemma stop_types_one_more_only_past_the_test_witness :
  let es := TyperEngine.type_text TyperEngine.init "ab" None None false true in
  let typed k :=
    TyperEngine.count_chars (TyperEngine.out
      (TyperEngine.run_open TyperEngine.quiet es.2
         (repeat TyperEngine.Work k ++ TyperEngine.StopSet
            :: TyperEngine.StopClearTyping :: repeat TyperEngine.Work 19)
         (TyperEngine.spawn es))) in
  typed 3 = 1 ∧ typed 4 = 1.
Proof.
  intros es typed. split.
  - refine (proj2 (proj2 (stop_types_one_more_only_past_the_test
              TyperEngine.quiet TyperEngine.init "ab" None None false true
              (repeat TyperEngine.Work 3)
              (TyperEngine.StopClearTyping :: repeat TyperEngine.Work 19)
              eq_refl)) _ _ _).
    + reflexivity.
    + reflexivity.
    + vm_compute. lia.
  - refine (proj1 (stop_types_one_more_only_past_the_test
              TyperEngine.quiet TyperEngine.init "ab" None None false true
              (repeat TyperEngine.Work 4)
              (TyperEngine.StopClearTyping :: repeat TyperEngine.Work 19)
              eq_refl) _).
    reflexivity.
Defined.

(** ** Sessions that fail *)
Section Failures.
Import TyperEngine Keyboard.
Variables (w : World) (ss : Session).

Lemma one_char_typed (i : nat) (char : ascii) (rest : string) (e : t) (x : bool)
    (o : list event) (c : caller_pc) :
  _stop e = false →
  humanize e = true ∨ (0.003 <= base_delay e)%Q →
  raises w (PType i char rest) = false →
  raises w (POnChar i char rest) = false →
  raises w (PDelay i char rest) = false →
  run w ss (repeat Worker 4) (mkState e (PLoop i (String char rest)) x o c)
  = mkState e (PLoop (S i) rest) x (o ++ char_events w ss e i char) c.
Proof.
  intros Hs Hfloor H1 H2 H3.
  assert (Qle_bool 0 (keystroke_delay e char (random w i)) = true) as Hd.
  { apply Qle_bool_iff.
    eapply Qle_trans; [|apply keystroke_delay_floor, Hfloor].
    vm_compute. discriminate. }
  cbn [repeat]. rewrite !run_cons. cbn [run fold_left step].
  unfold step_worker at 4. cbn [at_pc eng]. rewrite Hs.
  unfold goto; cbn [eng at_pc exc out caller].
  unfold step_worker at 3. cbn [at_pc]. unfold call. rewrite H1.
  unfold goto, emit; cbn [eng at_pc exc out caller].
  unfold step_worker at 2. cbn [at_pc]. unfold char_events.
  destruct (s_on_char ss).
  - unfold call. rewrite H2. unfold goto, emit; cbn [eng at_pc exc out caller].
    unfold step_worker. cbn [at_pc eng]. unfold sleep, call. rewrite Hd, H3.
    unfold goto, emit; cbn [eng at_pc exc out caller].
    rewrite <- !app_assoc. reflexivity.
  - unfold goto; cbn [eng at_pc exc out caller].
    unfold step_worker. cbn [at_pc eng]. unfold sleep, call. rewrite Hd, H3.
    unfold goto, emit; cbn [eng at_pc exc out caller].
    rewrite <- !app_assoc. reflexivity.
Qed.

Lemma run_loop_failing (j : nat) (rest : string) :
  fails_only_at j w →
  ∀ (i : nat) (e : t) (x : bool) (o : list event) (c : caller_pc),
    _stop e = false →
    humanize e = true ∨ (0.003 <= base_delay e)%Q →
    i ≤ j → j < i + String.length rest →
    run w ss (repeat Worker (4 * (j - i) + 2)) (mkState e (PLoop i rest) x o c)
    = mkState e PFinally true
              (o ++ loop_events w ss e i (String.substring 0 (j - i) rest)) c.
Proof.
  intros Hfail.
  induction rest as [|char rest IH]; intros i e x o c Hs Hfloor Hij Hj.
  - cbn in Hj. lia.
  - destruct (decide (i = j)) as [->|Hne].
    + rewrite Nat.sub_diag. cbn [Nat.mul Nat.add repeat String.substring loop_events].
      rewrite !run_cons. cbn [run fold_left step].
      unfold step_worker at 2. cbn [at_pc eng]. rewrite Hs.
      unfold goto; cbn [eng at_pc exc out caller].
      unfold step_worker. cbn [at_pc]. unfold call.
      rewrite Hfail, Nat.eqb_refl. unfold raise; cbn [eng at_pc exc out caller].
      rewrite app_nil_r. reflexivity.
    + replace (4 * (j - i) + 2) with (4 + (4 * (j - S i) + 2)) by lia.
      rewrite run_repeat_add.
      rewrite one_char_typed; try assumption; try (rewrite Hfail; reflexivity).
      2:{ rewrite Hfail. apply Nat.eqb_neq. exact Hne. }
      rewrite IH; try assumption; [|lia|cbn [String.length] in Hj; lia].
      replace (j - i) with (S (j - S i)) by lia.
      cbn [String.substring loop_events].
      rewrite app_assoc. reflexivity.
Qed.

(** From the start of the thread to the loop, the calls on the way not
    failing. *)
Lemma run_prologue_ok (e : t) :
  (0 <= s_delay_before ss)%Q →
  raises w PSleepBefore = false →
  raises w PCapsPress = false →
  raises w PCapsRelease = false →
  ∃ k, k ≤ 4
       ∧ run w ss (repeat Worker k) (spawn (e, ss))
         = mkState e (PLoop 0 (s_text ss)) false
                   (Sleep (s_delay_before ss) :: caps_events w) CIdle.
Proof.
  intros Hd H1 H2 H3. apply Qle_bool_iff in Hd.
  unfold spawn, caps_events. cbn [fst].
  destruct (caps_lock_state w) as [[|]|] eqn:Hcaps.
  - exists 4. split; [lia|]. cbn [repeat]. rewrite !run_cons.
    cbn [run fold_left step].
    unfold step_worker at 4. cbn [at_pc]. unfold sleep, call. rewrite Hd, H1.
    unfold goto, emit; cbn [eng at_pc exc out caller].
    unfold step_worker at 3. cbn [at_pc]. rewrite Hcaps.
    unfold goto; cbn [eng at_pc exc out caller].
    unfold step_worker at 2. cbn [at_pc]. unfold call. rewrite H2.
    unfold goto, emit; cbn [eng at_pc exc out caller].
    unfold step_worker. cbn [at_pc]. unfold call. rewrite H3.
    reflexivity.
  - exists 2. split; [lia|]. cbn [repeat]. rewrite !run_cons.
    cbn [run fold_left step].
    unfold step_worker at 2. cbn [at_pc]. unfold sleep, call. rewrite Hd, H1.
    unfold goto, emit; cbn [eng at_pc exc out caller].
    unfold step_worker. cbn [at_pc]. rewrite Hcaps. reflexivity.
  - exists 2. split; [lia|]. cbn [repeat]. rewrite !run_cons.
    cbn [run fold_left step].
    unfold step_worker at 2. cbn [at_pc]. unfold sleep, call. rewrite Hd, H1.
    unfold goto, emit; cbn [eng at_pc exc out caller].
    unfold step_worker. cbn [at_pc]. rewrite Hcaps. reflexivity.
Qed.

(** The [finally] block, entered by an exception or not. *)
Lemma run_finally (e : t) (x : bool) (o : list event) (c : caller_pc) :
  run w ss (repeat Worker 2) (mkState e PFinally x o c)
  = mkState (set_is_typing false e) PExit x (o ++ done_events ss) c.
Proof.
  cbn. unfold done_events, goto, emit, with_eng.
  destruct (s_on_done ss); cbn; rewrite ?app_nil_r; reflexivity.
Qed.

Lemma run_injection_failure (j : nat) (e : t) (k : nat) :
  fails_only_at j w →
  j < String.length (s_text ss) →
  _stop e = false →
  (0 <= s_delay_before ss)%Q →
  humanize e = true ∨ (0.003 <= base_delay e)%Q →
  4 * String.length (s_text ss) + 11 ≤ k →
  run w ss (repeat Worker k) (spawn (e, ss))
  = mkState (set_is_typing false e) PExit true
      ((Sleep (s_delay_before ss) :: caps_events w)
       ++ loop_events w ss e 0 (String.substring 0 j (s_text ss))
       ++ done_events ss) CIdle.
Proof.
  intros Hfail Hj Hs Hd Hfloor Hk.
  destruct (run_prologue_ok e Hd) as [k1 [Hk1 Hpro]];
    try (rewrite Hfail; reflexivity).
  replace k with (k1 + ((4 * (j - 0) + 2) + (2 + (k - k1 - (4 * (j - 0) + 2) - 2))))
    by lia.
  rewrite run_repeat_add, Hpro.
  rewrite run_repeat_add, (run_loop_failing j) by (assumption || lia).
  rewrite run_repeat_add, run_finally.
  rewrite run_at_exit by reflexivity.
  rewrite Nat.sub_0_r, <- app_assoc. reflexivity.
Qed.

(** A negative [delay_before]: [time.sleep] raises before anything else
    happens. *)
Lemma run_negative_delay (e : t) (k : nat) :
  (s_delay_before ss < 0)%Q →
  3 ≤ k →
  run w ss (repeat Worker k) (spawn (e, ss))
  = mkState (set_is_typing false e) PExit true (done_events ss) CIdle.
Proof.
  intros Hd Hk.
  assert (Qle_bool 0 (s_delay_before ss) = false) as Hb.
  { destruct (Qle_bool 0 (s_delay_before ss)) eqn:E; [|reflexivity].
    apply Qle_bool_iff in E. exfalso. apply (Qlt_irrefl 0).
    eapply Qle_lt_trans; eassumption. }
  replace k with (1 + (2 + (k - 3))) by lia. unfold spawn. cbn [fst].
  rewrite run_repeat_add. cbn [repeat]. rewrite run_cons.
  change (run w ss [] ?s) with s.
  cbn [step spawn fst]. unfold step_worker at 1. cbn [at_pc].
  unfold sleep. rewrite Hb. unfold raise; cbn [eng at_pc exc out caller].
  rewrite run_repeat_add, run_finally, run_at_exit by reflexivity.
  reflexivity.
Qed.

End Failures.

Lemma loop_events_plain (w : TyperEngine.World) (ss : TyperEngine.Session)
    (e : TyperEngine.t) (rest : string) (i : nat) :
  Forall (λ ev, TyperEngine.is_enter ev = false ∧ TyperEngine.is_done ev = false
                ∧ TyperEngine.is_caps ev = false)
         (TyperEngine.loop_events w ss e i rest).
Proof.
  revert i. induction rest as [|char rest IH]; intros i; [constructor|].
  cbn [TyperEngine.loop_events]. apply Forall_app. split; [|apply IH].
  unfold TyperEngine.char_events.
  destruct (TyperEngine.s_on_char ss); repeat constructor.
Qed.

Lemma plain_events (tr : list TyperEngine.event) :
  Forall (λ ev, TyperEngine.is_enter ev = false ∧ TyperEngine.is_done ev = false
                ∧ TyperEngine.is_caps ev = false) tr →
  TyperEngine.has_enter tr = false ∧ TyperEngine.count_done tr = 0
  ∧ List.filter TyperEngine.is_caps tr = [].
Proof.
  unfold TyperEngine.has_enter, TyperEngine.count_done.
  induction 1 as [|ev tr (He & Hd & Hc) _ (IH1 & IH2 & IH3)]; [done|].
  cbn. rewrite He, Hd, Hc. cbn. done.
Qed.

Lemma caps_events_plain (w : TyperEngine.World) :
  TyperEngine.has_enter (TyperEngine.caps_events w) = false
  ∧ TyperEngine.count_done (TyperEngine.caps_events w) = 0.
Proof.
  unfold TyperEngine.caps_events.
  destruct (TyperEngine.caps_lock_state w) as [[|]|]; done.
Qed.

(** X6: when injecting the character of index [j] fails, and nothing else
    does, the session ends having typed exactly the [j] characters before
    it; it does not press Enter, [is_typing] is false, and [on_done], when
    given, is called once, as the last thing. *)
Theorem injection_failure_ends_the_session (w : TyperEngine.World)
    (e : TyperEngine.t) (text : string) (press_enter : bool) (delay_before : Q)
    (on_char on_done : bool) (j k : nat) :
  TyperEngine.fails_only_at j w →
  j < String.length text →
  (0 <= delay_before)%Q →
  TyperEngine.humanize e = true ∨ (0.003 <= TyperEngine.base_delay e)%Q →
  4 * String.length text + 11 ≤ k →
  let es := TyperEngine.type_text e text (Some press_enter) (Some delay_before)
              on_char on_done in
  let s := TyperEngine.run w es.2 (repeat TyperEngine.Worker k)
             (TyperEngine.spawn es) in
  TyperEngine.at_pc s = TyperEngine.PExit
  ∧ TyperEngine.exc s = true
  ∧ TyperEngine.is_typing (TyperEngine.eng s) = false
  ∧ TyperEngine.typed_chars (TyperEngine.out s) = take j (list_ascii_of_string text)
  ∧ TyperEngine.has_enter (TyperEngine.out s) = false
  ∧ TyperEngine.count_done (TyperEngine.out s) = (if on_done then 1 else 0)
  ∧ (on_done = true → last (TyperEngine.out s) = Some TyperEngine.OnDone).
Proof.
  intros Hfail Hj Hd Hfloor Hk es s.
  assert (s = TyperEngine.mkState (TyperEngine.set_is_typing false es.1)
                TyperEngine.PExit true
                ((TyperEngine.Sleep delay_before :: TyperEngine.caps_events w)
                 ++ TyperEngine.loop_events w es.2 es.1 0 (String.substring 0 j text)
                 ++ TyperEngine.done_events es.2) TyperEngine.CIdle) as ->.
  { unfold s. apply (run_injection_failure w es.2 j es.1 k); try assumption.
    reflexivity. }
  cbn [TyperEngine.at_pc TyperEngine.exc TyperEngine.eng TyperEngine.out].
  destruct (plain_events _ (loop_events_plain w es.2 es.1
                              (String.substring 0 j text) 0))
    as (He & Hdn & _).
  destruct (caps_events_plain w) as [Hce Hcd].
  split; [reflexivity|]. split; [reflexivity|]. split; [reflexivity|].
  split.
  { change (TyperEngine.Sleep delay_before :: TyperEngine.caps_events w)
      with ([TyperEngine.Sleep delay_before] ++ TyperEngine.caps_events w).
    rewrite !typed_chars_app, typed_chars_caps, typed_chars_loop.
    rewrite list_ascii_of_substring.
    unfold TyperEngine.done_events.
    change (TyperEngine.s_on_done es.2) with on_done.
    destruct on_done; cbn; by rewrite app_nil_r. }
  split.
  { rewrite !has_enter_app. cbn [TyperEngine.has_enter existsb TyperEngine.is_enter].
    fold (TyperEngine.has_enter (TyperEngine.caps_events w)).
    rewrite Hce, He. unfold TyperEngine.done_events.
    change (TyperEngine.s_on_done es.2) with on_done.
    destruct on_done; reflexivity. }
  unfold TyperEngine.done_events.
  change (TyperEngine.s_on_done es.2) with on_done.
  split.
  - rewrite !count_done_app, Hdn.
    change (TyperEngine.count_done (TyperEngine.Sleep delay_before :: TyperEngine.caps_events w))
      with (TyperEngine.count_done (TyperEngine.caps_events w)).
    rewrite Hcd. destruct on_done; reflexivity.
  - intros ->. rewrite !app_assoc. apply last_snoc.
Qed.

Lemma injection_failure_ends_the_session_witness :
  let es := TyperEngine.type_text TyperEngine.init "abc" (Some true) (Some 0%Q)
              true true in
  let s := TyperEngine.run (TyperEngine.failing_at 2) es.2
             (repeat TyperEngine.Worker 23) (TyperEngine.spawn es) in
  TyperEngine.typed_chars (TyperEngine.out s) = ["a"; "b"]%char
  ∧ TyperEngine.has_enter (TyperEngine.out s) = false.
Proof.
  intros es s.
  assert (TyperEngine.fails_only_at 2 (TyperEngine.failing_at 2)) as Hf.
  { intros p. destruct p; try reflexivity. exact (Nat.eqb_sym 2 _). }
  assert (2 < String.length "abc") as Hj by (vm_compute; lia).
  assert (0 <= 0)%Q as Hd by (vm_compute; discriminate).
  assert (TyperEngine.humanize TyperEngine.init = true
          ∨ (0.003 <= TyperEngine.base_delay TyperEngine.init)%Q) as Hfl
    by (left; reflexivity).
  assert (4 * String.length "abc" + 11 ≤ 23) as Hk by (vm_compute; lia).
  destruct (injection_failure_ends_the_session (TyperEngine.failing_at 2)
              TyperEngine.init "abc" true 0 true true 2 23 Hf Hj Hd Hfl Hk)
    as (_ & _ & _ & Hc & He & _).
  split; [exact Hc | exact He].
Defined.

(** X7: with a negative [delay_before] the first sleep raises, so the
    session types nothing and presses no key: all that happens is the call
    of [on_done], when given; [is_typing] is false at the end. *)
Theorem negative_delay_types_nothing (w : TyperEngine.World)
    (e : TyperEngine.t) (text : string) (press_enter : option bool)
    (delay_before : Q) (on_char on_done : bool) (k : nat) :
  (delay_before < 0)%Q →
  3 ≤ k →
  let es := TyperEngine.type_text e text press_enter (Some delay_before)
              on_char on_done in
  let s := TyperEngine.run w es.2 (repeat TyperEngine.Worker k)
             (TyperEngine.spawn es) in
  TyperEngine.at_pc s = TyperEngine.PExit
  ∧ TyperEngine.exc s = true
  ∧ TyperEngine.is_typing (TyperEngine.eng s) = false
  ∧ TyperEngine.out s = (if on_done then [TyperEngine.OnDone] else []).
Proof.
  intros Hd Hk es s.
  assert (s = TyperEngine.mkState (TyperEngine.set_is_typing false es.1)
                TyperEngine.PExit true (TyperEngine.done_events es.2)
                TyperEngine.CIdle) as ->.
  { unfold s. apply (run_negative_delay w es.2 es.1 k); assumption. }
  repeat split.
Qed.

Lemma negative_delay_types_nothing_witness :
  let es := TyperEngine.type_text TyperEngine.init "abc" None (Some (-1)%Q)
              true true in
  TyperEngine.out (TyperEngine.run TyperEngine.quiet es.2
                     (repeat TyperEngine.Worker 3) (TyperEngine.spawn es))
  = [TyperEngine.OnDone].
Proof.
  intros es.
  assert (-1 < 0)%Q as Hd by reflexivity.
  assert (3 ≤ 3) as Hk by lia.
  exact (proj2 (proj2 (proj2 (negative_delay_types_nothing TyperEngine.quiet
           TyperEngine.init "abc" None (-1) true true 3 Hd Hk)))).
Defined.

(** ** More on sessions that nothing disturbs *)

Lemma on_char_calls_loop (w : TyperEngine.World) (ss : TyperEngine.Session)
    (e : TyperEngine.t) (rest : string) (i : nat) :
  TyperEngine.on_char_calls (TyperEngine.loop_events w ss e i rest)
  = if TyperEngine.s_on_char ss
    then zip (seq i (String.length rest)) (list_ascii_of_string rest)
    else [].
Proof.
  revert i. induction rest as [|char rest IH]; intros i.
  - destruct (TyperEngine.s_on_char ss); reflexivity.
  - cbn [TyperEngine.loop_events]. rewrite on_char_calls_app, IH.
    unfold TyperEngine.char_events.
    destruct (TyperEngine.s_on_char ss); reflexivity.
Qed.

(** X8: in a session that nothing disturbs, [on_char], when given, is
    called exactly once for each character, with the index and the
    character, in the order of the text; when not given, never. *)
Theorem on_char_called_once_per_character (w : TyperEngine.World)
    (e : TyperEngine.t) (text : string) (press_enter : bool) (delay_before : Q)
    (on_char on_done : bool) (k : nat) :
  (∀ p, TyperEngine.raises w p = false) →
  (0 <= delay_before)%Q →
  TyperEngine.humanize e = true ∨ (0.003 <= TyperEngine.base_delay e)%Q →
  4 * String.length text + 11 ≤ k →
  let es := TyperEngine.type_text e text (Some press_enter) (Some delay_before)
              on_char on_done in
  let s := TyperEngine.run w es.2 (repeat TyperEngine.Worker k)
             (TyperEngine.spawn es) in
  TyperEngine.on_char_calls (TyperEngine.out s)
  = if on_char
    then zip (seq 0 (String.length text)) (list_ascii_of_string text)
    else [].
Proof.
  intros Hquiet Hd Hfloor Hk es s.
  assert (s = TyperEngine.mkState (TyperEngine.set_is_typing false es.1)
                TyperEngine.PExit false
                (TyperEngine.body_events w es.2 es.1
                 ++ TyperEngine.enter_events es.2
                 ++ TyperEngine.done_events es.2) TyperEngine.CIdle) as ->.
  { unfold s. apply run_undisturbed; try assumption. reflexivity. }
  cbn [TyperEngine.out]. unfold TyperEngine.body_events.
  change (TyperEngine.Sleep ?d :: ?l) with ([TyperEngine.Sleep d] ++ l).
  rewrite !on_char_calls_app, on_char_calls_loop.
  change (TyperEngine.s_on_char es.2) with on_char.
  change (TyperEngine.s_text es.2) with text.
  assert (TyperEngine.on_char_calls (TyperEngine.caps_events w) = []) as ->.
  { unfold TyperEngine.caps_events.
    destruct (TyperEngine.caps_lock_state w) as [[|]|]; reflexivity. }
  assert (TyperEngine.on_char_calls (TyperEngine.enter_events es.2) = []) as ->.
  { unfold TyperEngine.enter_events.
    destruct (TyperEngine.s_press_enter es.2); reflexivity. }
  assert (TyperEngine.on_char_calls (TyperEngine.done_events es.2) = []) as ->.
  { unfold TyperEngine.done_events.
    destruct (TyperEngine.s_on_done es.2); reflexivity. }
  cbn [app TyperEngine.on_char_calls omap]. rewrite !app_nil_r. reflexivity.
Qed.

Lemma on_char_called_once_per_character_witness :
  let es := TyperEngine.type_text TyperEngine.init "Hi" (Some false) (Some 0%Q)
              true false in
  TyperEngine.on_char_calls (TyperEngine.out
    (TyperEngine.run TyperEngine.quiet es.2 (repeat TyperEngine.Worker 19)
       (TyperEngine.spawn es)))
  = [(0, "H"%char); (1, "i"%char)].
Proof.
  intros es.
  assert (∀ p, TyperEngine.raises TyperEngine.quiet p = false) as Hq
    by reflexivity.
  assert (0 <= 0)%Q as Hd by (vm_compute; discriminate).
  assert (TyperEngine.humanize TyperEngine.init = true
          ∨ (0.003 <= TyperEngine.base_delay TyperEngine.init)%Q) as Hf
    by (left; reflexivity).
  assert (4 * String.length "Hi" + 11 ≤ 19) as Hk by (vm_compute; lia).
  exact (on_char_called_once_per_character TyperEngine.quiet TyperEngine.init
           "Hi" false 0 true false 19 Hq Hd Hf Hk).
Defined.

(** X9: in a session that nothing disturbs, Caps Lock is pressed and
    released once, after the first sleep and before any character, exactly
    when [GetKeyState] reports it on; when it reports it off, or the call
    fails, no Caps Lock event occurs. *)
Theorem caps_lock_is_turned_off_first (w : TyperEngine.World)
    (e : TyperEngine.t) (text : string) (press_enter : bool) (delay_before : Q)
    (on_char on_done : bool) (k : nat) :
  (∀ p, TyperEngine.raises w p = false) →
  (0 <= delay_before)%Q →
  TyperEngine.humanize e = true ∨ (0.003 <= TyperEngine.base_delay e)%Q →
  4 * String.length text + 11 ≤ k →
  let es := TyperEngine.type_text e text (Some press_enter) (Some delay_before)
              on_char on_done in
  let s := TyperEngine.run w es.2 (repeat TyperEngine.Worker k)
             (TyperEngine.spawn es) in
  let toggle :=
    match TyperEngine.caps_lock_state w with
    | Some true => [TyperEngine.Press Keyboard.caps_lock;
                    TyperEngine.Release Keyboard.caps_lock]
    | _ => []
    end in
  List.filter TyperEngine.is_caps (TyperEngine.out s) = toggle
  ∧ ∃ rest,
      TyperEngine.out s = TyperEngine.Sleep delay_before :: toggle ++ rest
      ∧ List.filter TyperEngine.is_caps rest = []
      ∧ TyperEngine.typed_chars rest = list_ascii_of_string text.
Proof.
  intros Hquiet Hd Hfloor Hk es s toggle.
  assert (s = TyperEngine.mkState (TyperEngine.set_is_typing false es.1)
                TyperEngine.PExit false
                (TyperEngine.body_events w es.2 es.1
                 ++ TyperEngine.enter_events es.2
                 ++ TyperEngine.done_events es.2) TyperEngine.CIdle) as ->.
  { unfold s. apply run_undisturbed; try assumption. reflexivity. }
  cbn [TyperEngine.out]. unfold TyperEngine.body_events.
  fold toggle. change (TyperEngine.caps_events w) with toggle.
  change (TyperEngine.s_delay_before es.2) with delay_before.
  set (rest := TyperEngine.loop_events w es.2 es.1 0 (TyperEngine.s_text es.2)
               ++ TyperEngine.enter_events es.2 ++ TyperEngine.done_events es.2).
  assert (List.filter TyperEngine.is_caps rest = []) as Hrest.
  { unfold rest. rewrite !List.filter_app.
    rewrite (proj2 (proj2 (plain_events _ (loop_events_plain w es.2 es.1 _ 0)))).
    unfold TyperEngine.enter_events, TyperEngine.done_events.
    destruct (TyperEngine.s_press_enter es.2), (TyperEngine.s_on_done es.2);
      reflexivity. }
  assert (List.filter TyperEngine.is_caps toggle = toggle) as Htog.
  { unfold toggle. destruct (TyperEngine.caps_lock_state w) as [[|]|]; reflexivity. }
  split.
  - cbn [app]. rewrite <- app_assoc. fold rest.
    cbn [List.filter TyperEngine.is_caps]. rewrite List.filter_app, Htog, Hrest.
    apply app_nil_r.
  - exists rest. split; [cbn [app]; by rewrite <- app_assoc|].
    split; [exact Hrest|].
    unfold rest. rewrite typed_chars_app, typed_chars_loop, typed_chars_tail.
    apply app_nil_r.
Qed.

Lemma caps_lock_is_turned_off_first_witness :
  let w := TyperEngine.Build_World (λ _, false) (Some true) (λ _, 0%Q) in
  let es := TyperEngine.type_text TyperEngine.init "Hi" (Some false) (Some 0%Q)
              false false in
  List.filter TyperEngine.is_caps (TyperEngine.out
    (TyperEngine.run w es.2 (repeat TyperEngine.Worker 19)
       (TyperEngine.spawn es)))
  = [TyperEngine.Press Keyboard.caps_lock; TyperEngine.Release Keyboard.caps_lock].
Proof.
  intros w es.
  assert (∀ p, TyperEngine.raises w p = false) as Hq by reflexivity.
  assert (0 <= 0)%Q as Hd by (vm_compute; discriminate).
  assert (TyperEngine.humanize TyperEngine.init = true
          ∨ (0.003 <= TyperEngine.base_delay TyperEngine.init)%Q) as Hf
    by (left; reflexivity).
  assert (4 * String.length "Hi" + 11 ≤ 19) as Hk by (vm_compute; lia).
  exact (proj1 (caps_lock_is_turned_off_first w TyperEngine.init
                  "Hi" false 0 false false 19 Hq Hd Hf Hk)).
Defined.

Lemma slept_app (tr1 tr2 : list TyperEngine.event) :
  (TyperEngine.slept (tr1 ++ tr2)
   == TyperEngine.slept tr1 + TyperEngine.slept tr2)%Q.
Proof.
  induction tr1 as [|ev tr1 IH].
  - cbn. symmetry. apply Qplus_0_l.
  - destruct ev; cbn [app TyperEngine.slept fold_right];
      fold (TyperEngine.slept (tr1 ++ tr2)); fold (TyperEngine.slept tr1);
      try exact IH.
    rewrite IH. ring.
Qed.

Lemma slept_loop (w : TyperEngine.World) (ss : TyperEngine.Session)
    (e : TyperEngine.t) (rest : string) (i : nat) :
  TyperEngine.humanize e = true ∨ (0.003 <= TyperEngine.base_delay e)%Q →
  (inject_Z (Z.of_nat (String.length rest)) * 0.003
   <= TyperEngine.slept (TyperEngine.loop_events w ss e i rest))%Q.
Proof.
  intros Hfloor. revert i. induction rest as [|char rest IH]; intros i.
  - vm_compute. discriminate.
  - cbn [TyperEngine.loop_events String.length]. rewrite slept_app.
    rewrite Nat2Z.inj_succ. unfold Z.succ. rewrite inject_Z_plus.
    pose proof (IH (S i)) as H1.
    pose proof (keystroke_delay_floor e char (TyperEngine.random w i) Hfloor) as H2.
    assert (TyperEngine.slept (TyperEngine.char_events w ss e i char)
            == TyperEngine.keystroke_delay e char (TyperEngine.random w i))%Q as ->.
    { unfold TyperEngine.char_events.
      destruct (TyperEngine.s_on_char ss); cbn; apply Qplus_0_r. }
    change (inject_Z 1) with 1%Q. lra.
Qed.

(** X10: a session that nothing disturbs sleeps, in all, at least
    [delay_before] plus 0.003 seconds for each character, plus 0.08
    seconds when Enter is pressed. *)
Theorem session_sleeps_at_least (w : TyperEngine.World)
    (e : TyperEngine.t) (text : string) (press_enter : bool) (delay_before : Q)
    (on_char on_done : bool) (k : nat) :
  (∀ p, TyperEngine.raises w p = false) →
  (0 <= delay_before)%Q →
  TyperEngine.humanize e = true ∨ (0.003 <= TyperEngine.base_delay e)%Q →
  4 * String.length text + 11 ≤ k →
  let es := TyperEngine.type_text e text (Some press_enter) (Some delay_before)
              on_char on_done in
  let s := TyperEngine.run w es.2 (repeat TyperEngine.Worker k)
             (TyperEngine.spawn es) in
  (delay_before + inject_Z (Z.of_nat (String.length text)) * 0.003
   + (if press_enter then 0.08 else 0)
   <= TyperEngine.slept (TyperEngine.out s))%Q.
Proof.
  intros Hquiet Hd Hfloor Hk es s.
  assert (s = TyperEngine.mkState (TyperEngine.set_is_typing false es.1)
                TyperEngine.PExit false
                (TyperEngine.body_events w es.2 es.1
                 ++ TyperEngine.enter_events es.2
                 ++ TyperEngine.done_events es.2) TyperEngine.CIdle) as ->.
  { unfold s. apply run_undisturbed; try assumption. reflexivity. }
  cbn [TyperEngine.out]. unfold TyperEngine.body_events.
  change (TyperEngine.Sleep ?d :: ?l) with ([TyperEngine.Sleep d] ++ l).
  rewrite !slept_app.
  pose proof (slept_loop w es.2 es.1 text 0 Hfloor) as Hloop.
  change (TyperEngine.s_text es.2) with text.
  change (TyperEngine.s_delay_before es.2) with delay_before.
  assert (TyperEngine.slept (TyperEngine.caps_events w) == 0)%Q as ->.
  { unfold TyperEngine.caps_events.
    destruct (TyperEngine.caps_lock_state w) as [[|]|]; reflexivity. }
  assert (TyperEngine.slept (TyperEngine.done_events es.2) == 0)%Q as ->.
  { unfold TyperEngine.done_events.
    destruct (TyperEngine.s_on_done es.2); reflexivity. }
  assert (TyperEngine.slept (TyperEngine.enter_events es.2)
          == if press_enter then 0.08 else 0)%Q as ->.
  { unfold TyperEngine.enter_events.
    change (TyperEngine.s_press_enter es.2) with press_enter.
    destruct press_enter; reflexivity. }
  assert (TyperEngine.slept [TyperEngine.Sleep delay_before] == delay_before)%Q
    as -> by (cbn; apply Qplus_0_r).
  destruct press_enter; lra.
Qed.

Lemma session_sleeps_at_least_witness :
  let es := TyperEngine.type_text TyperEngine.init "Hi" (Some true) (Some 0.3%Q)
              false false in
  (0.3 + inject_Z 2 * 0.003 + 0.08
   <= TyperEngine.slept (TyperEngine.out
        (TyperEngine.run TyperEngine.quiet es.2 (repeat TyperEngine.Worker 19)
           (TyperEngine.spawn es))))%Q.
Proof.
  intros es.
  assert (∀ p, TyperEngine.raises TyperEngine.quiet p = false) as Hq
    by reflexivity.
  assert (0 <= 0.3)%Q as Hd by (vm_compute; discriminate).
  assert (TyperEngine.humanize TyperEngine.init = true
          ∨ (0.003 <= TyperEngine.base_delay TyperEngine.init)%Q) as Hf
    by (left; reflexivity).
  assert (4 * String.length "Hi" + 11 ≤ 19) as Hk by (vm_compute; lia).
  exact (session_sleeps_at_least TyperEngine.quiet TyperEngine.init
           "Hi" true 0.3 false false 19 Hq Hd Hf Hk).
Defined.

(** ** [stop()] followed by [type_text] *)

Lemma in_try_false_run (w : TyperEngine.World) (ss : TyperEngine.Session)
    (k : nat) (s : TyperEngine.state) :
  TyperEngine.in_try (TyperEngine.at_pc s) = false →
  TyperEngine.in_try (TyperEngine.at_pc
    (TyperEngine.run w ss (repeat TyperEngine.Worker k) s)) = false.
Proof.
  revert s. induction k as [|k IH]; intros s H; [exact H|].
  cbn [repeat]. rewrite run_cons. apply IH. cbn [TyperEngine.step].
  destruct s as [e p x o c]. cbn [TyperEngine.at_pc] in H.
  destruct p; try discriminate H; unfold TyperEngine.step_worker; cbn;
    try reflexivity.
  destruct (TyperEngine.s_on_done ss); reflexivity.
Qed.

Lemma eng_kept_in_try (w : TyperEngine.World) (ss : TyperEngine.Session)
    (k : nat) (s : TyperEngine.state) :
  TyperEngine.in_try (TyperEngine.at_pc
    (TyperEngine.run w ss (repeat TyperEngine.Worker k) s)) = true →
  TyperEngine.eng (TyperEngine.run w ss (repeat TyperEngine.Worker k) s)
  = TyperEngine.eng s.
Proof.
  revert s. induction k as [|k IH]; intros s H; [reflexivity|].
  cbn [repeat] in *. rewrite run_cons in *. cbn [TyperEngine.step] in *.
  destruct (TyperEngine.in_try (TyperEngine.at_pc s)) eqn:Htry.
  - rewrite IH by exact H.
    destruct s as [e p x o c]. cbn [TyperEngine.at_pc] in Htry.
    unfold TyperEngine.step_worker, TyperEngine.sleep, TyperEngine.call,
      TyperEngine.raise, TyperEngine.goto, TyperEngine.emit.
    destruct p; try discriminate Htry; cbn [TyperEngine.at_pc TyperEngine.eng];
      repeat case_match; reflexivity.
  - assert (TyperEngine.in_try (TyperEngine.at_pc
              (TyperEngine.step_worker w ss s)) = false) as Hf.
    { apply (in_try_false_run w ss 1 s Htry). }
    rewrite (in_try_false_run w ss k _ Hf) in H. discriminate H.
Qed.

(** X11: [stop()] does not cancel a session when [type_text] is called
    again before the worker has reached its [finally] block and before it
    takes its next step: [type_text] clears the flag that [stop()] set, the
    engine is as it was, and the first session, undisturbed otherwise, goes
    on to type its whole text. *)
Theorem stop_then_type_text_does_not_cancel (w : TyperEngine.World)
    (e : TyperEngine.t) (text : string) (press_enter : bool) (delay_before : Q)
    (on_char on_done : bool) (k k' : nat)
    (text' : string) (press_enter' : option bool) (delay_before' : option Q)
    (on_char' on_done' : bool) :
  (∀ p, TyperEngine.raises w p = false) →
  (0 <= delay_before)%Q →
  TyperEngine.humanize e = true ∨ (0.003 <= TyperEngine.base_delay e)%Q →
  4 * String.length text + 11 ≤ k + k' →
  let es := TyperEngine.type_text e text (Some press_enter) (Some delay_before)
              on_char on_done in
  let s1 := TyperEngine.run w es.2 (repeat TyperEngine.Worker k)
              (TyperEngine.spawn es) in
  TyperEngine.in_try (TyperEngine.at_pc s1) = true →
  let e' := (TyperEngine.type_text (TyperEngine.stop (TyperEngine.eng s1))
               text' press_enter' delay_before' on_char' on_done').1 in
  let s := TyperEngine.run w es.2 (repeat TyperEngine.Worker k')
             (TyperEngine.with_eng e' s1) in
  TyperEngine.with_eng e' s1 = s1
  ∧ TyperEngine.at_pc s = TyperEngine.PExit
  ∧ TyperEngine.typed_chars (TyperEngine.out s) = list_ascii_of_string text
  ∧ TyperEngine.has_enter (TyperEngine.out s) = press_enter.
Proof.
  intros Hquiet Hd Hfloor Hk es s1 Htry e' s.
  assert (TyperEngine.eng s1 = es.1) as Heng.
  { unfold s1. rewrite eng_kept_in_try by exact Htry. reflexivity. }
  assert (TyperEngine.with_eng e' s1 = s1) as Hsame.
  { unfold e'. rewrite Heng. destruct s1 as [e1 p1 x1 o1 c1].
    cbn [TyperEngine.eng] in Heng. subst e1. reflexivity. }
  split; [exact Hsame|].
  assert (s = TyperEngine.mkState (TyperEngine.set_is_typing false es.1)
                TyperEngine.PExit false
                (TyperEngine.body_events w es.2 es.1
                 ++ TyperEngine.enter_events es.2
                 ++ TyperEngine.done_events es.2) TyperEngine.CIdle) as ->.
  { unfold s. rewrite Hsame. unfold s1. rewrite <- run_repeat_add.
    apply run_undisturbed; try assumption. reflexivity. }
  cbn [TyperEngine.at_pc TyperEngine.out].
  split; [reflexivity|]. split.
  - rewrite typed_chars_app, typed_chars_tail, app_nil_r. apply typed_chars_body.
  - rewrite !has_enter_app.
    assert (TyperEngine.has_enter (TyperEngine.body_events w es.2 es.1) = false)
      as ->.
    { pose proof (body_has_no_enter_or_done w es.2 es.1) as Hb.
      unfold TyperEngine.has_enter.
      induction Hb as [|ev tr [He _] _ IH]; [reflexivity|].
      cbn. rewrite He. exact IH. }
    unfold TyperEngine.enter_events, TyperEngine.done_events.
    change (TyperEngine.s_press_enter es.2) with press_enter.
    destruct press_enter, (TyperEngine.s_on_done es.2); reflexivity.
Qed.

Lemma stop_then_type_text_does_not_cancel_witness :
  let es := TyperEngine.type_text TyperEngine.init "Hi" (Some true) (Some 0%Q)
              false false in
  let s1 := TyperEngine.run TyperEngine.quiet es.2 (repeat TyperEngine.Worker 3)
              (TyperEngine.spawn es) in
  let e' := (TyperEngine.type_text (TyperEngine.stop (TyperEngine.eng s1))
               "again" None None false false).1 in
  TyperEngine.typed_chars (TyperEngine.out
    (TyperEngine.run TyperEngine.quiet es.2 (repeat TyperEngine.Worker 16)
       (TyperEngine.with_eng e' s1)))
  = ["H"; "i"]%char.
Proof.
  intros es s1 e'.
  assert (∀ p, TyperEngine.raises TyperEngine.quiet p = false) as Hq
    by reflexivity.
  assert (0 <= 0)%Q as Hd by (vm_compute; discriminate).
  assert (TyperEngine.humanize TyperEngine.init = true
          ∨ (0.003 <= TyperEngine.base_delay TyperEngine.init)%Q) as Hf
    by (left; reflexivity).
  assert (4 * String.length "Hi" + 11 ≤ 3 + 16) as Hk by (vm_compute; lia).
  assert (TyperEngine.in_try (TyperEngine.at_pc s1) = true) as Ht
    by (vm_compute; reflexivity).
  exact (proj1 (proj2 (proj2 (stop_then_type_text_does_not_cancel
           TyperEngine.quiet TyperEngine.init "Hi" true 0 false false 3 16
           "again" None None false false Hq Hd Hf Hk Ht)))).
Defined.

(** ** More on the demo runner *)
Section Runner.
Import App.

(** X12: once [_stop_demo] has run, the demo is off, the step index is 0
    and the engine is stopped; a key press does nothing, and a callback of
    an earlier press that is still queued leaves the queue without starting
    a session. *)
Theorem stop_demo_drops_pending_presses (a : App.t) :
  let a' := _stop_demo a in
  demo_running a' = false
  ∧ demo_step_idx a' = 0
  ∧ TyperEngine.is_typing (typer a') = false
  ∧ TyperEngine._stop (typer a') = true
  ∧ (∀ key, _on_global_key key a' = a')
  ∧ (∀ ms q, after_queue a = (ms, cb_type_next_step) :: q →
       let a'' := mainloop_step a' in
       after_queue a'' = q
       ∧ threads a'' = threads a
       ∧ demo_step_idx a'' = 0
       ∧ typer a'' = typer a').
Proof.
  intros a'. repeat apply conj; try reflexivity.
  - intros key. unfold _on_global_key. cbn. rewrite andb_false_r. reflexivity.
  - intros ms q Hq a''. subst a'' a'. unfold mainloop_step, _stop_demo.
    cbn [after_queue]. rewrite Hq. unfold _type_next_step. cbn.
    destruct (selected_script a); repeat split; reflexivity.
Qed.

Lemma stop_demo_drops_pending_presses_witness :
  let script :=
    Models.mkScript "s" "demo" "" [Models.mkStep "1" "Hello" true 0] "" "" in
  let a := _on_global_key Keyboard.f2
             (App.mk (Some script) true 0 Keyboard.f2 TyperEngine.init [] []) in
  after_queue a = [(10, cb_type_next_step)]
  ∧ threads (mainloop_step (_stop_demo a)) = [].
Proof.
  intros script a. split; [reflexivity|].
  destruct (stop_demo_drops_pending_presses a) as (_ & _ & _ & _ & _ & Hq).
  destruct (Hq 10 [] eq_refl) as (_ & Hth & _).
  exact Hth.
Defined.

Lemma press_and_wait_types_next (a : App.t) (script : Models.Script)
    (step : Models.Step) :
  after_queue a = [] → demo_running a = true →
  TyperEngine.is_typing (typer a) = false →
  selected_script a = Some script →
  Models.steps script !! demo_step_idx a = Some step →
  press_and_wait a
  = App.mk (Some script) true (S (demo_step_idx a)) (_hotkey_key a)
      (TyperEngine.set_is_typing false
         (TyperEngine.set_is_typing true
            (TyperEngine.set_stop_flag false (typer a))))
      [] (threads a ++ [session_of step]).
Proof.
  intros Hq Hrun Ht Hsel Hstep.
  assert (¬ (List.length (Models.steps script) ≤ demo_step_idx a)) as Hlt.
  { apply lookup_lt_Some in Hstep. lia. }
  destruct a as [sel run idx hk ty q th].
  cbn [after_queue demo_running typer selected_script demo_step_idx
       _hotkey_key threads] in *.
  subst sel run q.
  unfold press_and_wait, _on_global_key, schedule.
  cbn [after_queue demo_running typer selected_script demo_step_idx
       _hotkey_key threads].
  rewrite bool_decide_eq_true_2 by reflexivity. rewrite Ht.
  cbn [andb negb app].
  assert (mainloop_step (App.mk (Some script) true idx hk ty
                           [(10, cb_type_next_step)] th)
          = App.mk (Some script) true (S idx) hk
              (TyperEngine.set_is_typing true (TyperEngine.set_stop_flag false ty))
              [] (th ++ [session_of step])) as ->.
  { unfold mainloop_step.
    cbn [after_queue demo_running typer selected_script demo_step_idx
         _hotkey_key threads].
    unfold _type_next_step.
    cbn [after_queue demo_running typer selected_script demo_step_idx
         _hotkey_key threads negb].
    rewrite bool_decide_eq_false_2 by exact Hlt. rewrite Hstep.
    reflexivity. }
  reflexivity.
Qed.

Lemma press_and_wait_exhausted (a : App.t) (script : Models.Script) :
  after_queue a = [] → demo_running a = true →
  TyperEngine.is_typing (typer a) = false →
  selected_script a = Some script →
  List.length (Models.steps script) ≤ demo_step_idx a →
  press_and_wait a = a.
Proof.
  intros Hq Hrun Ht Hsel Hlen.
  destruct a as [sel run idx hk ty q th].
  cbn [after_queue demo_running typer selected_script demo_step_idx
       _hotkey_key threads] in *.
  subst sel run q.
  unfold press_and_wait, _on_global_key, schedule.
  cbn [after_queue demo_running typer selected_script demo_step_idx
       _hotkey_key threads].
  rewrite bool_decide_eq_true_2 by reflexivity. rewrite Ht.
  cbn [andb negb app]. unfold mainloop_step.
  cbn [after_queue demo_running typer selected_script demo_step_idx
       _hotkey_key threads].
  unfold _type_next_step.
  cbn [after_queue demo_running typer selected_script demo_step_idx
       _hotkey_key threads negb].
  rewrite bool_decide_eq_true_2 by exact Hlen.
  cbn [typer]. rewrite Ht. reflexivity.
Qed.

(** X13: a running demo with no session in flight and an empty callback
    queue, the trigger key pressed [n] times, each session left to end
    before the next press: the sessions started are those of the next [n]
    steps from the step index on, in their order and as many as there are,
    the index ends [n] further or at the number of steps, and presses made
    after the last step start nothing. *)
Theorem demo_runs_through_the_steps (a : App.t) (script : Models.Script)
    (n : nat) :
  after_queue a = [] → demo_running a = true →
  TyperEngine.is_typing (typer a) = false →
  selected_script a = Some script →
  demo_step_idx a ≤ List.length (Models.steps script) →
  let a' := Nat.iter n press_and_wait a in
  demo_step_idx a' = (demo_step_idx a + n) `min` List.length (Models.steps script)
  ∧ threads a'
    = threads a
      ++ (session_of <$> take n (drop (demo_step_idx a) (Models.steps script)))
  ∧ TyperEngine.is_typing (typer a') = false
  ∧ after_queue a' = []
  ∧ demo_running a' = true
  ∧ selected_script a' = Some script.
Proof.
  intros Hq Hrun Ht Hsel Hidx.
  induction n as [|n IH]; intros a'; subst a'.
  - change (Nat.iter 0 press_and_wait a) with a.
    rewrite take_0, fmap_nil, app_nil_r, Nat.add_0_r.
    repeat apply conj; try assumption; try reflexivity. lia.
  - change (Nat.iter (S n) press_and_wait a)
      with (press_and_wait (Nat.iter n press_and_wait a)).
    destruct IH as (Hi & Hth & Hty & Hqu & Hru & Hse).
    set (b := Nat.iter n press_and_wait a) in *.
    destruct (Models.steps script !! demo_step_idx b) as [step|] eqn:Hstep.
    + rewrite (press_and_wait_types_next b script step) by assumption.
      cbn [demo_step_idx threads typer after_queue demo_running selected_script].
      pose proof (lookup_lt_Some _ _ _ Hstep) as Hlt.
      assert (demo_step_idx b = demo_step_idx a + n) as Hb by lia.
      rewrite Hb in Hstep.
      rewrite (take_S_r _ _ step) by (rewrite lookup_drop; exact Hstep).
      rewrite fmap_app, app_assoc, <- Hth.
      repeat apply conj; try reflexivity. lia.
    + apply lookup_ge_None in Hstep.
      rewrite (press_and_wait_exhausted b script) by assumption.
      assert (List.length (Models.steps script) ≤ demo_step_idx a + n) as Hge by lia.
      rewrite (take_ge _ (S n)) by (rewrite length_drop; lia).
      rewrite (take_ge _ n) in Hth by (rewrite length_drop; lia).
      repeat apply conj; try assumption. lia.
Qed.

Lemma demo_runs_through_the_steps_witness :
  let script :=
    Models.mkScript "s" "demo" ""
      [Models.mkStep "1" "Hello" true 0; Models.mkStep "2" "World" true 0]
      "" "" in
  let a := _start_demo (App.mk (Some script) false 0 Keyboard.f2
                               TyperEngine.init [] []) in
  let a' := Nat.iter 3 press_and_wait a in
  demo_step_idx a' = 2
  ∧ threads a' = [TyperEngine.mkSession "Hello" true 0 false true;
                  TyperEngine.mkSession "World" true 0 false true].
Proof.
  intros script a a'.
  destruct (demo_runs_through_the_steps a script 3 eq_refl eq_refl eq_refl
              eq_refl) as (Hi & Hth & _).
  { cbn. lia. }
  split; [exact Hi | exact Hth].
Defined.

(** X14: the hotkey menu maps the labels F1 to F10 to the function keys
    of the same names and any other label to F2; after a change only the
    chosen key triggers: a press of any other key changes nothing, and a
    press of the chosen key, with the demo running and no session in
    flight, queues one callback. *)
Theorem hotkey_change_selects_the_only_trigger (a : App.t) (value : string) :
  let a' := _on_hotkey_change value a in
  ((λ l, _hotkey_key (_on_hotkey_change l a))
     <$> ["F1"; "F2"; "F3"; "F4"; "F5"; "F6"; "F7"; "F8"; "F9"; "F10"]
   = [Keyboard.f1; Keyboard.f2; Keyboard.f3; Keyboard.f4; Keyboard.f5;
      Keyboard.f6; Keyboard.f7; Keyboard.f8; Keyboard.f9; Keyboard.f10])
  ∧ (value ∉ ["F1"; "F2"; "F3"; "F4"; "F5"; "F6"; "F7"; "F8"; "F9"; "F10"] →
     _hotkey_key a' = Keyboard.f2)
  ∧ (∀ key, key ≠ _hotkey_key a' → _on_global_key key a' = a')
  ∧ (demo_running a = true → TyperEngine.is_typing (typer a) = false →
     after_queue (_on_global_key (_hotkey_key a') a')
     = after_queue a ++ [(10, cb_type_next_step)]).
Proof.
  intros a'. split; [reflexivity|]. split; [|split].
  - intros Hn. subst a'. unfold _on_hotkey_change, key_map. cbn [_hotkey_key].
    repeat (rewrite lookup_insert_ne;
            [| intros <-; apply Hn; repeat constructor]).
    rewrite lookup_singleton_ne; [reflexivity|].
    intros <-. apply Hn. repeat constructor.
  - intros key Hne. unfold _on_global_key.
    rewrite bool_decide_eq_false_2 by exact Hne. reflexivity.
  - intros Hrun Ht. unfold _on_global_key.
    rewrite bool_decide_eq_true_2 by reflexivity.
    subst a'. cbn [demo_running typer _on_hotkey_change]. rewrite Hrun, Ht.
    reflexivity.
Qed.

Lemma hotkey_change_selects_the_only_trigger_witness :
  let a := App.mk None true 0 Keyboard.f2 TyperEngine.init [] [] in
  _hotkey_key (_on_hotkey_change "F12" a) = Keyboard.f2
  ∧ _on_global_key Keyboard.f2 (_on_hotkey_change "F5" a)
    = _on_hotkey_change "F5" a.
Proof.
  intros a. split.
  - refine (proj1 (proj2 (hotkey_change_selects_the_only_trigger a "F12")) _).
    intros H. repeat (apply elem_of_cons in H as [H|H]; [discriminate H|]).
    inversion H.
  - refine (proj1 (proj2 (proj2
              (hotkey_change_selects_the_only_trigger a "F5"))) Keyboard.f2 _).
    discriminate.
Defined.

End Runner.

(** ** The editor *)
Section EditorFacts.
Import Models Editor.
Variables (uuid4 : nat → string) (st : Storage.t).

Lemma py_index_in_range {A} (l : list A) (i : Z) :
  (0 ≤ i < Z.of_nat (List.length l))%Z → py_index l i = Some (Z.to_nat i).
Proof.
  intros H. unfold py_index.
  rewrite (proj2 (Z.leb_le 0 i)) by lia.
  rewrite (proj2 (Z.ltb_lt i _)) by lia. reflexivity.
Qed.

Lemma py_getitem_in_range {A} (l : list A) (i : Z) :
  (0 ≤ i < Z.of_nat (List.length l))%Z →
  ∃ x, py_getitem l i = Some x ∧ l !! Z.to_nat i = Some x.
Proof.
  intros H. unfold py_getitem. rewrite py_index_in_range by exact H.
  destruct (lookup_lt_is_Some_2 l (Z.to_nat i)) as [x Hx]; [lia|].
  exists x. by rewrite Hx.
Qed.

(** The shape of a well-formed state. *)
Lemma wf_cases (a : Editor.t) :
  wf a ↔
  match selected_script a with
  | Some i =>
      ∃ script, scripts a !! i = Some script
                ∧ match selected_step_idx a with
                  | Some idx => (0 ≤ idx < Z.of_nat (List.length (steps script)))%Z
                  | None => True
                  end
  | None => selected_step_idx a = None
  end.
Proof.
  unfold wf, selected. destruct (selected_script a) as [i|].
  - split.
    + intros [Hi Hidx].
      destruct (lookup_lt_is_Some_2 (scripts a) i (Hi i eq_refl)) as [sc Hsc].
      exists sc. split; [exact Hsc|].
      destruct (selected_step_idx a) as [idx|]; [|exact I].
      destruct (Hidx idx eq_refl) as [sc' [Hsc' Hr]].
      rewrite Hsc in Hsc'. by injection Hsc' as ->.
    + intros [sc [Hsc Hidx]]. split.
      * intros j [= <-]. eapply lookup_lt_Some. exact Hsc.
      * intros idx Hs. rewrite Hs in Hidx. eauto.
  - split.
    + intros [_ Hidx]. destruct (selected_step_idx a) as [idx|]; [|reflexivity].
      destruct (Hidx idx eq_refl) as [sc [Hsc _]]. discriminate Hsc.
    + intros ->. split; intros ? [=].
Qed.

Lemma wf_init (loaded : list Script) : wf (Editor.init loaded).
Proof. apply wf_cases. reflexivity. Qed.

Lemma wf_select_script (i : nat) (a : Editor.t) :
  i < List.length (scripts a) → wf (_select_script i a).
Proof.
  intros Hi. apply wf_cases. cbn.
  destruct (lookup_lt_is_Some_2 (scripts a) i Hi) as [sc Hsc]. eauto.
Qed.

Lemma wf_select_step (idx : Z) (a : Editor.t) : wf a → wf (_select_step idx a).
Proof.
  intros Hwf. unfold _select_step.
  destruct (selected a) as [sc|] eqn:Hsel; [|exact Hwf].
  destruct ((idx <? 0)%Z || (Z.of_nat (List.length (steps sc)) <=? idx)%Z) eqn:Hb;
    [exact Hwf|].
  apply orb_false_iff in Hb as [H1 H2].
  apply Z.ltb_ge in H1. apply Z.leb_gt in H2.
  apply wf_cases. apply wf_cases in Hwf. unfold selected in Hsel.
  cbn. destruct (selected_script a) as [i|]; [|discriminate Hsel].
  exists sc. split; [exact Hsel | lia].
Qed.

(** An assignment through the selected script that leaves the number of
    steps, or the selection of a step, alone. *)
Lemma wf_update_selected (f : Script → Script) (a : Editor.t) :
  wf a →
  (∀ s, selected a = Some s →
        match selected_step_idx a with
        | Some idx => (0 ≤ idx < Z.of_nat (List.length (steps (f s))))%Z
        | None => True
        end) →
  wf (update_selected f a).
Proof.
  intros Hwf Hf. apply wf_cases. apply wf_cases in Hwf.
  unfold update_selected, selected in *.
  destruct (selected_script a) as [i|] eqn:Hi; cbn; rewrite ?Hi; [|exact Hwf].
  destruct Hwf as [sc [Hsc Hidx]].
  exists (f sc). split.
  - rewrite list_lookup_alter_eq, Hsc. reflexivity.
  - apply Hf. exact Hsc.
Qed.

Lemma selected_update_selected (f : Script → Script) (a : Editor.t) (s : Script) :
  selected a = Some s → selected (update_selected f a) = Some (f s).
Proof.
  unfold selected, update_selected.
  destruct (selected_script a) as [i|] eqn:Hi; [|discriminate].
  cbn. rewrite Hi. intros Hs. rewrite list_lookup_alter_eq, Hs. reflexivity.
Qed.

Lemma wf_forget_step (a : Editor.t) : wf a → wf (with_step_idx None a).
Proof.
  intros Hwf. apply wf_cases. apply wf_cases in Hwf. cbn.
  destruct (selected_script a); [|reflexivity].
  destruct Hwf as [sc [Hsc _]]. eauto.
Qed.

Lemma wf_update_selected_forget (f : Script → Script) (a : Editor.t) :
  wf a → wf (with_step_idx None (update_selected f a)).
Proof.
  intros Hwf. apply wf_cases. apply wf_cases in Hwf.
  unfold update_selected.
  destruct (selected_script a) as [i|] eqn:Hi; cbn; rewrite ?Hi; [|reflexivity].
  destruct Hwf as [sc [Hsc _]]. exists (f sc).
  rewrite list_lookup_alter_eq, Hsc. done.
Qed.

Lemma wf_with_demo_step_idx (i : Z) (a : Editor.t) :
  wf a → wf (with_demo_step_idx i a).
Proof. intros H. apply wf_cases. apply wf_cases in H. exact H. Qed.

Lemma wf_selected_step (a : Editor.t) (sc : Script) (idx : Z) :
  wf a → selected a = Some sc → selected_step_idx a = Some idx →
  (0 ≤ idx < Z.of_nat (List.length (steps sc)))%Z.
Proof.
  intros [_ H] Hsel Hidx. destruct (H idx Hidx) as [sc' [Hsc' Hr]].
  rewrite Hsel in Hsc'. by injection Hsc' as <-.
Qed.

Lemma length_py_insert {A} (l : list A) (i : Z) (x : A) :
  List.length (py_insert l i x) = S (List.length l).
Proof.
  unfold py_insert. rewrite length_app, length_take. cbn [List.length].
  rewrite length_drop. lia.
Qed.

Lemma py_insert_in_range {A} (l : list A) (i : Z) (x : A) :
  (0 ≤ i)%Z → py_insert l i x = take (Z.to_nat i) l ++ x :: drop (Z.to_nat i) l.
Proof.
  intros H. unfold py_insert. rewrite (proj2 (Z.ltb_ge i 0)) by lia. reflexivity.
Qed.

Lemma swap_items_in_range {A} (l : list A) (i j : Z) :
  (0 ≤ i < Z.of_nat (List.length l))%Z →
  (0 ≤ j < Z.of_nat (List.length l))%Z →
  ∃ xi xj,
    l !! Z.to_nat i = Some xi ∧ l !! Z.to_nat j = Some xj
    ∧ swap_items l i j
      = Some (<[Z.to_nat j := xi]> (<[Z.to_nat i := xj]> l)).
Proof.
  intros Hi Hj.
  destruct (py_getitem_in_range l i Hi) as [xi [Hgi Hli]].
  destruct (py_getitem_in_range l j Hj) as [xj [Hgj Hlj]].
  exists xi, xj. split; [exact Hli|]. split; [exact Hlj|].
  unfold swap_items, py_setitem. rewrite Hgi, Hgj.
  rewrite py_index_in_range by exact Hi.
  rewrite py_index_in_range by (rewrite length_insert; exact Hj).
  reflexivity.
Qed.

Lemma safe_new_script (now1 now2 : string) (a : Editor.t) (env : Storage.Env) :
  safe (_new_script uuid4 st now1 now2 a env).
Proof.
  cbn. apply wf_select_script. cbn. rewrite length_app. cbn. lia.
Qed.

Lemma safe_delete_script (confirmed : bool) (a : Editor.t) (env : Storage.Env) :
  wf a → safe (_delete_script st confirmed a env).
Proof.
  intros Hwf. unfold _delete_script.
  destruct (selected a); [|exact Hwf].
  destruct confirmed; [|exact Hwf]. cbn. apply wf_cases. reflexivity.
Qed.

Lemma safe_add_step (now : string) (a : Editor.t) (env : Storage.Env) :
  wf a → safe (_add_step uuid4 st now a env).
Proof.
  intros Hwf. unfold _add_step.
  destruct (selected a) as [sc|] eqn:Hsel; [|exact Hwf].
  cbn [Step_init safe]. apply wf_select_step, wf_update_selected; [exact Hwf|].
  intros s Hs. rewrite Hsel in Hs. injection Hs as <-.
  destruct (selected_step_idx a) as [idx|] eqn:Hidx; [|exact I].
  pose proof (wf_selected_step a sc idx Hwf Hsel Hidx).
  cbn. rewrite length_app. cbn. lia.
Qed.

Lemma safe_duplicate_step (now : string) (a : Editor.t) (env : Storage.Env) :
  wf a → safe (_duplicate_step uuid4 st now a env).
Proof.
  intros Hwf. unfold _duplicate_step.
  destruct (selected a) as [sc|] eqn:Hsel; [|exact Hwf].
  destruct (selected_step_idx a) as [idx|] eqn:Hidx; [|exact Hwf].
  pose proof (wf_selected_step a sc idx Hwf Hsel Hidx) as Hr.
  destruct (py_getitem_in_range (steps sc) idx Hr) as [src [-> _]].
  cbn [Step_init safe]. apply wf_select_step, wf_update_selected; [exact Hwf|].
  intros s Hs. rewrite Hsel in Hs. injection Hs as <-. rewrite Hidx.
  cbn. rewrite length_py_insert. lia.
Qed.

Lemma safe_delete_step (now : string) (a : Editor.t) (env : Storage.Env) :
  wf a → safe (_delete_step st now a env).
Proof.
  intros Hwf. unfold _delete_step.
  destruct (selected a) as [sc|] eqn:Hsel; [|exact Hwf].
  destruct (selected_step_idx a) as [idx|] eqn:Hidx; [|exact Hwf].
  pose proof (wf_selected_step a sc idx Hwf Hsel Hidx) as Hr.
  unfold py_delitem. rewrite py_index_in_range by exact Hr.
  cbn [safe]. apply wf_update_selected_forget, Hwf.
Qed.

Lemma wf_move (now : string) (a : Editor.t) (sc : Script) (idx idx' : Z)
    (sts : list Step) :
  wf a → selected a = Some sc →
  List.length sts = List.length (steps sc) →
  (0 ≤ idx' < Z.of_nat (List.length (steps sc)))%Z →
  wf (update_selected (λ s, touch now (set_steps sts s))
        (with_step_idx (Some idx') a)).
Proof.
  intros Hwf Hsel Hlen Hr. apply wf_update_selected.
  - apply wf_cases. apply wf_cases in Hwf. unfold selected in Hsel. cbn.
    destruct (selected_script a); [|discriminate Hsel]. eauto.
  - intros s _. cbn. lia.
Qed.

Lemma safe_move_step_up (now : string) (a : Editor.t) (env : Storage.Env) :
  wf a → safe (_move_step_up st now a env).
Proof.
  intros Hwf. unfold _move_step_up.
  destruct (selected a) as [sc|] eqn:Hsel; [|exact Hwf].
  destruct (selected_step_idx a) as [idx|] eqn:Hidx; [|exact Hwf].
  pose proof (wf_selected_step a sc idx Hwf Hsel Hidx) as Hr.
  destruct (Z.eqb_spec idx 0) as [->|Hne]; [exact Hwf|].
  destruct (swap_items_in_range (steps sc) (idx - 1) idx) as (xi & xj & _ & _ & ->);
    [lia | lia |].
  cbn [safe]. apply (wf_move now a sc); try assumption; [|lia].
  by rewrite !length_insert.
Qed.

Lemma safe_move_step_down (now : string) (a : Editor.t) (env : Storage.Env) :
  wf a → safe (_move_step_down st now a env).
Proof.
  intros Hwf. unfold _move_step_down.
  destruct (selected a) as [sc|] eqn:Hsel; [|exact Hwf].
  destruct (selected_step_idx a) as [idx|] eqn:Hidx; [|exact Hwf].
  pose proof (wf_selected_step a sc idx Hwf Hsel Hidx) as Hr.
  destruct (Z.leb_spec (Z.of_nat (List.length (steps sc)) - 1) idx) as [Hle|Hlt];
    [exact Hwf|].
  destruct (swap_items_in_range (steps sc) idx (idx + 1)) as (xi & xj & _ & _ & ->);
    [lia | lia |].
  cbn [safe]. apply (wf_move now a sc); try assumption; [|lia].
  by rewrite !length_insert.
Qed.

Lemma wf_update_current_step (f : Step → Step) (a : Editor.t) :
  wf a → wf (update_current_step f a).
Proof.
  intros Hwf. unfold update_current_step.
  destruct (selected_step_idx a) as [idx|] eqn:Hidx; [|exact Hwf].
  apply wf_update_selected; [exact Hwf|].
  intros s Hs. rewrite Hidx. cbn. rewrite length_alter.
  exact (wf_selected_step a s idx Hwf Hs Hidx).
Qed.

Lemma wf_touch_selected (now : string) (f : Script → Script) (a : Editor.t) :
  wf a → (∀ s, steps (f s) = steps s) → wf (update_selected f a).
Proof.
  intros Hwf Hf. apply wf_update_selected; [exact Hwf|].
  intros s Hs. rewrite Hf.
  destruct (selected_step_idx a) as [idx|] eqn:Hidx; [|exact I].
  exact (wf_selected_step a s idx Hwf Hs Hidx).
Qed.

Lemma safe_import_script (path : string) (a : Editor.t) (env : Storage.Env) :
  wf a → safe (_import_script uuid4 st path a env).
Proof.
  intros Hwf. unfold _import_script.
  destruct (bool_decide (path = "")); [exact Hwf|].
  destruct (Storage.files env !! path) as [f|]; [|exact Hwf].
  destruct (Storage.json_load f) as [data|e|]; [|exact Hwf|exact I].
  destruct (Storage._dict_to_script uuid4 data (Storage.drawn env))
    as [[sc|e|] n']; [|exact Hwf|exact I].
  cbn [safe]. apply wf_select_script. cbn. rewrite length_app. cbn. lia.
Qed.

Lemma safe_on_step_click (idx : nat) (a : Editor.t) (env : Storage.Env) :
  wf a → safe (_on_step_click (Z.of_nat idx) a env).
Proof.
  intros Hwf. unfold _on_step_click.
  pose proof (wf_select_step (Z.of_nat idx) a Hwf) as Hwf'.
  destruct (demo_running (_select_step (Z.of_nat idx) a)) eqn:Hrun; [|exact Hwf'].
  apply (wf_with_demo_step_idx (Z.of_nat idx)) in Hwf'.
  unfold _update_runner_state. cbn [demo_running demo_step_idx with_demo_step_idx].
  rewrite Hrun. cbn [negb].
  destruct (selected _) as [sc|].
  - destruct (Z.leb_spec (Z.of_nat (List.length (steps sc))) (Z.of_nat idx)) as [Hle|Hlt];
      [exact Hwf'|].
    destruct (py_getitem_in_range (steps sc) (Z.of_nat idx)) as [x [-> _]];
      [lia | exact Hwf'].
  - rewrite (proj2 (Z.leb_le 0 (Z.of_nat idx))) by lia. exact Hwf'.
Qed.

(** X15: in a state where the selected script is one of the scripts and
    the selected step one of its steps, as it is at start-up, whatever the
    user does next in the editor, no list access raises [IndexError], no
    step is read through a script that is [None], and the state that
    results is again of that kind. *)
Theorem editor_keeps_selection_in_range (act : action) (a : Editor.t)
    (env : Storage.Env) :
  (∀ loaded, wf (Editor.init loaded))
  ∧ (wf a → safe (perform uuid4 st act a env)).
Proof.
  split; [exact wf_init|].
  intros Hwf. destruct act; cbn [perform].
  - apply safe_new_script.
  - case_bool_decide; cbn [safe]; [by apply wf_select_script | exact Hwf].
  - by apply safe_delete_script.
  - by apply safe_on_step_click.
  - by apply safe_add_step.
  - by apply safe_duplicate_step.
  - by apply safe_delete_step.
  - by apply safe_move_step_up.
  - by apply safe_move_step_down.
  - unfold _on_step_text_change. destruct (_current_step a); [|exact Hwf].
    cbn [safe]. apply (wf_touch_selected now); [|reflexivity].
    by apply wf_update_current_step.
  - unfold _on_enter_toggle. destruct (_current_step a); [|exact Hwf].
    cbn [safe]. by apply wf_update_current_step.
  - unfold _on_delay_change. destruct (_current_step a); [|exact Hwf].
    cbn [safe]. destruct parsed; [|exact Hwf]. by apply wf_update_current_step.
  - unfold _on_name_change. destruct (selected a); [|exact Hwf].
    cbn [safe]. by apply (wf_touch_selected now).
  - unfold _on_desc_change. destruct (selected a); [|exact Hwf].
    cbn [safe]. by apply (wf_touch_selected now).
  - unfold _export_script. destruct (selected a); [|exact Hwf].
    case_bool_decide; exact Hwf.
  - by apply safe_import_script.
Qed.

Lemma scripts_select_step (idx : Z) (a : Editor.t) :
  scripts (_select_step idx a) = scripts a.
Proof. unfold _select_step. repeat case_match; reflexivity. Qed.

Lemma saved_save (a : Editor.t) (env : Storage.Env) :
  saved st a (_save st a env).
Proof. unfold saved, _save, Storage.save. cbn. apply lookup_insert_eq. Qed.

Lemma saved_load (a : Editor.t) (env : Storage.Env) :
  saved st a env →
  Storage.load uuid4 st env = (Storage.Ok (scripts a), env).
Proof. intros H. apply (load_legacy uuid4 (λ _, None)). exact H. Qed.

(** X16: the one callback that can change the scripts and return without
    saving is [_import_script] at a file in which a field holds a value of
    another JSON type than the dataclasses declare, which the typed
    records leave out. That import apart, whenever something the user does
    in the editor changes the list of scripts or anything in a script, the
    callback has written the new list to the file of the store before it
    returns, so that loading the file gives the scripts the editor
    shows. *)
Theorem every_change_is_saved (act : action) (a a' : Editor.t)
    (env env' : Storage.Env) :
  (perform uuid4 st act a env = Done a' env' →
   scripts a' ≠ scripts a →
   saved st a' env'
   ∧ Storage.load uuid4 st env' = (Storage.Ok (scripts a'), env'))
  ∧ (perform uuid4 st act a env = OutOfModel →
     ∃ path data,
       act = Import path
       ∧ Storage.files env !! path = Some (Storage.Json data)
       ∧ (Storage._dict_to_script uuid4 data (Storage.drawn env)).1
         = Storage.IllTyped).
Proof.
  split.
  - intros Hdone Hne.
    assert (saved st a' env') as Hs; [|split; [exact Hs | by apply saved_load]].
    destruct act; cbn [perform] in Hdone;
      unfold _new_script, _delete_script, _on_step_click, _update_runner_state,
        _add_step, _duplicate_step, _delete_step, _move_step_up, _move_step_down,
        _on_step_text_change, _on_enter_toggle, _on_delay_change, _on_name_change,
        _on_desc_change, _export_script, _import_script in Hdone;
      cbn [Step_init] in Hdone;
      repeat case_match; simplify_eq;
      try (exfalso; apply Hne; reflexivity);
      try apply saved_save.
    all: exfalso; apply Hne; cbn [scripts with_demo_step_idx];
      apply scripts_select_step.
  - intros Hout.
    destruct act; cbn [perform] in Hout;
      unfold _new_script, _delete_script, _on_step_click, _update_runner_state,
        _add_step, _duplicate_step, _delete_step, _move_step_up, _move_step_down,
        _on_step_text_change, _on_enter_toggle, _on_delay_change, _on_name_change,
        _on_desc_change, _export_script in Hout;
      cbn [Step_init] in Hout;
      try (repeat case_match; discriminate Hout).
    unfold _import_script in Hout.
    destruct (bool_decide (path = "")); [discriminate Hout|].
    destruct (Storage.files env !! path) as [f|] eqn:Hf; [|discriminate Hout].
    destruct f as [| |data]; cbn [Storage.json_load] in Hout;
      try discriminate Hout.
    destruct (Storage._dict_to_script uuid4 data (Storage.drawn env))
      as [[sc|ex|] n'] eqn:Hd; try discriminate Hout.
    exists path, data. split; [reflexivity|]. split; [exact Hf|].
    by rewrite Hd.
Qed.

Lemma selected_with_step_idx (o : option Z) (a : Editor.t) :
  selected (with_step_idx o a) = selected a.
Proof. reflexivity. Qed.

Lemma selected_step_idx_update_selected (f : Script → Script) (a : Editor.t) :
  selected_step_idx (update_selected f a) = selected_step_idx a.
Proof. unfold update_selected. by destruct (selected_script a). Qed.

Lemma selected_steps_selected (a : Editor.t) (sc : Script) :
  selected a = Some sc → selected_steps a = steps sc.
Proof. unfold selected_steps. by intros ->. Qed.

Lemma swap_back {A} (l : list A) (i j : nat) (x y : A) :
  i ≠ j → l !! i = Some x → l !! j = Some y →
  <[j := y]> (<[i := x]> (<[j := x]> (<[i := y]> l))) = l.
Proof.
  intros Hij Hx Hy.
  rewrite (list_insert_insert_ne _ i j) by exact Hij.
  rewrite !list_insert_insert_eq, (list_insert_id l i x) by exact Hx.
  by apply list_insert_id.
Qed.

(** What [_move_step_up] does when there is a step above the selected
    one. *)
Lemma move_step_up_spec (now : string) (a : Editor.t) (env : Storage.Env)
    (sc : Script) (idx : Z) :
  wf a → selected a = Some sc → selected_step_idx a = Some idx → idx ≠ 0%Z →
  ∃ x y,
    steps sc !! Z.to_nat (idx - 1) = Some x
    ∧ steps sc !! Z.to_nat idx = Some y
    ∧ let sts := <[Z.to_nat idx := x]> (<[Z.to_nat (idx - 1) := y]> (steps sc)) in
      let a' := update_selected (λ s, touch now (set_steps sts s))
                  (with_step_idx (Some (idx - 1)%Z) a) in
      _move_step_up st now a env = Done a' (_save st a' env)
      ∧ wf a'
      ∧ selected a' = Some (touch now (set_steps sts sc))
      ∧ selected_step_idx a' = Some (idx - 1)%Z.
Proof.
  intros Hwf Hsel Hidx Hne.
  pose proof (wf_selected_step a sc idx Hwf Hsel Hidx) as Hr.
  destruct (swap_items_in_range (steps sc) (idx - 1) idx) as (x & y & Hx & Hy & Hswap);
    [lia | lia |].
  exists x, y. split; [exact Hx|]. split; [exact Hy|]. cbn zeta.
  split; [|split; [|split]].
  - unfold _move_step_up. rewrite Hsel, Hidx.
    rewrite (proj2 (Z.eqb_neq idx 0)) by exact Hne. rewrite Hswap. reflexivity.
  - apply (wf_move now a sc); try assumption; [|lia]. by rewrite !length_insert.
  - exact (selected_update_selected _ (with_step_idx _ a) sc Hsel).
  - exact (selected_step_idx_update_selected _ (with_step_idx _ a)).
Qed.

Lemma move_step_down_spec (now : string) (a : Editor.t) (env : Storage.Env)
    (sc : Script) (idx : Z) :
  wf a → selected a = Some sc → selected_step_idx a = Some idx →
  (idx < Z.of_nat (List.length (steps sc)) - 1)%Z →
  ∃ x y,
    steps sc !! Z.to_nat idx = Some x
    ∧ steps sc !! Z.to_nat (idx + 1) = Some y
    ∧ let sts := <[Z.to_nat (idx + 1) := x]> (<[Z.to_nat idx := y]> (steps sc)) in
      let a' := update_selected (λ s, touch now (set_steps sts s))
                  (with_step_idx (Some (idx + 1)%Z) a) in
      _move_step_down st now a env = Done a' (_save st a' env)
      ∧ wf a'
      ∧ selected a' = Some (touch now (set_steps sts sc))
      ∧ selected_step_idx a' = Some (idx + 1)%Z.
Proof.
  intros Hwf Hsel Hidx Hlt.
  pose proof (wf_selected_step a sc idx Hwf Hsel Hidx) as Hr.
  destruct (swap_items_in_range (steps sc) idx (idx + 1)) as (x & y & Hx & Hy & Hswap);
    [lia | lia |].
  exists x, y. split; [exact Hx|]. split; [exact Hy|]. cbn zeta.
  split; [|split; [|split]].
  - unfold _move_step_down. rewrite Hsel, Hidx.
    rewrite (proj2 (Z.leb_gt _ idx)) by exact Hlt. rewrite Hswap. reflexivity.
  - apply (wf_move now a sc); try assumption; [|lia]. by rewrite !length_insert.
  - exact (selected_update_selected _ (with_step_idx _ a) sc Hsel).
  - exact (selected_step_idx_update_selected _ (with_step_idx _ a)).
Qed.

Lemma current_step_in_range (a : Editor.t) (sc : Script) (idx : Z) :
  selected a = Some sc → selected_step_idx a = Some idx →
  (0 ≤ idx < Z.of_nat (List.length (steps sc)))%Z →
  _current_step a = steps sc !! Z.to_nat idx.
Proof.
  intros Hsel Hidx Hr. unfold _current_step. rewrite Hsel, Hidx.
  rewrite (proj2 (Z.leb_le 0 idx)), (proj2 (Z.ltb_lt idx _)) by lia.
  cbn [andb]. unfold py_getitem. by rewrite py_index_in_range.
Qed.

(** X17: [_move_step_up] on a selected step that is not the first
    exchanges it with the step above, leaves every other step of the script
    where it was, and keeps the moved step selected. *)
Theorem move_step_up_exchanges_with_the_step_above (now : string)
    (a : Editor.t) (env : Storage.Env) (sc : Script) (idx : Z) :
  wf a → selected a = Some sc → selected_step_idx a = Some idx → idx ≠ 0%Z →
  ∃ a' env',
    _move_step_up st now a env = Done a' env'
    ∧ selected_steps a' !! Z.to_nat (idx - 1) = steps sc !! Z.to_nat idx
    ∧ selected_steps a' !! Z.to_nat idx = steps sc !! Z.to_nat (idx - 1)
    ∧ (∀ k, k ≠ Z.to_nat idx → k ≠ Z.to_nat (idx - 1) →
            selected_steps a' !! k = steps sc !! k)
    ∧ selected_step_idx a' = Some (idx - 1)%Z
    ∧ _current_step a' = _current_step a
    ∧ is_Some (_current_step a).
Proof.
  intros Hwf Hsel Hidx Hne.
  pose proof (wf_selected_step a sc idx Hwf Hsel Hidx) as Hr.
  destruct (move_step_up_spec now a env sc idx Hwf Hsel Hidx Hne)
    as (x & y & Hx & Hy & Hup & Hwf' & Hsel' & Hidx').
  cbn zeta in *. eexists _, _. split; [exact Hup|].
  rewrite (selected_steps_selected _ _ Hsel'). cbn [steps touch set_steps].
  assert (Z.to_nat (idx - 1) ≠ Z.to_nat idx) as Hij by lia.
  assert (<[Z.to_nat idx:=x]> (<[Z.to_nat (idx - 1):=y]> (steps sc))
            !! Z.to_nat (idx - 1) = Some y) as Hup1.
  { rewrite list_lookup_insert_ne by lia. apply list_lookup_insert_eq. lia. }
  repeat apply conj.
  - by rewrite Hup1, Hy.
  - rewrite Hx. apply list_lookup_insert_eq. rewrite length_insert. lia.
  - intros k Hk1 Hk2. by rewrite !list_lookup_insert_ne by done.
  - exact Hidx'.
  - rewrite (current_step_in_range _ _ _ Hsel' Hidx');
      cbn [steps touch set_steps]; [|rewrite !length_insert; lia].
    rewrite (current_step_in_range _ _ _ Hsel Hidx Hr). by rewrite Hup1, Hy.
  - rewrite (current_step_in_range _ _ _ Hsel Hidx Hr), Hy. eauto.
Qed.

(** X18: [_move_step_up] followed by [_move_step_down] puts every step of
    the selected script back where it was and selects the same step again;
    of the script only [updated_at] differs. The same holds for
    [_move_step_down] followed by [_move_step_up]. *)
Theorem move_up_and_down_cancel (now1 now2 : string) (a : Editor.t)
    (env : Storage.Env) (sc : Script) (idx : Z) :
  wf a → selected a = Some sc → selected_step_idx a = Some idx →
  (idx ≠ 0%Z →
   ∃ a1 env1 a2 env2,
     _move_step_up st now1 a env = Done a1 env1
     ∧ _move_step_down st now2 a1 env1 = Done a2 env2
     ∧ selected a2 = Some (touch now2 sc)
     ∧ selected_step_idx a2 = Some idx)
  ∧ ((idx < Z.of_nat (List.length (steps sc)) - 1)%Z →
     ∃ a1 env1 a2 env2,
       _move_step_down st now1 a env = Done a1 env1
       ∧ _move_step_up st now2 a1 env1 = Done a2 env2
       ∧ selected a2 = Some (touch now2 sc)
       ∧ selected_step_idx a2 = Some idx).
Proof.
  intros Hwf Hsel Hidx.
  pose proof (wf_selected_step a sc idx Hwf Hsel Hidx) as Hr.
  split.
  - intros Hne.
    destruct (move_step_up_spec now1 a env sc idx Hwf Hsel Hidx Hne)
      as (x & y & Hx & Hy & Hup & Hwf1 & Hsel1 & Hidx1).
    cbn zeta in *. set (a1 := update_selected _ _) in *.
    destruct (move_step_down_spec now2 a1 (_save st a1 env) _ _ Hwf1 Hsel1 Hidx1)
      as (x' & y' & Hx' & Hy' & Hdown & Hwf2 & Hsel2 & Hidx2).
    { cbn [steps touch set_steps]. rewrite !length_insert. lia. }
    cbn zeta in *. eexists _, _, _, _.
    split; [exact Hup|]. split; [exact Hdown|].
    cbn [steps touch set_steps] in Hx', Hy'.
    replace (idx - 1 + 1)%Z with idx in * by lia.
    rewrite list_lookup_insert_ne, list_lookup_insert_eq in Hx' by lia.
    rewrite list_lookup_insert_eq in Hy' by (rewrite length_insert; lia).
    injection Hx' as <-. injection Hy' as <-.
    split; [|exact Hidx2].
    rewrite Hsel2. cbn [steps touch set_steps script_id name description created_at].
    rewrite swap_back by (done || lia). reflexivity.
  - intros Hlt.
    destruct (move_step_down_spec now1 a env sc idx Hwf Hsel Hidx Hlt)
      as (x & y & Hx & Hy & Hdown & Hwf1 & Hsel1 & Hidx1).
    cbn zeta in *. set (a1 := update_selected _ _) in *.
    destruct (move_step_up_spec now2 a1 (_save st a1 env) _ _ Hwf1 Hsel1 Hidx1)
      as (x' & y' & Hx' & Hy' & Hup & Hwf2 & Hsel2 & Hidx2); [lia|].
    cbn zeta in *. eexists _, _, _, _.
    split; [exact Hdown|]. split; [exact Hup|].
    cbn [steps touch set_steps] in Hx', Hy'.
    replace (idx + 1 - 1)%Z with idx in * by lia.
    rewrite list_lookup_insert_ne, list_lookup_insert_eq in Hx' by lia.
    rewrite list_lookup_insert_eq in Hy' by (rewrite length_insert; lia).
    injection Hx' as <-. injection Hy' as <-.
    split; [|exact Hidx2].
    rewrite Hsel2. cbn [steps touch set_steps script_id name description created_at].
    rewrite swap_back by (done || lia). reflexivity.
Qed.

Lemma select_step_in_range (idx : Z) (a : Editor.t) (sc : Script) :
  selected a = Some sc → (0 ≤ idx < Z.of_nat (List.length (steps sc)))%Z →
  _select_step idx a = with_step_idx (Some idx) a.
Proof.
  intros Hsel Hr. unfold _select_step. rewrite Hsel.
  rewrite (proj2 (Z.ltb_ge idx 0)), (proj2 (Z.leb_gt _ idx)) by lia. reflexivity.
Qed.

(** X19: [_add_step] on a selected script appends one step with the
    defaults of [Step] and a fresh uuid, keeps the steps that were there,
    and selects the new step. *)
Theorem add_step_appends_a_default_step (now : string) (a : Editor.t)
    (env : Storage.Env) (sc : Script) :
  selected a = Some sc →
  ∃ a' env',
    _add_step uuid4 st now a env = Done a' env'
    ∧ selected_steps a'
      = steps sc ++ [mkStep (uuid4 (Storage.drawn env)) "" true 0.3%Q]
    ∧ selected_step_idx a' = Some (Z.of_nat (List.length (steps sc)))
    ∧ _current_step a'
      = Some (mkStep (uuid4 (Storage.drawn env)) "" true 0.3%Q)
    ∧ Storage.drawn env' = S (Storage.drawn env).
Proof.
  intros Hsel. unfold _add_step. rewrite Hsel. cbn [Step_init default from_option id].
  set (new := mkStep _ _ _ _).
  set (a1 := update_selected _ a).
  assert (selected a1 = Some (touch now (set_steps (steps sc ++ [new]) sc))) as Hsel1
    by exact (selected_update_selected _ a sc Hsel).
  assert (Z.of_nat (List.length (steps sc ++ [new])) - 1
          = Z.of_nat (List.length (steps sc)))%Z as ->
    by (rewrite length_app; cbn; lia).
  rewrite (select_step_in_range _ a1 _ Hsel1)
    by (cbn [steps touch set_steps]; rewrite length_app; cbn; lia).
  eexists _, _. split; [reflexivity|].
  rewrite (selected_steps_selected (with_step_idx _ a1) _ Hsel1).
  repeat apply conj; try reflexivity.
  rewrite (current_step_in_range (with_step_idx _ a1) _ _ Hsel1 eq_refl)
    by (cbn [steps touch set_steps]; rewrite length_app; cbn; lia).
  cbn [steps touch set_steps]. rewrite Nat2Z.id.
  rewrite lookup_app_r by lia. by rewrite Nat.sub_diag.
Qed.

Lemma duplicate_step_spec (now : string) (a : Editor.t) (env : Storage.Env)
    (sc : Script) (idx : Z) :
  wf a → selected a = Some sc → selected_step_idx a = Some idx →
  ∃ src,
    steps sc !! Z.to_nat idx = Some src
    ∧ let new := mkStep (uuid4 (Storage.drawn env)) (text src) (press_enter src)
                   (delay_before src) in
      let sts := take (S (Z.to_nat idx)) (steps sc)
                 ++ new :: drop (S (Z.to_nat idx)) (steps sc) in
      let a' := with_step_idx (Some (idx + 1)%Z)
                  (update_selected (λ s, touch now (set_steps
                     (py_insert (steps s) (idx + 1) new) s)) a) in
      _duplicate_step uuid4 st now a env
      = Done a' (_save st a' (Storage.mkEnv (Storage.files env)
                                (S (Storage.drawn env))))
      ∧ wf a'
      ∧ selected a' = Some (touch now (set_steps sts sc))
      ∧ selected_step_idx a' = Some (idx + 1)%Z.
Proof.
  intros Hwf Hsel Hidx.
  pose proof (wf_selected_step a sc idx Hwf Hsel Hidx) as Hr.
  destruct (py_getitem_in_range (steps sc) idx Hr) as [src [Hget Hsrc]].
  exists src. split; [exact Hsrc|]. cbn zeta.
  set (new := mkStep _ _ _ _).
  set (a1 := update_selected _ a).
  assert (selected a1
          = Some (touch now (set_steps (py_insert (steps sc) (idx + 1) new) sc)))
    as Hsel1 by exact (selected_update_selected _ a sc Hsel).
  assert (py_insert (steps sc) (idx + 1) new
          = take (S (Z.to_nat idx)) (steps sc)
            ++ new :: drop (S (Z.to_nat idx)) (steps sc)) as Hins.
  { rewrite py_insert_in_range by lia.
    replace (Z.to_nat (idx + 1)) with (S (Z.to_nat idx)) by lia. reflexivity. }
  assert (_select_step (idx + 1) a1 = with_step_idx (Some (idx + 1)%Z) a1) as Hstep.
  { apply (select_step_in_range _ a1 _ Hsel1).
    cbn [steps touch set_steps]. rewrite length_py_insert. lia. }
  split; [|split; [|split]].
  - unfold _duplicate_step. rewrite Hsel, Hidx, Hget.
    cbn [Step_init default from_option id]. fold new. fold a1. rewrite Hstep.
    reflexivity.
  - rewrite <- Hstep. apply wf_select_step, wf_update_selected; [exact Hwf|].
    intros s Hs. rewrite Hsel in Hs. injection Hs as <-. rewrite Hidx.
    cbn [steps touch set_steps]. rewrite length_py_insert. lia.
  - rewrite selected_with_step_idx, Hsel1, Hins. reflexivity.
  - reflexivity.
Qed.

(** X20: [_duplicate_step] puts, right below the selected step, a new step
    with the same text, Enter setting and delay and a uuid of its own,
    keeps every other step in order, and selects the copy. *)
Theorem duplicate_step_inserts_a_copy_below (now : string) (a : Editor.t)
    (env : Storage.Env) (sc : Script) (idx : Z) :
  wf a → selected a = Some sc → selected_step_idx a = Some idx →
  ∃ src new a' env',
    _current_step a = Some src
    ∧ _duplicate_step uuid4 st now a env = Done a' env'
    ∧ selected_steps a'
      = take (S (Z.to_nat idx)) (steps sc)
        ++ new :: drop (S (Z.to_nat idx)) (steps sc)
    ∧ text new = text src
    ∧ press_enter new = press_enter src
    ∧ delay_before new = delay_before src
    ∧ step_id new = uuid4 (Storage.drawn env)
    ∧ Storage.drawn env' = S (Storage.drawn env)
    ∧ selected_step_idx a' = Some (idx + 1)%Z
    ∧ _current_step a' = Some new.
Proof.
  intros Hwf Hsel Hidx.
  pose proof (wf_selected_step a sc idx Hwf Hsel Hidx) as Hr.
  destruct (duplicate_step_spec now a env sc idx Hwf Hsel Hidx)
    as (src & Hsrc & Hdup & Hwf' & Hsel' & Hidx').
  cbn zeta in *. eexists src, _, _, _.
  split; [by rewrite (current_step_in_range _ _ _ Hsel Hidx Hr)|].
  split; [exact Hdup|].
  rewrite (selected_steps_selected _ _ Hsel').
  repeat apply conj; try reflexivity.
  rewrite (current_step_in_range _ _ _ Hsel' Hidx').
  - cbn [steps touch set_steps].
    replace (Z.to_nat (idx + 1)) with (S (Z.to_nat idx)) by lia.
    rewrite lookup_app_r by (rewrite length_take; lia).
    rewrite length_take, Nat.min_l by lia. by rewrite Nat.sub_diag.
  - exact (wf_selected_step _ _ _ Hwf' Hsel' Hidx').
Qed.

Lemma delete_step_spec (now : string) (a : Editor.t) (env : Storage.Env)
    (sc : Script) (idx : Z) :
  wf a → selected a = Some sc → selected_step_idx a = Some idx →
  let sts := delete (Z.to_nat idx) (steps sc) in
  let a' := with_step_idx None
              (update_selected (λ s, touch now (set_steps sts s)) a) in
  _delete_step st now a env = Done a' (_save st a' env)
  ∧ selected a' = Some (touch now (set_steps sts sc)).
Proof.
  intros Hwf Hsel Hidx.
  pose proof (wf_selected_step a sc idx Hwf Hsel Hidx) as Hr. cbn zeta.
  split.
  - unfold _delete_step. rewrite Hsel, Hidx. unfold py_delitem.
    rewrite py_index_in_range by exact Hr. reflexivity.
  - rewrite selected_with_step_idx.
    exact (selected_update_selected _ a sc Hsel).
Qed.

(** X21: [_delete_step] takes the selected step, and only that one, out of
    the selected script: the steps before it stay, the steps after it move
    up by one place, and no step is selected afterwards. *)
Theorem delete_step_removes_the_selected_step (now : string) (a : Editor.t)
    (env : Storage.Env) (sc : Script) (idx : Z) :
  wf a → selected a = Some sc → selected_step_idx a = Some idx →
  ∃ a' env',
    _delete_step st now a env = Done a' env'
    ∧ S (List.length (selected_steps a')) = List.length (steps sc)
    ∧ (∀ k, k < Z.to_nat idx → selected_steps a' !! k = steps sc !! k)
    ∧ (∀ k, Z.to_nat idx ≤ k → selected_steps a' !! k = steps sc !! S k)
    ∧ selected_step_idx a' = None
    ∧ _current_step a' = None.
Proof.
  intros Hwf Hsel Hidx.
  pose proof (wf_selected_step a sc idx Hwf Hsel Hidx) as Hr.
  destruct (delete_step_spec now a env sc idx Hwf Hsel Hidx) as [Hdel Hsel'].
  cbn zeta in *. eexists _, _. split; [exact Hdel|].
  rewrite (selected_steps_selected _ _ Hsel'). cbn [steps touch set_steps].
  repeat apply conj.
  - rewrite length_delete; [lia|]. apply lookup_lt_is_Some_2. lia.
  - intros k Hk. by apply list_lookup_delete_lt.
  - intros k Hk. by apply list_lookup_delete_ge.
  - reflexivity.
  - unfold _current_step. rewrite Hsel'. reflexivity.
Qed.

(** X22: [_duplicate_step] followed by [_delete_step] leaves the steps of
    the selected script as they were before the two: the copy is the step
    that is selected, so it is the one that goes. *)
Theorem duplicate_then_delete_cancel (now1 now2 : string) (a : Editor.t)
    (env : Storage.Env) (sc : Script) (idx : Z) :
  wf a → selected a = Some sc → selected_step_idx a = Some idx →
  ∃ a1 env1 a2 env2,
    _duplicate_step uuid4 st now1 a env = Done a1 env1
    ∧ _delete_step st now2 a1 env1 = Done a2 env2
    ∧ selected a2 = Some (touch now2 sc).
Proof.
  intros Hwf Hsel Hidx.
  pose proof (wf_selected_step a sc idx Hwf Hsel Hidx) as Hr.
  destruct (duplicate_step_spec now1 a env sc idx Hwf Hsel Hidx)
    as (src & Hsrc & Hdup & Hwf' & Hsel' & Hidx').
  cbn zeta in *. set (a1 := with_step_idx _ _) in *.
  set (env1 := _save st a1 _) in *.
  destruct (delete_step_spec now2 a1 env1 _ _ Hwf' Hsel' Hidx') as [Hdel Hsel2].
  cbn zeta in *. eexists _, _, _, _.
  split; [exact Hdup|]. split; [exact Hdel|].
  rewrite Hsel2. cbn [steps touch set_steps script_id name description created_at].
  replace (Z.to_nat (idx + 1)) with (S (Z.to_nat idx)) by lia.
  rewrite delete_take_drop.
  rewrite take_app_length' by (rewrite length_take; lia).
  rewrite drop_app_ge by (rewrite length_take; lia).
  rewrite length_take, Nat.min_l by lia.
  replace (S (S (Z.to_nat idx)) - S (Z.to_nat idx)) with 1 by lia.
  cbn [drop]. rewrite drop_0, take_drop. reflexivity.
Qed.

Lemma dict_to_script_of_script_to_dict (sc : Script) (n : nat) :
  Storage._dict_to_script uuid4 (Storage._script_to_dict sc) n = (Storage.Ok sc, n).
Proof. exact (dict_to_script_legacy uuid4 (λ _, None) sc n). Qed.

(** X23: a script written by [_export_script] and read by [_import_script],
    into the same or any other list of scripts, arrives with every field
    and every step as it was, except for its id, which is a fresh uuid; it
    is put at the end of the list, selected, and the list is saved. *)
Theorem export_then_import_round_trip (path : string) (a b : Editor.t)
    (env : Storage.Env) (sc : Script) :
  selected a = Some sc → path ≠ "" →
  ∃ env1 b' env2,
    _export_script path a env = Done a env1
    ∧ _import_script uuid4 st path b env1 = Done b' env2
    ∧ scripts b'
      = scripts b ++ [set_script_id (uuid4 (Storage.drawn env)) sc]
    ∧ selected b' = Some (set_script_id (uuid4 (Storage.drawn env)) sc)
    ∧ selected_step_idx b' = None
    ∧ saved st b' env2.
Proof.
  intros Hsel Hpath. unfold _export_script, _import_script. rewrite Hsel.
  rewrite bool_decide_eq_false_2 by exact Hpath.
  eexists _, _, _. split; [reflexivity|].
  cbn [Storage.files Storage.drawn]. rewrite lookup_insert_eq.
  cbn [Storage.json_load]. rewrite dict_to_script_of_script_to_dict.
  split; [reflexivity|]. split; [reflexivity|].
  split; [|split; [reflexivity | apply saved_save]].
  unfold selected. cbn. by apply list_lookup_middle.
Qed.

Lemma filter_all {A} (P : A → Prop) `{∀ x, Decision (P x)} (l : list A) :
  (∀ x, x ∈ l → P x) → filter P l = l.
Proof.
  induction l as [|y l IH]; intros Hall; [reflexivity|].
  rewrite filter_cons_True by (apply Hall; left).
  f_equal. apply IH. intros x Hx. apply Hall. by right.
Qed.

Lemma filter_other_ids {A B} (f : A → B) `{EqDecision B} (l : list A)
    (i : nat) (x : A) :
  NoDup (f <$> l) → l !! i = Some x →
  filter (λ s, f s ≠ f x) l = delete i l.
Proof.
  revert i. induction l as [|y l IH]; intros i Hnd Hi; [discriminate Hi|].
  rewrite fmap_cons in Hnd. apply NoDup_cons in Hnd as [Hy Hnd].
  destruct i as [|i]; cbn in Hi.
  - injection Hi as ->. rewrite filter_cons_False by (intros H; by apply H).
    cbn. apply filter_all. intros s Hs Heq. apply Hy. rewrite <- Heq.
    by apply list_elem_of_fmap_2.
  - assert (f y ≠ f x) as Hne.
    { intros Heq. apply Hy. rewrite Heq.
      apply list_elem_of_fmap_2. eapply list_elem_of_lookup_2. exact Hi. }
    rewrite filter_cons_True by exact Hne. cbn. f_equal. by apply IH.
Qed.

(** X24: a confirmed [_delete_script] removes every script that has the
    id of the selected one and keeps the others; when no two scripts share
    an id that is the selected script alone. Nothing is selected
    afterwards and the list is saved. A declined dialog changes nothing. *)
Theorem delete_script_removes_the_selected_id (a : Editor.t)
    (env : Storage.Env) (i : nat) (sel : Script) :
  selected_script a = Some i → scripts a !! i = Some sel →
  (∃ a' env',
     _delete_script st true a env = Done a' env'
     ∧ (∀ s, s ∈ scripts a' ↔ s ∈ scripts a ∧ script_id s ≠ script_id sel)
     ∧ (NoDup (script_id <$> scripts a) → scripts a' = delete i (scripts a))
     ∧ selected_script a' = None
     ∧ selected_step_idx a' = None
     ∧ saved st a' env')
  ∧ _delete_script st false a env = Done a env.
Proof.
  intros Hi Hsel.
  assert (selected a = Some sel) as Hs by (unfold selected; by rewrite Hi).
  unfold _delete_script. rewrite Hs. cbn [negb].
  split; [|reflexivity].
  eexists _, _. split; [reflexivity|]. cbn [scripts selected_script selected_step_idx].
  repeat apply conj; try reflexivity.
  - intros s. rewrite list_elem_of_filter. split; intros [? ?]; by split.
  - intros Hnd. by apply filter_other_ids.
  - apply saved_save.
Qed.

Lemma frame_update_selected (f : Script → Script) (a : Editor.t) (j : nat) :
  selected_script a ≠ Some j →
  scripts (update_selected f a) !! j = scripts a !! j.
Proof.
  intros Hj. unfold update_selected.
  destruct (selected_script a) as [i|]; [|reflexivity].
  cbn. apply list_lookup_alter_ne. congruence.
Qed.

Lemma frame_update_current_step (f : Step → Step) (a : Editor.t) (j : nat) :
  selected_script a ≠ Some j →
  scripts (update_current_step f a) !! j = scripts a !! j.
Proof.
  intros Hj. unfold update_current_step.
  destruct (selected_step_idx a); [|reflexivity].
  by apply frame_update_selected.
Qed.

Lemma selected_script_update_current_step (f : Step → Step) (a : Editor.t) :
  selected_script (update_current_step f a) = selected_script a.
Proof.
  unfold update_current_step, update_selected.
  destruct (selected_step_idx a); [|reflexivity].
  destruct (selected_script a) eqn:Hi; exact Hi.
Qed.

(** X25: apart from a confirmed [_delete_script], nothing the user does in
    the editor changes or moves a script other than the selected one. *)
Theorem only_the_selected_script_changes (act : action) (a a' : Editor.t)
    (env env' : Storage.Env) (j : nat) :
  perform uuid4 st act a env = Done a' env' →
  act ≠ DeleteScript true →
  selected_script a ≠ Some j → j < List.length (scripts a) →
  scripts a' !! j = scripts a !! j.
Proof.
  intros Hdone Hact Hj Hlen.
  destruct act; cbn [perform] in Hdone;
    unfold _new_script, _delete_script, _on_step_click, _update_runner_state,
      _add_step, _duplicate_step, _delete_step, _move_step_up, _move_step_down,
      _on_step_text_change, _on_enter_toggle, _on_delay_change, _on_name_change,
      _on_desc_change, _export_script, _import_script in Hdone;
    cbn [Step_init] in Hdone;
    repeat case_match; simplify_eq;
    try reflexivity;
    rewrite ?scripts_select_step;
    cbn [scripts with_step_idx with_demo_step_idx with_scripts _select_script];
    rewrite ?scripts_select_step;
    try (by apply lookup_app_l);
    try (by apply frame_update_selected);
    try (by apply frame_update_current_step);
    try reflexivity.
  - destruct confirmed; [by destruct Hact | discriminate].
  - exact (frame_update_selected _ (with_step_idx _ a) j Hj).
  - exact (frame_update_selected _ (with_step_idx _ a) j Hj).
  - rewrite frame_update_selected
      by (by rewrite selected_script_update_current_step).
    by apply frame_update_current_step.
Qed.

Lemma lookup_update_selected (f : Script → Script) (a : Editor.t) (i : nat)
    (sc : Script) :
  selected_script a = Some i → scripts a !! i = Some sc →
  scripts (update_selected f a) !! i = Some (f sc).
Proof.
  intros Hi Hsc. unfold update_selected. rewrite Hi. cbn.
  by rewrite list_lookup_alter_eq, Hsc.
Qed.

Lemma lookup_update_current_step (f : Step → Step) (a : Editor.t) (i : nat)
    (sc : Script) :
  selected_script a = Some i → scripts a !! i = Some sc →
  ∃ sts, scripts (update_current_step f a) !! i = Some (set_steps sts sc).
Proof.
  intros Hi Hsc. unfold update_current_step.
  destruct (selected_step_idx a) as [idx|].
  - exists (alter f (Z.to_nat idx) (steps sc)).
    exact (lookup_update_selected _ a i sc Hi Hsc).
  - exists (steps sc). rewrite Hsc. by destruct sc.
Qed.

(** X26: of the selected script, no callback of the editor changes [id] or
    [created_at]; the callbacks that call [touch] set [updated_at] to the
    time of the call whenever they change the script; and toggling Enter
    or changing the delay of a step leaves [updated_at] as it was. *)
Theorem updated_at_is_set_by_touch_only (act : action) (a a' : Editor.t)
    (env env' : Storage.Env) (i : nat) (sc sc' : Script) :
  perform uuid4 st act a env = Done a' env' →
  act ≠ DeleteScript true →
  selected_script a = Some i → scripts a !! i = Some sc →
  scripts a' !! i = Some sc' →
  script_id sc' = script_id sc
  ∧ created_at sc' = created_at sc
  ∧ match stamp act with
    | Some now => sc' = sc ∨ updated_at sc' = now
    | None => updated_at sc' = updated_at sc
    end.
Proof.
  intros Hdone Hact Hi Hsc Hsc'.
  assert (selected a = Some sc) as Hsel by (unfold selected; by rewrite Hi).
  destruct act; cbn [perform stamp] in Hdone |- *;
    unfold _new_script, _delete_script, _on_step_click, _update_runner_state,
      _add_step, _duplicate_step, _delete_step, _move_step_up, _move_step_down,
      _on_step_text_change, _on_enter_toggle, _on_delay_change, _on_name_change,
      _on_desc_change, _export_script, _import_script in Hdone;
    cbn [Step_init] in Hdone;
    repeat case_match; try discriminate Hdone; injection Hdone as <- <-;
    rewrite ?scripts_select_step in Hsc';
    cbn [scripts with_step_idx with_demo_step_idx with_scripts _select_script stamp]
      in Hsc' |- *;
    rewrite ?scripts_select_step in Hsc';
    try (rewrite lookup_app_l in Hsc' by (eapply lookup_lt_Some; exact Hsc));
    try (erewrite (lookup_update_selected _ a) in Hsc' by eassumption);
    try (erewrite (lookup_update_selected _ (with_step_idx _ a)) in Hsc'
           by eassumption);
    simplify_eq; cbn [script_id created_at updated_at touch set_steps set_name
                      set_description]; auto.
  - destruct confirmed; [by destruct Hact | discriminate].
  - destruct (lookup_update_current_step (set_text value) a i sc Hi Hsc)
      as [sts Hsts].
    erewrite lookup_update_selected in Hsc';
      [|by rewrite selected_script_update_current_step | exact Hsts].
    injection Hsc' as <-. cbn. auto.
  - destruct (lookup_update_current_step (set_press_enter value) a i sc Hi Hsc)
      as [sts Hsts].
    rewrite Hsts in Hsc'. injection Hsc' as <-. cbn. auto.
  - destruct (lookup_update_current_step (set_delay_before q) a i sc Hi Hsc)
      as [sts Hsts].
    rewrite Hsts in Hsc'. injection Hsc' as <-. cbn. auto.
Qed.

Lemma alter_as_insert {A} (f : A → A) (l : list A) (i : nat) (x : A) :
  l !! i = Some x → alter f i l = <[i := f x]> l.
Proof.
  intros Hx. apply list_eq. intros k.
  destruct (decide (i = k)) as [<-|Hne].
  - rewrite list_lookup_alter_eq, Hx.
    rewrite list_lookup_insert_eq by (eapply lookup_lt_Some; exact Hx).
    reflexivity.
  - by rewrite list_lookup_alter_ne, list_lookup_insert_ne.
Qed.

Lemma update_current_step_spec (f : Step → Step) (a : Editor.t) (sc : Script)
    (idx : Z) (src : Step) :
  selected a = Some sc → selected_step_idx a = Some idx →
  steps sc !! Z.to_nat idx = Some src →
  selected (update_current_step f a)
  = Some (set_steps (<[Z.to_nat idx := f src]> (steps sc)) sc)
  ∧ selected_step_idx (update_current_step f a) = Some idx.
Proof.
  intros Hsel Hidx Hsrc. unfold update_current_step. rewrite Hidx. split.
  - rewrite (selected_update_selected _ a sc Hsel).
    cbn [steps set_steps]. by rewrite (alter_as_insert f _ _ src).
  - by rewrite selected_step_idx_update_selected.
Qed.

(** X27: the step [_current_step] returns is the object in the list of the
    selected script: what [_on_step_text_change], [_on_enter_toggle] and
    [_on_delay_change] assign to it is found at the selected position of
    the script afterwards, the other steps and the selection are as
    before, and the list is saved. An entry that is no number leaves the
    delay alone, and the list is saved all the same. *)
Theorem step_edits_reach_the_script (a : Editor.t) (env : Storage.Env)
    (sc : Script) (idx : Z) :
  wf a → selected a = Some sc → selected_step_idx a = Some idx →
  ∃ src,
    _current_step a = Some src
    ∧ (∀ value now, ∃ a' env',
         _on_step_text_change st value now a env = Done a' env'
         ∧ selected_steps a' = <[Z.to_nat idx := set_text value src]> (steps sc)
         ∧ selected_step_idx a' = Some idx
         ∧ saved st a' env')
    ∧ (∀ value, ∃ a' env',
         _on_enter_toggle st value a env = Done a' env'
         ∧ selected_steps a'
           = <[Z.to_nat idx := set_press_enter value src]> (steps sc)
         ∧ selected_step_idx a' = Some idx
         ∧ saved st a' env')
    ∧ (∀ d, ∃ a' env',
         _on_delay_change st (Some d) a env = Done a' env'
         ∧ selected_steps a'
           = <[Z.to_nat idx := set_delay_before d src]> (steps sc)
         ∧ selected_step_idx a' = Some idx
         ∧ saved st a' env')
    ∧ _on_delay_change st None a env = Done a (_save st a env).
Proof.
  intros Hwf Hsel Hidx.
  pose proof (wf_selected_step a sc idx Hwf Hsel Hidx) as Hr.
  destruct (py_getitem_in_range (steps sc) idx Hr) as [src [_ Hsrc]].
  assert (_current_step a = Some src) as Hcur
    by (by rewrite (current_step_in_range _ _ _ Hsel Hidx Hr)).
  exists src. split; [exact Hcur|].
  unfold _on_step_text_change, _on_enter_toggle, _on_delay_change. rewrite Hcur.
  split; [|split; [|split; [|reflexivity]]].
  - intros value now.
    destruct (update_current_step_spec (set_text value) a sc idx src Hsel Hidx Hsrc)
      as [Hs Hi].
    eexists _, _. split; [reflexivity|].
    rewrite (selected_steps_selected _ _ (selected_update_selected _ _ _ Hs)).
    rewrite selected_step_idx_update_selected.
    split; [reflexivity|]. split; [exact Hi | apply saved_save].
  - intros value.
    destruct (update_current_step_spec (set_press_enter value) a sc idx src
                Hsel Hidx Hsrc) as [Hs Hi].
    eexists _, _. split; [reflexivity|].
    rewrite (selected_steps_selected _ _ Hs).
    split; [reflexivity|]. split; [exact Hi | apply saved_save].
  - intros d.
    destruct (update_current_step_spec (set_delay_before d) a sc idx src
                Hsel Hidx Hsrc) as [Hs Hi].
    eexists _, _. split; [reflexivity|].
    rewrite (selected_steps_selected _ _ Hs).
    split; [reflexivity|]. split; [exact Hi | apply saved_save].
Qed.

End EditorFacts.

(** The properties of the editor at a script of three steps, the second of
    which is selected. *)
Ltac wf_example :=
  repeat match goal with x := _ |- _ => subst x end;
  apply wf_cases; cbn; eexists; split; [reflexivity | cbn; lia].

Lemma editor_keeps_selection_in_range_witness :
  let sc := Models.mkScript "s" "demo" ""
              [Models.mkStep "a" "ls" true 0.3; Models.mkStep "b" "cd" false 0;
               Models.mkStep "c" "pwd" true 1] "t0" "t0" in
  let a := Editor.mk [sc] (Some 0) (Some 1%Z) false 0 in
  Editor.wf a
  ∧ Editor.safe (Editor.perform Models.uuid_of_count (Storage.mk "scripts.json")
                   (Editor.DeleteStep "t1") a (Storage.mkEnv ∅ 0)).
Proof.
  intros sc a.
  assert (Editor.wf a) as Hwf by wf_example.
  split; [exact Hwf|].
  exact (proj2 (editor_keeps_selection_in_range Models.uuid_of_count
                  (Storage.mk "scripts.json") (Editor.DeleteStep "t1") a
                  (Storage.mkEnv ∅ 0)) Hwf).
Defined.

Lemma every_change_is_saved_witness :
  let sc := Models.mkScript "s" "demo" ""
              [Models.mkStep "a" "ls" true 0.3; Models.mkStep "b" "cd" false 0;
               Models.mkStep "c" "pwd" true 1] "t0" "t0" in
  let a := Editor.mk [sc] (Some 0) (Some 1%Z) false 0 in
  let st := Storage.mk "scripts.json" in
  ∃ a' env',
    Editor.perform Models.uuid_of_count st (Editor.EditName "intro" "t1") a
      (Storage.mkEnv ∅ 0) = Editor.Done a' env'
    ∧ Editor.scripts a' ≠ Editor.scripts a
    ∧ Editor.saved st a' env'
    ∧ Storage.load Models.uuid_of_count st env'
      = (Storage.Ok (Editor.scripts a'), env').
Proof.
  intros sc a st. eexists _, _.
  split; [reflexivity|].
  split; [intros H; discriminate H|].
  refine (proj1 (every_change_is_saved Models.uuid_of_count st
                   (Editor.EditName "intro" "t1") a _ (Storage.mkEnv ∅ 0) _)
            eq_refl _).
  intros H; discriminate H.
Defined.

(** An import that the model leaves out: the text of the step is a
    number. *)
Example import_of_an_ill_typed_file :
  let record :=
    Storage.JObj
      {[ "id" := Storage.JStr "s"; "name" := Storage.JStr "demo";
         "steps" := Storage.JList
           [Storage.JObj {[ "text" := Storage.JNum 5 ]}] ]} in
  Editor._import_script Models.uuid_of_count (Storage.mk "scripts.json")
    "demo.json" (Editor.init [])
    (Storage.mkEnv {[ "demo.json" := Storage.Json record ]} 0)
  = Editor.OutOfModel.
Proof. vm_compute. reflexivity. Qed.

Lemma move_step_up_exchanges_with_the_step_above_witness :
  let sc := Models.mkScript "s" "demo" ""
              [Models.mkStep "a" "ls" true 0.3; Models.mkStep "b" "cd" false 0;
               Models.mkStep "c" "pwd" true 1] "t0" "t0" in
  let a := Editor.mk [sc] (Some 0) (Some 1%Z) false 0 in
  ∃ a' env',
    Editor._move_step_up (Storage.mk "scripts.json") "t1" a (Storage.mkEnv ∅ 0)
    = Editor.Done a' env'
    ∧ Editor.selected_steps a' !! 0 = Some (Models.mkStep "b" "cd" false 0)
    ∧ Editor.selected_step_idx a' = Some 0%Z.
Proof.
  intros sc a.
  destruct (move_step_up_exchanges_with_the_step_above
              (Storage.mk "scripts.json") "t1" a (Storage.mkEnv ∅ 0) sc 1)
    as (a' & env' & Hup & H0 & _ & _ & Hidx & _);
    [wf_example | reflexivity | reflexivity | discriminate |].
  exists a', env'. split; [exact Hup|]. split; [exact H0 | exact Hidx].
Defined.

Lemma move_up_and_down_cancel_witness :
  let sc := Models.mkScript "s" "demo" ""
              [Models.mkStep "a" "ls" true 0.3; Models.mkStep "b" "cd" false 0;
               Models.mkStep "c" "pwd" true 1] "t0" "t0" in
  let a := Editor.mk [sc] (Some 0) (Some 1%Z) false 0 in
  let st := Storage.mk "scripts.json" in
  (∃ a1 env1 a2 env2,
     Editor._move_step_up st "t1" a (Storage.mkEnv ∅ 0) = Editor.Done a1 env1
     ∧ Editor._move_step_down st "t2" a1 env1 = Editor.Done a2 env2
     ∧ Editor.selected a2 = Some (Models.touch "t2" sc)
     ∧ Editor.selected_step_idx a2 = Some 1%Z)
  ∧ (∃ a1 env1 a2 env2,
       Editor._move_step_down st "t1" a (Storage.mkEnv ∅ 0) = Editor.Done a1 env1
       ∧ Editor._move_step_up st "t2" a1 env1 = Editor.Done a2 env2
       ∧ Editor.selected a2 = Some (Models.touch "t2" sc)
       ∧ Editor.selected_step_idx a2 = Some 1%Z).
Proof.
  intros sc a st.
  destruct (move_up_and_down_cancel st "t1" "t2" a (Storage.mkEnv ∅ 0) sc 1)
    as [Hup Hdown]; [wf_example | reflexivity | reflexivity |].
  split; [apply Hup; discriminate | apply Hdown; cbn; lia].
Defined.

Lemma add_step_appends_a_default_step_witness :
  let sc := Models.mkScript "s" "demo" ""
              [Models.mkStep "a" "ls" true 0.3; Models.mkStep "b" "cd" false 0;
               Models.mkStep "c" "pwd" true 1] "t0" "t0" in
  let a := Editor.mk [sc] (Some 0) (Some 1%Z) false 0 in
  ∃ a' env',
    Editor._add_step Models.uuid_of_count (Storage.mk "scripts.json") "t1" a
      (Storage.mkEnv ∅ 7) = Editor.Done a' env'
    ∧ Editor._current_step a'
      = Some (Models.mkStep (Models.uuid_of_count 7) "" true 0.3)
    ∧ Storage.drawn env' = 8.
Proof.
  intros sc a.
  destruct (add_step_appends_a_default_step Models.uuid_of_count
              (Storage.mk "scripts.json") "t1" a (Storage.mkEnv ∅ 7) sc eq_refl)
    as (a' & env' & Hadd & _ & _ & Hcur & Hdrawn).
  exists a', env'. split; [exact Hadd|]. split; [exact Hcur | exact Hdrawn].
Defined.

Lemma duplicate_step_inserts_a_copy_below_witness :
  let sc := Models.mkScript "s" "demo" ""
              [Models.mkStep "a" "ls" true 0.3; Models.mkStep "b" "cd" false 0;
               Models.mkStep "c" "pwd" true 1] "t0" "t0" in
  let a := Editor.mk [sc] (Some 0) (Some 1%Z) false 0 in
  ∃ new a' env',
    Editor._duplicate_step Models.uuid_of_count (Storage.mk "scripts.json") "t1"
      a (Storage.mkEnv ∅ 7) = Editor.Done a' env'
    ∧ Editor.selected_steps a'
      = [Models.mkStep "a" "ls" true 0.3; Models.mkStep "b" "cd" false 0; new;
         Models.mkStep "c" "pwd" true 1]
    ∧ Models.text new = "cd"
    ∧ Models.step_id new = Models.uuid_of_count 7
    ∧ Editor.selected_step_idx a' = Some 2%Z.
Proof.
  intros sc a.
  destruct (duplicate_step_inserts_a_copy_below Models.uuid_of_count
              (Storage.mk "scripts.json") "t1" a (Storage.mkEnv ∅ 7) sc 1)
    as (src & new & a' & env' & Hsrc & Hdup & Hsteps & Htext & _ & _ & Hid & _
        & Hidx & _);
    [wf_example | reflexivity | reflexivity |].
  injection Hsrc as <-.
  exists new, a', env'. split; [exact Hdup|]. split; [exact Hsteps|].
  split; [exact Htext|]. split; [exact Hid | exact Hidx].
Defined.

Lemma delete_step_removes_the_selected_step_witness :
  let sc := Models.mkScript "s" "demo" ""
              [Models.mkStep "a" "ls" true 0.3; Models.mkStep "b" "cd" false 0;
               Models.mkStep "c" "pwd" true 1] "t0" "t0" in
  let a := Editor.mk [sc] (Some 0) (Some 1%Z) false 0 in
  ∃ a' env',
    Editor._delete_step (Storage.mk "scripts.json") "t1" a (Storage.mkEnv ∅ 0)
    = Editor.Done a' env'
    ∧ Editor.selected_steps a' !! 0 = Some (Models.mkStep "a" "ls" true 0.3)
    ∧ Editor.selected_steps a' !! 1 = Some (Models.mkStep "c" "pwd" true 1)
    ∧ Editor.selected_step_idx a' = None.
Proof.
  intros sc a.
  destruct (delete_step_removes_the_selected_step (Storage.mk "scripts.json")
              "t1" a (Storage.mkEnv ∅ 0) sc 1)
    as (a' & env' & Hdel & _ & Hbefore & Hafter & Hidx & _);
    [wf_example | reflexivity | reflexivity |].
  exists a', env'. split; [exact Hdel|].
  split; [apply (Hbefore 0); cbn; lia|].
  split; [apply (Hafter 1); cbn; lia | exact Hidx].
Defined.

Lemma duplicate_then_delete_cancel_witness :
  let sc := Models.mkScript "s" "demo" ""
              [Models.mkStep "a" "ls" true 0.3; Models.mkStep "b" "cd" false 0;
               Models.mkStep "c" "pwd" true 1] "t0" "t0" in
  let a := Editor.mk [sc] (Some 0) (Some 1%Z) false 0 in
  let st := Storage.mk "scripts.json" in
  ∃ a1 env1 a2 env2,
    Editor._duplicate_step Models.uuid_of_count st "t1" a (Storage.mkEnv ∅ 0)
    = Editor.Done a1 env1
    ∧ Editor._delete_step st "t2" a1 env1 = Editor.Done a2 env2
    ∧ Editor.selected a2 = Some (Models.touch "t2" sc).
Proof.
  intros sc a st.
  apply (duplicate_then_delete_cancel Models.uuid_of_count st "t1" "t2" a
           (Storage.mkEnv ∅ 0) sc 1); [wf_example | reflexivity | reflexivity].
Defined.

Lemma export_then_import_round_trip_witness :
  let sc := Models.mkScript "s" "demo" ""
              [Models.mkStep "a" "ls" true 0.3; Models.mkStep "b" "cd" false 0;
               Models.mkStep "c" "pwd" true 1] "t0" "t0" in
  let a := Editor.mk [sc] (Some 0) (Some 1%Z) false 0 in
  let st := Storage.mk "scripts.json" in
  ∃ env1 b' env2,
    Editor._export_script "demo.json" a (Storage.mkEnv ∅ 4) = Editor.Done a env1
    ∧ Editor._import_script Models.uuid_of_count st "demo.json"
        (Editor.init []) env1 = Editor.Done b' env2
    ∧ Editor.scripts b'
      = [Editor.set_script_id (Models.uuid_of_count 4) sc].
Proof.
  intros sc a st.
  destruct (export_then_import_round_trip Models.uuid_of_count st "demo.json" a
              (Editor.init []) (Storage.mkEnv ∅ 4) sc)
    as (env1 & b' & env2 & Hexp & Himp & Hscripts & _);
    [reflexivity | discriminate |].
  exists env1, b', env2. split; [exact Hexp|]. split; [exact Himp | exact Hscripts].
Defined.

Lemma delete_script_removes_the_selected_id_witness :
  let s1 := Models.mkScript "s" "demo" "" [] "t0" "t0" in
  let s2 := Models.mkScript "r" "other" "" [] "t0" "t0" in
  let s3 := Models.mkScript "s" "copy" "" [] "t0" "t0" in
  let st := Storage.mk "scripts.json" in
  (∃ a' env',
     Editor._delete_script st true (Editor.mk [s1; s2; s3] (Some 0) None false 0)
       (Storage.mkEnv ∅ 0) = Editor.Done a' env'
     ∧ (s3 ∉ Editor.scripts a') ∧ (s2 ∈ Editor.scripts a'))
  ∧ (∃ a' env',
       Editor._delete_script st true (Editor.mk [s1; s2] (Some 0) None false 0)
         (Storage.mkEnv ∅ 0) = Editor.Done a' env'
       ∧ Editor.scripts a' = [s2]).
Proof.
  intros s1 s2 s3 st. split.
  - destruct (delete_script_removes_the_selected_id st
                (Editor.mk [s1; s2; s3] (Some 0) None false 0)
                (Storage.mkEnv ∅ 0) 0 s1 eq_refl eq_refl)
      as [(a' & env' & Hdel & Hin & _) _].
    exists a', env'. split; [exact Hdel|]. split.
    + intros H. apply Hin in H as [_ H]. by apply H.
    + apply Hin. split; [|discriminate]. right; left.
  - destruct (delete_script_removes_the_selected_id st
                (Editor.mk [s1; s2] (Some 0) None false 0)
                (Storage.mkEnv ∅ 0) 0 s1 eq_refl eq_refl)
      as [(a' & env' & Hdel & _ & Hnd & _) _].
    exists a', env'. split; [exact Hdel|]. apply Hnd.
    cbn. apply NoDup_cons. split.
    + intros H. apply elem_of_cons in H as [H|H]; [discriminate H | inversion H].
    + apply NoDup_singleton.
Defined.

Lemma only_the_selected_script_changes_witness :
  let s1 := Models.mkScript "s" "demo" "" [] "t0" "t0" in
  let s2 := Models.mkScript "r" "other" "" [] "t0" "t0" in
  let a := Editor.mk [s1; s2] (Some 0) None false 0 in
  ∃ a' env',
    Editor.perform Models.uuid_of_count (Storage.mk "scripts.json")
      (Editor.AddStep "t1") a (Storage.mkEnv ∅ 0) = Editor.Done a' env'
    ∧ Editor.scripts a' !! 1 = Some s2.
Proof.
  intros s1 s2 a. eexists _, _. split; [reflexivity|].
  refine (only_the_selected_script_changes Models.uuid_of_count
            (Storage.mk "scripts.json") (Editor.AddStep "t1") a _
            (Storage.mkEnv ∅ 0) _ 1 eq_refl _ _ _).
  - discriminate.
  - discriminate.
  - cbn. lia.
Defined.

Lemma updated_at_is_set_by_touch_only_witness :
  let sc := Models.mkScript "s" "demo" ""
              [Models.mkStep "a" "ls" true 0.3; Models.mkStep "b" "cd" false 0;
               Models.mkStep "c" "pwd" true 1] "t0" "t0" in
  let a := Editor.mk [sc] (Some 0) (Some 1%Z) false 0 in
  ∃ a' env' sc',
    Editor.perform Models.uuid_of_count (Storage.mk "scripts.json")
      (Editor.ToggleEnter true) a (Storage.mkEnv ∅ 0) = Editor.Done a' env'
    ∧ Editor.scripts a' !! 0 = Some sc'
    ∧ sc' ≠ sc
    ∧ Models.updated_at sc' = "t0".
Proof.
  intros sc a. eexists _, _, _.
  split; [reflexivity|]. split; [reflexivity|].
  split; [intros H; discriminate H|].
  refine (proj2 (proj2 (updated_at_is_set_by_touch_only Models.uuid_of_count
            (Storage.mk "scripts.json") (Editor.ToggleEnter true) a _
            (Storage.mkEnv ∅ 0) _ 0 sc _ eq_refl _ eq_refl eq_refl eq_refl))).
  discriminate.
Defined.

Lemma step_edits_reach_the_script_witness :
  let sc := Models.mkScript "s" "demo" ""
              [Models.mkStep "a" "ls" true 0.3; Models.mkStep "b" "cd" false 0;
               Models.mkStep "c" "pwd" true 1] "t0" "t0" in
  let a := Editor.mk [sc] (Some 0) (Some 1%Z) false 0 in
  let st := Storage.mk "scripts.json" in
  ∃ a' env',
    Editor._on_step_text_change st "cd /tmp" "t1" a (Storage.mkEnv ∅ 0)
    = Editor.Done a' env'
    ∧ Editor.selected_steps a'
      = [Models.mkStep "a" "ls" true 0.3; Models.mkStep "b" "cd /tmp" false 0;
         Models.mkStep "c" "pwd" true 1].
Proof.
  intros sc a st.
  destruct (step_edits_reach_the_script st a (Storage.mkEnv ∅ 0) sc 1)
    as (src & Hsrc & Htext & _); [wf_example | reflexivity | reflexivity |].
  injection Hsrc as <-.
  destruct (Htext "cd /tmp" "t1") as (a' & env' & Hdone & Hsteps & _).
  exists a', env'. split; [exact Hdone | exact Hsteps].
Defined.

(** ** The store *)
Section StoreFacts.
Import Models Storage.
Variable uuid4 : nat → string.

#[local] Ltac store_lookups :=
  repeat first
    [ rewrite lookup_delete_eq
    | rewrite lookup_delete_ne by discriminate
    | rewrite lookup_insert_eq
    | rewrite lookup_insert_ne by discriminate
    | rewrite lookup_empty ].

Lemma Step_kwargs_without_id (st : Step) (n : nat) :
  Step_kwargs uuid4 (JObj (delete "id" (step_fields st))) n
  = (Ok (mkStep (uuid4 n) (text st) (press_enter st) (delay_before st)), S n).
Proof.
  unfold Step_kwargs.
  rewrite bool_decide_eq_true_2.
  - unfold step_fields. store_lookups. reflexivity.
  - etrans; [apply subseteq_dom, delete_subseteq | apply step_fields_dom].
Qed.

Lemma steps_without_id_back (sts : list Step) (n : nat) :
  mapM_st (Step_kwargs uuid4)
    ((λ st, JObj (delete "id" (step_fields st))) <$> sts) n
  = (Ok (imap (λ k st, mkStep (uuid4 (n + k)) (text st) (press_enter st)
                         (delay_before st)) sts),
     n + List.length sts).
Proof.
  revert n. induction sts as [|st sts IH]; intros n.
  - cbn. by rewrite Nat.add_0_r.
  - rewrite fmap_cons. cbn [mapM_st]. rewrite Step_kwargs_without_id, IH.
    cbn [imap List.length]. rewrite Nat.add_0_r.
    replace (n + S (List.length sts)) with (S n + List.length sts) by lia.
    do 3 f_equal. apply imap_ext. intros k x _.
    cbn. do 2 f_equal. lia.
Qed.

Lemma strip_without_id (sts : list Step) :
  mapM pop_role ((λ st, JObj (delete "id" (step_fields st))) <$> sts)
  = Ok ((λ st, JObj (delete "id" (step_fields st))) <$> sts).
Proof.
  induction sts as [|st sts IH]; [reflexivity|].
  rewrite !fmap_cons. cbn [mapM pop_role]. cbn [bind]. rewrite IH. cbn [bind].
  reflexivity.
Qed.

(** X28: the steps of a stored script whose records have no [id] are given
    uuids when the script is read, one fresh uuid each, drawn in the order
    of the steps; their other fields are read as stored. Which ids they
    get depends on how many uuids were drawn before the [load], which
    draws one for each such step. *)
Theorem steps_without_id_get_fresh_uuids (sts : list Step) (s : Script)
    (n : nat) (st : Storage.t) (env : Env) :
  let record :=
    JObj (script_fields ((λ st, JObj (delete "id" (step_fields st))) <$> sts) s) in
  let loaded k :=
    mkScript (script_id s) (name s) (description s)
      (imap (λ i st, mkStep (uuid4 (k + i)) (text st) (press_enter st)
                       (delay_before st)) sts)
      (created_at s) (updated_at s) in
  _dict_to_script uuid4 record n = (Ok (loaded n), n + List.length sts)
  ∧ (files env !! filepath st = Some (Json (JList [record])) →
     load uuid4 st env
     = (Ok [loaded (drawn env)],
        mkEnv (files env) (drawn env + List.length sts))).
Proof.
  intros record loaded.
  assert (∀ k, _dict_to_script uuid4 record k
               = (Ok (loaded k), k + List.length sts)) as Hrec.
  { intros k. unfold record, _dict_to_script, script_fields.
    store_lookups. cbn [from_option id iterate bind].
    rewrite strip_without_id, steps_without_id_back.
    unfold getitem, get_str. store_lookups. reflexivity. }
  split; [apply Hrec|].
  intros Hf. unfold load. rewrite Hf. cbn [json_load bind iterate mapM_st].
  rewrite Hrec. reflexivity.
Qed.

Lemma dict_to_script_of_a_key (k : string) (n : nat) :
  _dict_to_script uuid4 (JStr k) n = (Raise AttributeError, n).
Proof. reflexivity. Qed.

(** X29: a store file that holds one JSON object instead of a list, as a
    file written by [_export_script] does, is not read as a script: [load]
    iterates over its keys and raises [AttributeError] at the first, which
    it does not catch; only the empty object loads, as no scripts. That
    is what [load] does after an export onto the path of the store. *)
Theorem object_in_the_store_file_raises (st : Storage.t) (env : Env)
    (m : gmap string json) :
  files env !! filepath st = Some (Json (JObj m)) →
  (load uuid4 st env).1
  = (if decide (m = ∅) then Ok [] else Raise AttributeError)
  ∧ (∀ a sc env0 env1,
       Editor.selected a = Some sc →
       Editor._export_script (filepath st) a env0 = Editor.Done a env1 →
       filepath st ≠ "" →
       (load uuid4 st env1).1 = Raise AttributeError).
Proof.
  assert (∀ env' m', files env' !! filepath st = Some (Json (JObj m')) →
            (load uuid4 st env').1
            = (if decide (m' = ∅) then Ok [] else Raise AttributeError)) as Hobj.
  { intros env' m' Hf. unfold load. rewrite Hf. cbn [json_load bind iterate].
    destruct (decide (m' = ∅)) as [->|Hne].
    - rewrite map_to_list_empty. reflexivity.
    - destruct (map_to_list m') as [|[k v] l] eqn:Hl.
      + by apply map_to_list_empty_iff in Hl.
      + cbn [fmap list_fmap fst mapM_st]. rewrite dict_to_script_of_a_key.
        reflexivity. }
  intros Hf. split; [by apply Hobj|].
  intros a sc env0 env1 Hsel Hexp Hpath.
  unfold Editor._export_script in Hexp. rewrite Hsel in Hexp.
  rewrite bool_decide_eq_false_2 in Hexp by exact Hpath.
  injection Hexp as <-.
  rewrite (Hobj _ (script_fields ((λ st, JObj (step_fields st)) <$> steps sc) sc)).
  - destruct (decide _) as [He|]; [|reflexivity].
    apply (f_equal (λ m, m !! "id")) in He. unfold script_fields in He.
    rewrite lookup_insert_eq, lookup_empty in He. discriminate He.
  - cbn [files]. apply lookup_insert_eq.
Qed.

End StoreFacts.

Lemma steps_without_id_get_fresh_uuids_witness :
  let sts := [Models.mkStep "x" "ls" true 0.3; Models.mkStep "y" "cd" false 0] in
  let s := Models.mkScript "s" "demo" "" sts "t0" "t0" in
  let record :=
    Storage.JObj
      (Storage.script_fields
         ((λ st, Storage.JObj (delete "id" (Storage.step_fields st))) <$> sts) s) in
  let env :=
    Storage.mkEnv {[ "scripts.json" := Storage.Json (Storage.JList [record]) ]} 5 in
  Storage.load Models.uuid_of_count (Storage.mk "scripts.json") env
  = (Storage.Ok
       [Models.mkScript "s" "demo" ""
          [Models.mkStep (Models.uuid_of_count 5) "ls" true 0.3;
           Models.mkStep (Models.uuid_of_count 6) "cd" false 0] "t0" "t0"],
     Storage.mkEnv (Storage.files env) 7).
Proof.
  intros sts s record env.
  exact (proj2 (steps_without_id_get_fresh_uuids Models.uuid_of_count sts s 0
                  (Storage.mk "scripts.json") env) eq_refl).
Defined.

Lemma object_in_the_store_file_raises_witness :
  let sc := Models.mkScript "s" "demo" "" [] "t0" "t0" in
  let a := Editor.mk [sc] (Some 0) None false 0 in
  let st := Storage.mk "scripts.json" in
  let env := Storage.mkEnv {[ "scripts.json" := Storage.Json (Storage.JObj ∅) ]} 0 in
  (Storage.load Models.uuid_of_count st env).1 = Storage.Ok []
  ∧ ∃ env1,
      Editor._export_script "scripts.json" a env = Editor.Done a env1
      ∧ (Storage.load Models.uuid_of_count st env1).1
        = Storage.Raise Storage.AttributeError.
Proof.
  intros sc a st env.
  destruct (object_in_the_store_file_raises Models.uuid_of_count st env ∅ eq_refl)
    as [Hempty Hexport].
  split; [exact Hempty|].
  eexists. split; [reflexivity|].
  apply (Hexport a sc env); [reflexivity | reflexivity | discriminate].
Defined.

(** ** The editor while a demo runs *)
Section EditingDuringTheDemo.
Import Models Editor.
Variables (uuid4 : nat → string) (st : Storage.t).

Lemma update_runner_state_returns (a : Editor.t) (env : Storage.Env) :
  (0 ≤ demo_step_idx a)%Z → _update_runner_state a env = Done a env.
Proof.
  intros Hidx. unfold _update_runner_state.
  destruct (demo_running a); [|reflexivity]. cbn [negb].
  destruct (selected a) as [sc|].
  - destruct (Z.leb_spec (Z.of_nat (List.length (steps sc))) (demo_step_idx a))
      as [Hle|Hlt]; [reflexivity|].
    unfold py_getitem. rewrite py_index_in_range by lia.
    destruct (lookup_lt_is_Some_2 (steps sc) (Z.to_nat (demo_step_idx a)))
      as [x ->]; [lia | reflexivity].
  - by rewrite (proj2 (Z.leb_le 0 (demo_step_idx a))).
Qed.

Lemma demo_step_idx_select_step (idx : Z) (a : Editor.t) :
  demo_step_idx (_select_step idx a) = demo_step_idx a.
Proof. unfold _select_step. repeat case_match; reflexivity. Qed.

Lemma demo_step_idx_update_selected (f : Script → Script) (a : Editor.t) :
  demo_step_idx (update_selected f a) = demo_step_idx a.
Proof. unfold update_selected. by destruct (selected_script a). Qed.

Lemma demo_step_idx_update_current_step (f : Step → Step) (a : Editor.t) :
  demo_step_idx (update_current_step f a) = demo_step_idx a.
Proof.
  unfold update_current_step. destruct (selected_step_idx a); [|reflexivity].
  apply demo_step_idx_update_selected.
Qed.

(** X30: [demo_step_idx] is never negative: it starts at 0, and nothing
    the user does in the editor makes it negative. While that is so,
    [_update_runner_state] reads no step outside the list, whatever was
    added to or deleted from the selected script, or deselected, while the
    demo runs. *)
Theorem runner_display_survives_editing (act : action) (a a' : Editor.t)
    (env env' : Storage.Env) :
  (∀ loaded, demo_step_idx (Editor.init loaded) = 0%Z)
  ∧ ((0 ≤ demo_step_idx a)%Z →
     perform uuid4 st act a env = Done a' env' →
     (0 ≤ demo_step_idx a')%Z
     ∧ _update_runner_state a' env' = Done a' env').
Proof.
  split; [reflexivity|]. intros Hidx Hdone.
  assert (0 ≤ demo_step_idx a')%Z as Hidx';
    [|split; [exact Hidx' | by apply update_runner_state_returns]].
  destruct act; cbn [perform] in Hdone;
    unfold _new_script, _delete_script, _on_step_click, _update_runner_state,
      _add_step, _duplicate_step, _delete_step, _move_step_up, _move_step_down,
      _on_step_text_change, _on_enter_toggle, _on_delay_change, _on_name_change,
      _on_desc_change, _export_script, _import_script in Hdone;
    cbn [Step_init] in Hdone;
    repeat case_match; try discriminate Hdone; injection Hdone as <- <-;
    rewrite ?demo_step_idx_select_step;
    cbn [demo_step_idx with_step_idx with_demo_step_idx with_scripts _select_script];
    rewrite ?demo_step_idx_select_step, ?demo_step_idx_update_selected,
      ?demo_step_idx_update_current_step;
    try exact Hidx; try lia.
Qed.

End EditingDuringTheDemo.

Lemma runner_display_survives_editing_witness :
  let sc := Models.mkScript "s" "demo" ""
              [Models.mkStep "a" "ls" true 0.3; Models.mkStep "b" "cd" false 0;
               Models.mkStep "c" "pwd" true 1] "t0" "t0" in
  let a := Editor.mk [sc] (Some 0) (Some 2%Z) true 2 in
  ∃ a' env',
    Editor.perform Models.uuid_of_count (Storage.mk "scripts.json")
      (Editor.DeleteStep "t1") a (Storage.mkEnv ∅ 0) = Editor.Done a' env'
    ∧ Editor.selected_steps a'
      = [Models.mkStep "a" "ls" true 0.3; Models.mkStep "b" "cd" false 0]
    ∧ Editor.demo_step_idx a' = 2%Z
    ∧ Editor._update_runner_state a' env' = Editor.Done a' env'.
Proof.
  intros sc a. eexists _, _.
  split; [reflexivity|]. split; [reflexivity|]. split; [reflexivity|].
  refine (proj2 (proj2 (runner_display_survives_editing Models.uuid_of_count
            (Storage.mk "scripts.json") (Editor.DeleteStep "t1") a _
            (Storage.mkEnv ∅ 0) _) _ eq_refl)).
  cbn. lia.
Defined.
